(** * tera-data-parser: the protocol registry and codec dispatcher

  A shallow embedding of [lib/protocol/index.js]: the filename parser, the
  definition registry with its loaders, the identifier resolver and the
  buffer-based [parse]/[write] layer, followed by the properties of the
  specification that concern them and by further properties of the same
  functions.

  Conventions of the embedding.
  - JavaScript numbers that the code uses as versions, patch versions,
    opcodes, offsets and lengths are integers of [Z].  [-Infinity], which
    [Math.max()] returns on no arguments, is kept apart in [JsNum].
  - [undefined]/[null] are [None]; a property read on them is the
    [TypeError] the engine raises.
  - A [Map] is a [gmap]; the own keys of [data.protocol] are an
    association list in enumeration order.
  - The table of lowest versions is an object literal that the code
    indexes by message name: it is the [gmap] of its own properties, read
    through [Js.object_get], which answers with [Object.prototype] for the
    names the object does not own, and written through [Js.object_set].
    What the code computes on a function of the prototype is [NaN].
  - A definition is an object: it has an identity, [ident], and the
    registry holds it by reference.  The registry is kept as the
    dictionary of what its references point to, so a write of flags into
    an object is made in every slot that holds it ([write_through]).
  - [Buffer]s live in a heap of byte blocks, so that aliasing between the
    scratch regions and returned buffers can be stated.  Every allocation
    is a block of its own.
  - The collaborators that are not part of this file of the repository
    (the definition parser, the compiler, [require], the file system, the
    logger) are parameters of the section; the logger is the list of the
    entries it received.
  - [path.basename] is the POSIX one.

  What the embedding leaves out.
  - Numbers are exact: [parseInt] of a version with more digits than a
    double holds is not rounded, and no version, opcode or length is a
    fraction or [NaN].
  - The keys of [data.deprecated[name]] are the decimal numerals of the
    versions, so that a table is indexed by the version itself.
  - [data.deprecated] is indexed by message name as well; what the
    prototype answers there has no entry under any version, so the [gmap]
    of its own keys reads the same.
  - [Buffer.allocUnsafe] carves a small buffer out of a shared pool; the
    buffers it returns are disjoint all the same, and each of them is a
    block of its own here, at [byteOffset] [0].  No allocation fails for
    want of memory.
  - A resolved identifier carries the definition with the flags it had
    when it was resolved.
  - A reader only reads its view, and a collaborator returns the same
    result, the same object included, each time it is asked the same. *)

From Stdlib Require Import ZArith String Ascii List Lia Bool.
From Stdlib.Strings Require Import Byte.
From stdpp Require Import base option list list_numbers gmap strings fin_maps.

Local Open Scope string_scope.
Local Open Scope list_scope.
Local Open Scope Z_scope.

(** ** JavaScript values the engine computes with *)

Module Js.

(** A number that is an integer or [-Infinity]. *)
Inductive JsNum :=
| NegInfinity
| Num (z : Z).

(** [ToBoolean] on such a number: only [0] is falsy. *)
Definition truthy (n : JsNum) : bool :=
  match n with
  | NegInfinity => true
  | Num z => negb (z =? 0)
  end.

(** [a < b]. *)
Definition lt (a b : JsNum) : bool :=
  match a, b with
  | _, NegInfinity => false
  | NegInfinity, Num _ => true
  | Num x, Num y => x <? y
  end.

(** [Math.max(...xs)]: [-Infinity] when there is no argument. *)
Definition Math_max (xs : list Z) : JsNum :=
  foldr (fun x acc => match acc with
                      | NegInfinity => Num x
                      | Num y => Num (Z.max x y)
                      end) NegInfinity xs.

(** [ToBoolean] of an optional integer property: absent and [0] are
    falsy. *)
Definition truthy_prop (o : option Z) : bool :=
  match o with
  | None => false
  | Some z => negb (z =? 0)
  end.

(** An array with holes: [new Array(n)] has length [n] and no element;
    an assignment past the end extends it. *)
Record Array (A : Type) := mkArray {
  arr_length : Z;
  arr_items : gmap Z A
}.
Arguments mkArray {A} _ _.
Arguments arr_length {A} _.
Arguments arr_items {A} _.

Definition new_Array {A} (n : Z) : Array A := mkArray n ∅.

Definition array_set {A} (a : Array A) (i : Z) (x : A) : Array A :=
  mkArray (Z.max (arr_length a) (i + 1)) (<[i := x]> (arr_items a)).

Definition array_get {A} (a : Array A) (i : Z) : option A :=
  arr_items a !! i.

(** An object literal used as a table of numbers.  Its own properties are
    the cells that assignments have stored; a key it does not own is looked
    up in [Object.prototype]. *)
Definition Object_prototype : list string :=
  ["constructor"; "__defineGetter__"; "__defineSetter__"; "hasOwnProperty";
   "__lookupGetter__"; "__lookupSetter__"; "isPrototypeOf";
   "propertyIsEnumerable"; "toString"; "valueOf"; "__proto__";
   "toLocaleString"].

(** What an assignment of a number stores. *)
Inductive Cell :=
| NaN
| Int (z : Z).

(** What a property read finds: a cell of the object itself, a function or
    object of the prototype, or [undefined]. *)
Inductive Property :=
| Own (c : Cell)
| Inherited
| Absent.

Definition object_get (o : gmap string Cell) (k : string) : Property :=
  match o !! k with
  | Some c => Own c
  | None => if bool_decide (k ∈ Object_prototype) then Inherited else Absent
  end.

(** [o[k] = c].  The setter of [__proto__] ignores a number; any other key
    becomes an own property. *)
Definition object_set (o : gmap string Cell) (k : string) (c : Cell)
  : gmap string Cell :=
  if String.eqb k "__proto__" then o else <[k := c]> o.

(** [ToBoolean] of what was read: [0], [NaN] and [undefined] are falsy, a
    function or object is truthy. *)
Definition truthy_property (p : Property) : bool :=
  match p with
  | Own (Int l) => negb (l =? 0)
  | Own NaN => false
  | Inherited => true
  | Absent => false
  end.

(** [Math.min(p, v)]: a function, an object, [undefined] and [NaN] convert
    to [NaN]. *)
Definition Math_min (p : Property) (v : Z) : Cell :=
  match p with
  | Own (Int l) => Int (Z.min l v)
  | Own NaN | Inherited | Absent => NaN
  end.

(** [v < p]: a comparison with what converts to [NaN] is false. *)
Definition lt_property (v : Z) (p : Property) : bool :=
  match p with
  | Own (Int l) => v <? l
  | Own NaN | Inherited | Absent => false
  end.

End Js.

(** ** File names *)

Module Filename.

Definition slash : ascii := "/"%char.
Definition dot : ascii := "."%char.

Definition between (lo hi : N) (c : ascii) : bool :=
  let n := N_of_ascii c in ((lo <=? n) && (n <=? hi))%N.

(** [\d] *)
Definition is_digit (c : ascii) : bool := between 48 57 c.

(** [\w], that is [A-Za-z0-9_] *)
Definition is_word (c : ascii) : bool :=
  is_digit c || between 65 90 c || between 97 122 c || Ascii.eqb c "_"%char.

Fixpoint all_chars (p : ascii -> bool) (s : string) : bool :=
  match s with
  | EmptyString => true
  | String c s' => p c && all_chars p s'
  end.

(** [\w+] and [\d+] against a whole string. *)
Definition word_plus (s : string) : bool :=
  negb (String.eqb s "") && all_chars is_word s.

Definition digit_plus (s : string) : bool :=
  negb (String.eqb s "") && all_chars is_digit s.

(** The pieces of a string between the occurrences of a separator. *)
Fixpoint fields (sep : ascii) (s : string) : list string :=
  match s with
  | EmptyString => [EmptyString]
  | String c s' =>
      if Ascii.eqb c sep then EmptyString :: fields sep s'
      else match fields sep s' with
           | [] => [String c EmptyString]
           | f :: fs => String c f :: fs
           end
  end.

Fixpoint drop_slashes (cs : list ascii) : list ascii :=
  match cs with
  | c :: cs' => if Ascii.eqb c slash then drop_slashes cs' else cs
  | [] => []
  end.

Fixpoint until_slash (cs : list ascii) : list ascii :=
  match cs with
  | c :: cs' => if Ascii.eqb c slash then [] else c :: until_slash cs'
  | [] => []
  end.

(** [path.basename]: it scans from the end, skips the trailing slashes
    and keeps what lies between the previous slash and them. *)
Definition basename (p : string) : string :=
  string_of_list_ascii
    (rev (until_slash (drop_slashes (rev (list_ascii_of_string p))))).

(** [parseInt(s, 10)] on a string of decimal digits. *)
Definition digit_value (c : ascii) : Z := Z.of_N (N_of_ascii c) - 48.

Fixpoint parseInt_from (acc : Z) (s : string) : Z :=
  match s with
  | EmptyString => acc
  | String c s' => parseInt_from (10 * acc + digit_value c) s'
  end.

Definition parseInt10 (s : string) : Z := parseInt_from 0 s.

(** [s.endsWith(suffix)] *)
Definition endsWith (s suffix : string) : bool :=
  let n := String.length s in
  let k := String.length suffix in
  (k <=? n)%nat && String.eqb (substring (n - k) k s) suffix.

Inductive DefType := def | js.

Definition DefType_of (s : string) : option DefType :=
  if String.eqb s "def" then Some def
  else if String.eqb s "js" then Some js
  else None.

(** The object [parseDefinitionFilename] returns on a match. *)
Record ParsedName := mkParsedName {
  name : string;
  version : Z;
  platform : option string;
  type : DefType
}.

(** [basename.match(/^(\w+)\.(\d+)(\.(\w+))?\.(def|js)$/)] followed by
    the construction of the result.  No class of the expression contains
    the dot, so a match cuts the string at its dots into three or four
    pieces. *)
Definition match_filename (base : string) : option ParsedName :=
  match fields dot base with
  | [n; v; e] =>
      if word_plus n && digit_plus v then
        t ← DefType_of e; Some (mkParsedName n (parseInt10 v) None t)
      else None
  | [n; v; p; e] =>
      if word_plus n && digit_plus v && word_plus p then
        t ← DefType_of e; Some (mkParsedName n (parseInt10 v) (Some p) t)
      else None
  | _ => None
  end.

(** The strings of [/^(\w+)\.(\d+)(\.(\w+))?\.(def|js)$/], with the groups
    the engine reads. *)
Inductive filename_regex : string -> ParsedName -> Prop :=
| regex_plain n v e t :
    word_plus n = true -> digit_plus v = true -> DefType_of e = Some t ->
    filename_regex (n +:+ "." +:+ v +:+ "." +:+ e)
      (mkParsedName n (parseInt10 v) None t)
| regex_platform n v p e t :
    word_plus n = true -> digit_plus v = true -> word_plus p = true ->
    DefType_of e = Some t ->
    filename_regex (n +:+ "." +:+ v +:+ "." +:+ p +:+ "." +:+ e)
      (mkParsedName n (parseInt10 v) (Some p) t).

(** No character of the string is the dot. *)
Definition dot_free (s : string) : bool :=
  all_chars (fun c => negb (Ascii.eqb c dot)) s.

End Filename.


(** ** Failures *)

Inductive NotFoundKind :=
| CodeNotKnown        (* code not known for message "name" *)
| MappingNotFound     (* mapping not found for opcode ... *)
| NoDefinition.       (* no definition found for message ... *)

Inductive Access := Reading | Writing.

(** What the engine throws, and what reaches it from below. *)
Inductive Error :=
| InvalidPlatform
| IdentifierTypeError
| NotFound (why : NotFoundKind)
| Outdated
| Deprecated (op : Access)
| TypeError                (* a property read on [null] or [undefined] *)
| RangeError               (* an offset or a size out of range *)
| Thrown (e : string).     (* raised by a collaborator *)

Inductive Outcome (A : Type) :=
| Ok (a : A)
| Throw (e : Error).
Arguments Ok {A} _.
Arguments Throw {A} _.

Global Instance Outcome_ret : MRet Outcome := fun A a => Ok a.
Global Instance Outcome_bind : MBind Outcome := fun A B f m =>
  match m with
  | Ok a => f a
  | Throw e => Throw e
  end.

Global Instance Outcome_fmap : FMap Outcome := fun A B f m =>
  match m with
  | Ok a => Ok (f a)
  | Throw e => Throw e
  end.

(** A call into a collaborator returns or raises. *)
Definition of_call {A} (r : string + A) : Outcome A :=
  match r with
  | inl e => Throw (Thrown e)
  | inr a => Ok a
  end.

(** [for (x of xs) body] threading a state, stopped by the first throw. *)
Fixpoint for_of {S A} (xs : list A) (body : A -> S -> Outcome S) (s : S)
  : Outcome S :=
  match xs with
  | [] => Ok s
  | x :: xs' => s' ← body x s; for_of xs' body s'
  end.

(** [for (let i = lo; i <= hi; ++i) body] *)
Definition for_le {S} (lo hi : Z) (body : Z -> S -> Outcome S) (s : S)
  : Outcome S :=
  for_of (seqZ lo (hi - lo + 1)) body s.

(** ** Buffers and views *)

Module Buffer.

Abbreviation byte := Byte.byte.
Abbreviation Heap := (gmap positive (list Byte.byte)).

Definition byte_of_Z (z : Z) : byte :=
  default Byte.x00 (Byte.of_N (Z.to_N (z mod 256))).

Definition Z_of_byte (b : byte) : Z := Z.of_N (Byte.to_N b).

(** The bytes of a block; a [Buffer] is the whole of its block. *)
Definition contents (h : Heap) (b : positive) : list byte :=
  default [] (h !! b).

Definition length (h : Heap) (b : positive) : Z :=
  Z.of_nat (List.length (contents h b)).

(** [Buffer.allocUnsafe(size)]: a new block of [size] bytes holding whatever
    the memory held, [uninit]. *)
Definition allocUnsafe (uninit : positive -> Z -> byte) (h : Heap) (size : Z)
  : Outcome (positive * Heap) :=
  if size <? 0 then Throw RangeError
  else
    let b := fresh (dom h) in
    Ok (b, <[b := uninit b <$> seqZ 0 size]> h).

(** [source.copy(target, targetStart, sourceStart, sourceEnd)] on the bytes:
    the number of bytes copied is bounded by the room left in the target and
    by the end of the source. *)
Definition copy_bytes (source target : list byte)
  (targetStart sourceStart sourceEnd : Z) : list byte :=
  let nb := Z.min (Z.min (sourceEnd - sourceStart)
                         (Z.of_nat (List.length target) - targetStart))
                  (Z.of_nat (List.length source) - sourceStart) in
  if nb <=? 0 then target
  else take (Z.to_nat targetStart) target
       ++ take (Z.to_nat nb) (drop (Z.to_nat sourceStart) source)
       ++ drop (Z.to_nat (targetStart + nb)) target.

Definition copy (h : Heap) (source target : positive)
  (targetStart sourceStart sourceEnd : Z) : Outcome Heap :=
  if (targetStart <? 0) || (sourceStart <? 0) || (sourceEnd <? 0)
     || (length h source <? sourceStart)
  then Throw RangeError
  else Ok (<[target := copy_bytes (contents h source) (contents h target)
                         targetStart sourceStart sourceEnd]> h).

(** A [DataView]: a window of [byteLength] bytes at [byteOffset] of a block. *)
Record DataView := mkDataView {
  buffer : positive;
  byteOffset : Z;
  byteLength : Z
}.

(** [new DataView(buffer, byteOffset, byteLength)] *)
Definition new_DataView (h : Heap) (b : positive) (off len : Z)
  : Outcome DataView :=
  if (off <? 0) || (len <? 0) || (length h b <? off + len)
  then Throw RangeError
  else Ok (mkDataView b off len).

(** The bytes a view shows, and a block after the bytes of a view have been
    replaced. *)
Definition view_bytes (h : Heap) (v : DataView) : list byte :=
  take (Z.to_nat (byteLength v))
       (drop (Z.to_nat (byteOffset v)) (contents h (buffer v))).

Definition splice (at_ : Z) (bs block : list byte) : list byte :=
  take (Z.to_nat at_) block ++ bs
  ++ drop (Z.to_nat at_ + List.length bs) block.

Definition set_view_bytes (h : Heap) (v : DataView) (bs : list byte) : Heap :=
  <[buffer v := splice (byteOffset v) bs (contents h (buffer v))]> h.

(** [view.setUint16(pos, value, true)]: the value is taken modulo 2^16 and
    stored low byte first. *)
Definition uint16_le (value : Z) : list byte :=
  [byte_of_Z value; byte_of_Z (value / 256)].

Definition setUint16_le (h : Heap) (v : DataView) (pos value : Z)
  : Outcome Heap :=
  if (pos <? 0) || (byteLength v <? pos + 2) then Throw RangeError
  else Ok (<[buffer v := splice (byteOffset v + pos) (uint16_le value)
                           (contents h (buffer v))]> h).

(** The number two bytes spell, low byte first. *)
Definition read_uint16_le (bs : list byte) : option Z :=
  match bs with
  | lo :: hi :: _ => Some (Z_of_byte lo + 256 * Z_of_byte hi)
  | _ => None
  end.

End Buffer.

(** ** The engine *)

Inductive LogLevel := debug | warn | error.

(** What the logger is told. *)
Inductive LogMessage :=
| InvalidFilenameSyntax (base : string)
| SkippingPath (base : string)
| ErrorWhileCompiling (name : string) (version : Z)
| Exception (e : string)
| SkippedOutdatedDef (name : string) (version : Z).

(** An entry of [data.deprecated[name][version]]. *)
Record DeprecationEntry := mkDeprecationEntry {
  d_min : option Z;
  d_max : option Z;
  d_readable : option bool
}.

(** The bundle [loadDefaultBundle] receives: the own keys of [data.protocol]
    with their values in enumeration order, and [data.deprecated]. *)
Record Bundle := mkBundle {
  b_protocol : list (string * string);
  b_deprecated : option (gmap string (gmap Z DeprecationEntry))
}.

(** The opcode map, owned by the caller. *)
Record ProtocolMap := mkProtocolMap {
  pm_name : gmap string Z;
  pm_code : gmap Z string
}.

Inductive Identifier :=
| IdString (s : string)
| IdNumber (z : Z)
| IdOther.

(** The [definitionVersion] argument: ['*'] or a number. *)
Inductive VersionRequest :=
| Latest
| Exact (v : Z).

Definition PLATFORMS : list string := ["pc"; "console"; "classic"].

Section Engine.

Local Set Default Proof Using "Type".

(** Structured data, with the empty object; the structural description the
    definition parser produces. *)
Variable Obj : Type.
Variable emptyObj : Obj.
Variable Layout : Type.

(** A compiled definition: an object, told from every other object by
    [ident], with its three routines and the two flags the engine writes
    into it.  A value of this type is the object as it is read at one
    moment; two values with the same [ident] are two readings of one
    object.  The reader is handed the bytes its view shows ([None] when the
    view is [undefined]); the writer is handed the bytes of the write view
    and leaves them as its first result. *)
Record Definition_ := mkDefinition {
  ident : positive;
  reader : option (list Buffer.byte) -> string + Obj;
  writer : list Buffer.byte -> Obj -> list Buffer.byte * (string + Z);
  cloner : Obj -> string + Obj;
  readable : bool;
  writeable : bool
}.

(** What a loader hands to [addDefinition]: an object that has the three
    routines, or one that must be compiled first. *)
Inductive DefObject :=
| Compiled (d : Definition_)
| Structural (l : Layout).

(** The collaborators. *)
Variable compile : Layout -> string + Definition_.
Variable defParser : string -> option string -> string + option DefObject.
Variable requireStr : string -> string -> string + option DefObject.
Variable require : string -> string + option DefObject.
Variable readdirSync : string -> string + list string.
Variable path_join : string -> string -> string.
Variable base64_decode : string -> string.
Variable read_bundle : string -> string + Bundle.
Variable uninit : positive -> Z -> Buffer.byte.

Record TeraProtocol := mkTeraProtocol {
  region : string;
  majorPatchVersion : Z;
  minorPatchVersion : Z;
  platform : string;
  protocolMap : ProtocolMap;
  messages : gmap string (gmap Z Definition_);
  readBuffer : positive;
  readViews : Js.Array Buffer.DataView;
  writeBuffer : positive;
  writeView : Buffer.DataView;
  loaded : bool;
  lowestDefaultDefVersions : option (gmap string Js.Cell);
  deprecationData : option (gmap string (gmap Z DeprecationEntry));
  defaultDefinitions : option (gset (string * Z))
}.

Definition set_messages (m : gmap string (gmap Z Definition_))
  (p : TeraProtocol) : TeraProtocol :=
  mkTeraProtocol (region p) (majorPatchVersion p) (minorPatchVersion p)
    (platform p) (protocolMap p) m (readBuffer p) (readViews p)
    (writeBuffer p) (writeView p) (loaded p) (lowestDefaultDefVersions p)
    (deprecationData p) (defaultDefinitions p).

Definition set_loaded (b : bool) (p : TeraProtocol) : TeraProtocol :=
  mkTeraProtocol (region p) (majorPatchVersion p) (minorPatchVersion p)
    (platform p) (protocolMap p) (messages p) (readBuffer p) (readViews p)
    (writeBuffer p) (writeView p) b (lowestDefaultDefVersions p)
    (deprecationData p) (defaultDefinitions p).

Definition set_lowestDefaultDefVersions (l : gmap string Js.Cell)
  (p : TeraProtocol) : TeraProtocol :=
  mkTeraProtocol (region p) (majorPatchVersion p) (minorPatchVersion p)
    (platform p) (protocolMap p) (messages p) (readBuffer p) (readViews p)
    (writeBuffer p) (writeView p) (loaded p) (Some l)
    (deprecationData p) (defaultDefinitions p).

Definition set_deprecationData (d : gmap string (gmap Z DeprecationEntry))
  (p : TeraProtocol) : TeraProtocol :=
  mkTeraProtocol (region p) (majorPatchVersion p) (minorPatchVersion p)
    (platform p) (protocolMap p) (messages p) (readBuffer p) (readViews p)
    (writeBuffer p) (writeView p) (loaded p) (lowestDefaultDefVersions p)
    (Some d) (defaultDefinitions p).

Definition set_defaultDefinitions (d : gset (string * Z))
  (p : TeraProtocol) : TeraProtocol :=
  mkTeraProtocol (region p) (majorPatchVersion p) (minorPatchVersion p)
    (platform p) (protocolMap p) (messages p) (readBuffer p) (readViews p)
    (writeBuffer p) (writeView p) (loaded p) (lowestDefaultDefVersions p)
    (deprecationData p) (Some d).

(** The state a method runs in: the engine, the heap of buffers and what has
    been logged so far (latest entry last). *)
Record World := mkWorld {
  this : TeraProtocol;
  heap : Buffer.Heap;
  console : list (LogLevel * LogMessage)
}.

Definition M (A : Type) : Type := World -> World * Outcome A.

Global Instance M_ret : MRet M := fun A a w => (w, Ok a).
Global Instance M_bind : MBind M := fun A B f m w =>
  match m w with
  | (w', Ok a) => f a w'
  | (w', Throw e) => (w', Throw e)
  end.

Definition throw {A} (e : Error) : M A := fun w => (w, Throw e).
Definition get_this : M TeraProtocol := fun w => (w, Ok (this w)).
Definition modify_this (f : TeraProtocol -> TeraProtocol) : M unit :=
  fun w => (mkWorld (f (this w)) (heap w) (console w), Ok tt).
Definition get_heap : M Buffer.Heap := fun w => (w, Ok (heap w)).
Definition put_heap (h : Buffer.Heap) : M unit :=
  fun w => (mkWorld (this w) h (console w), Ok tt).
Definition log (l : LogLevel) (m : LogMessage) : M unit :=
  fun w => (mkWorld (this w) (heap w) (console w ++ [(l, m)]), Ok tt).
Definition lift {A} (o : Outcome A) : M A := fun w => (w, o).

(** [for (const x of xs) body] *)
Fixpoint forM (A : Type) (xs : list A) (body : A -> M unit) : M unit :=
  match xs with
  | [] => mret tt
  | x :: xs' => _ ← body x; forM A xs' body
  end.
Arguments forM {A} _ _.

(** *** Loading *)

Definition parseDefinitionFilename (file : string)
  : M (option Filename.ParsedName) :=
  match Filename.match_filename (Filename.basename file) with
  | None =>
      _ ← (if Filename.endsWith file ".def" || Filename.endsWith file ".js"
           then log warn (InvalidFilenameSyntax (Filename.basename file))
           else log debug (SkippingPath (Filename.basename file)));
      mret None
  | Some parsedName => mret (Some parsedName)
  end.

Definition set_flags (r w : bool) (d : Definition_) : Definition_ :=
  mkDefinition (ident d) (reader d) (writer d) (cloner d) r w.

(** [definition.readable = r; definition.writeable = w] on the object
    [i], as the registry shows it: the registry holds references, so the
    flags change in every slot that holds this object. *)
Definition reflag (i : positive) (r w : bool) (d : Definition_)
  : Definition_ :=
  if decide (ident d = i) then set_flags r w d else d.

Definition write_through (i : positive) (r w : bool)
  (m : gmap string (gmap Z Definition_)) : gmap string (gmap Z Definition_) :=
  (fun versions : gmap Z Definition_ => reflag i r w <$> versions) <$> m.
Arguments write_through : simpl never.

(** [data.min > major] and [data.max < major] on a property that may be
    absent: a comparison with [undefined] is false. *)
Definition prop_gt (o : option Z) (x : Z) : bool :=
  match o with
  | Some z => x <? z
  | None => false
  end.

Definition prop_lt (o : option Z) (x : Z) : bool :=
  match o with
  | Some z => z <? x
  | None => false
  end.

(** [_assignDeprecationFlags]: the object it returns, with the flags it
    has written into it.  Where that object is registered, the writes show
    in the registry: [add_to_map] makes them there. *)
Definition _assignDeprecationFlags (this : TeraProtocol) (name : string)
  (version : Z) (definition : Definition_) : Outcome Definition_ :=
  let definition := set_flags true true definition in
  match deprecationData this with
  | None => Throw TypeError
  | Some deprecationData =>
      match deprecationData !! name ≫= (fun byVersion => byVersion !! version) with
      | Some data =>
          if (negb (Js.truthy_prop (d_min data))
              || prop_gt (d_min data) (majorPatchVersion this))
             && (negb (Js.truthy_prop (d_max data))
                 || prop_lt (d_max data) (majorPatchVersion this))
          then Ok (set_flags (default false (d_readable data)) false definition)
          else Ok definition
      | None => Ok definition
      end
  end.

(** The second half of [addDefinition], "Add to map".  The call of
    [_assignDeprecationFlags] writes into the object it is handed: first
    both flags are set, then the table is consulted, which throws when
    there is none, and then the flags of the entry are written.  What the
    slot receives is that same object. *)
Definition add_to_map (name : string) (version : Z)
  (definition : Definition_) (overwrite : bool) : M unit :=
  this ← get_this;
  _ ← match messages this !! name with
      | None => modify_this (set_messages (<[name := ∅]> (messages this)))
      | Some _ => mret tt
      end;
  this ← get_this;
  let versions := default ∅ (messages this !! name) in
  if overwrite || negb (bool_decide (is_Some (versions !! version))) then
    _ ← modify_this
          (fun this =>
             set_messages
               (write_through (ident definition) true true (messages this))
               this);
    this ← get_this;
    flagged ← lift (_assignDeprecationFlags this name version definition);
    let seen :=
      write_through (ident definition) (readable flagged) (writeable flagged)
        (messages this) in
    modify_this
      (set_messages
         (<[name := <[version := flagged]> (default ∅ (seen !! name))]> seen))
  else mret tt.

Definition addDefinition (name : string) (version : Z)
  (definition : DefObject) (overwrite : bool) : M unit :=
  match definition with
  | Compiled definition => add_to_map name version definition overwrite
  | Structural l =>
      match compile l with
      | inr definition => add_to_map name version definition overwrite
      | inl e =>
          _ ← log error (ErrorWhileCompiling name version);
          log error (Exception e)
      end
  end.

(** The body of the [forEach] that fills [lowestDefaultDefVersions], an
    object literal: the name is looked up in the prototype as well. *)
Definition note_lowest (def : option Filename.ParsedName) : M unit :=
  match def with
  | None => throw TypeError
  | Some def =>
      this ← get_this;
      match lowestDefaultDefVersions this with
      | None => throw TypeError
      | Some lowest =>
          let current := Js.object_get lowest (Filename.name def) in
          if Js.truthy_property current then
            modify_this (set_lowestDefaultDefVersions
              (Js.object_set lowest (Filename.name def)
                 (Js.Math_min current (Filename.version def))))
          else
            modify_this (set_lowestDefaultDefVersions
              (Js.object_set lowest (Filename.name def)
                 (Js.Int (Filename.version def))))
      end
  end.

(** [definition && (!parsedName.platform || parsedName.platform === this.platform)] *)
Definition applies (this : TeraProtocol) (parsedName : Filename.ParsedName)
  : bool :=
  match Filename.platform parsedName with
  | None => true
  | Some p => String.eqb p (platform this)
  end.

(** [!!parsedName.platform] *)
Definition tagged (parsedName : Filename.ParsedName) : bool :=
  bool_decide (is_Some (Filename.platform parsedName)).

Fixpoint mapM (A B : Type) (f : A -> M B) (xs : list A) : M (list B) :=
  match xs with
  | [] => mret []
  | x :: xs' => y ← f x; ys ← mapM A B f xs'; mret (y :: ys)
  end.
Arguments mapM {A B} _ _.

(** The body of the loop of [loadDefaultBundle] over [data.protocol]. *)
Definition loadDefaultEntry (entry : string * string) : M unit :=
  let file := entry.1 in
  parsedName ← parseDefinitionFilename file;
  let defData := base64_decode entry.2 in
  match parsedName with
  | None => throw TypeError
  | Some parsedName =>
      definition ← lift (of_call
        (match Filename.type parsedName with
         | Filename.js => requireStr defData file
         | Filename.def => defParser file (Some defData)
         end));
      this ← get_this;
      match definition with
      | Some definition =>
          if applies this parsedName then
            addDefinition (Filename.name parsedName)
              (Filename.version parsedName) definition (tagged parsedName)
          else mret tt
      | None => mret tt
      end
  end.

Definition loadDefaultBundle (data : Bundle) : M unit :=
  defaultDefData ← mapM parseDefinitionFilename (b_protocol data).*1;
  _ ← modify_this (set_lowestDefaultDefVersions ∅);
  _ ← forM defaultDefData note_lowest;
  _ ← modify_this (set_deprecationData (default ∅ (b_deprecated data)));
  ids ← mapM (fun def : option Filename.ParsedName =>
                match def with
                | None => throw TypeError
                | Some def => mret (Filename.name def, Filename.version def)
                end) defaultDefData;
  _ ← modify_this (set_defaultDefinitions (list_to_set ids));
  _ ← modify_this (set_messages ∅);
  _ ← forM (b_protocol data) loadDefaultEntry;
  modify_this (set_loaded true).

(** The staleness test of [loadCustomDefinitions]. *)
Definition outdated (parsedName : Filename.ParsedName) : M bool :=
  if Filename.version parsedName =? 0 then mret false
  else
    this ← get_this;
    match lowestDefaultDefVersions this with
    | None => throw TypeError
    | Some lowest =>
        let current := Js.object_get lowest (Filename.name parsedName) in
        mret (Js.truthy_property current
              && Js.lt_property (Filename.version parsedName) current)
    end.

(** The body of the loop of [loadCustomDefinitions]. *)
Definition loadCustomFile (defPath file : string) : M unit :=
  let fullpath := path_join defPath file in
  parsedName ← parseDefinitionFilename file;
  match parsedName with
  | None => mret tt
  | Some parsedName =>
      stale ← outdated parsedName;
      if stale : bool then
        log debug (SkippedOutdatedDef (Filename.name parsedName)
                     (Filename.version parsedName))
      else
        definition ← lift (of_call
          (match Filename.type parsedName with
           | Filename.js => require fullpath
           | Filename.def => defParser fullpath None
           end));
        this ← get_this;
        match definition with
        | Some definition =>
            if applies this parsedName then
              addDefinition (Filename.name parsedName)
                (Filename.version parsedName) definition (tagged parsedName)
            else mret tt
        | None => mret tt
        end
  end.

Definition loadCustomDefinitions (defPath : string) : M unit :=
  defFiles ← lift (of_call (readdirSync defPath));
  forM defFiles (loadCustomFile defPath).

Definition load (dataPath : string) : M unit :=
  data ← lift (of_call (read_bundle (path_join dataPath "data.json")));
  _ ← loadDefaultBundle data;
  loadCustomDefinitions (path_join dataPath "definitions").

Definition isDefaultDefinition (this : TeraProtocol) (name : string)
  (version : Z) : Outcome bool :=
  match defaultDefinitions this with
  | None => Throw TypeError
  | Some ids => Ok (bool_decide ((name, version) ∈ ids))
  end.

Definition isCustomDefinition (this : TeraProtocol) (name : string)
  (version : Z) : Outcome bool :=
  b ← isDefaultDefinition this name version; Ok (negb b).

(** [parseDefinition(data)]: the definition parser, handed one argument. *)
Definition parseDefinition (data : string) : M (option DefObject) :=
  lift (of_call (defParser data None)).

(** *** Construction *)

Definition constructor (region : string)
  (majorPatchVersion minorPatchVersion : Z) (protocolMap : ProtocolMap)
  (platform : option string) (h : Buffer.Heap)
  : Outcome (TeraProtocol * Buffer.Heap) :=
  let platform := default "pc" platform in
  if negb (bool_decide (platform ∈ PLATFORMS)) then Throw InvalidPlatform
  else
    '(readBuffer, h) ← Buffer.allocUnsafe uninit h 0x10000;
    readViews ← for_le 0 0x10000
      (fun i views =>
         view ← Buffer.new_DataView h readBuffer 0 i;
         Ok (Js.array_set views i view))
      (Js.new_Array 0x10000);
    '(writeBuffer, h) ← Buffer.allocUnsafe uninit h 0x10000;
    writeView ← Buffer.new_DataView h writeBuffer 0 0x10000;
    Ok (mkTeraProtocol region majorPatchVersion minorPatchVersion platform
          protocolMap ∅ readBuffer readViews writeBuffer writeView false
          None None None, h).

(** *** Resolution *)

Record ResolvedIdentifier := mkResolvedIdentifier {
  name : string;
  code : Z;
  version : option Js.JsNum;
  latest_version : option Js.JsNum;
  definition : Definition_
}.

(** Truthiness and [<] on a variable that may still be [undefined]. *)
Definition var_truthy (o : option Js.JsNum) : bool :=
  match o with
  | Some n => Js.truthy n
  | None => false
  end.

Definition var_lt (a b : option Js.JsNum) : bool :=
  match a, b with
  | Some x, Some y => Js.lt x y
  | _, _ => false
  end.

Definition resolveIdentifier (this : TeraProtocol) (identifier : Identifier)
  (definitionVersion : VersionRequest) : Outcome ResolvedIdentifier :=
  '(name, code) ←
    match identifier with
    | IdString name =>
        match pm_name (protocolMap this) !! name with
        | None => Throw (NotFound CodeNotKnown)
        | Some code => Ok (name, code)
        end
    | IdNumber code =>
        match pm_code (protocolMap this) !! code with
        | None => Throw (NotFound MappingNotFound)
        | Some name => Ok (name, code)
        end
    | IdOther => Throw IdentifierTypeError
    end;
  let versions := messages this !! name in
  let latest_version :=
    (fun vs : gmap Z Definition_ => Js.Math_max (elements (dom vs))) <$> versions in
  let version :=
    (fun latest => match definitionVersion with
                   | Latest => latest
                   | Exact v => Js.Num v
                   end) <$> latest_version in
  let definition :=
    vs ← versions;
    v ← version;
    match v with
    | Js.Num z => vs !! z
    | Js.NegInfinity => None
    end in
  match definition with
  | None =>
      if var_truthy latest_version && var_truthy version
         && var_lt version latest_version
      then Throw Outdated
      else Throw (NotFound NoDefinition)
  | Some definition =>
      Ok (mkResolvedIdentifier name code version latest_version definition)
  end.

(** *** Invocation *)

Definition parse (resolvedIdentifier : ResolvedIdentifier)
  (buffer : positive) : M Obj :=
  if negb (readable (definition resolvedIdentifier))
  then throw (Deprecated Reading)
  else
    this ← get_this;
    h ← get_heap;
    h ← lift (Buffer.copy h buffer (readBuffer this) 0 0 (Buffer.length h buffer));
    _ ← put_heap h;
    lift (of_call
      (reader (definition resolvedIdentifier)
         (Buffer.view_bytes h
            <$> Js.array_get (readViews this) (Buffer.length h buffer)))).

Definition write (resolvedIdentifier : ResolvedIdentifier)
  (data : option Obj) : M positive :=
  if negb (writeable (definition resolvedIdentifier))
  then throw (Deprecated Writing)
  else
    this ← get_this;
    h ← get_heap;
    let written :=
      writer (definition resolvedIdentifier)
        (Buffer.view_bytes h (writeView this)) (default emptyObj data) in
    _ ← put_heap (Buffer.set_view_bytes h (writeView this) written.1);
    length ← lift (of_call written.2);
    h ← get_heap;
    h ← lift (Buffer.setUint16_le h (writeView this) 0 length);
    _ ← put_heap h;
    h ← lift (Buffer.setUint16_le h (writeView this) 2 (code resolvedIdentifier));
    _ ← put_heap h;
    '(result, h) ← lift (Buffer.allocUnsafe uninit h length);
    _ ← put_heap h;
    h ← lift (Buffer.copy h (writeBuffer this) result 0 0 length);
    _ ← put_heap h;
    mret result.

Definition clone (resolvedIdentifier : ResolvedIdentifier) (data : Obj)
  : M Obj :=
  lift (of_call (cloner (definition resolvedIdentifier) data)).

(** ** The vocabulary of the properties *)

(** The entry [data.deprecated[n][v]], when the table has one. *)
Definition deprecation_entry (table : gmap string (gmap Z DeprecationEntry))
  (n : string) (v : Z) : option DeprecationEntry :=
  table !! n ≫= (fun byVersion => byVersion !! v).

(** The reading of the specification: the patch version lies strictly
    outside [[min, max]], an absent bound being infinite. *)
Definition strictly_outside (major : Z) (e : DeprecationEntry) : Prop :=
  (exists m, d_min e = Some m /\ major < m)
  \/ (exists m, d_max e = Some m /\ m < major).

(** What the code tests: no bound of the entry admits the patch version.  A
    bound that is absent, or 0, admits nothing; [min] admits the versions
    from it upwards and [max] those up to it. *)
Definition no_bound_admits (major : Z) (e : DeprecationEntry) : Prop :=
  (forall m, d_min e = Some m -> m <> 0 -> major < m)
  /\ (forall m, d_max e = Some m -> m <> 0 -> m < major).

(** [l] is the largest version key of a table. *)
Definition is_max_key (vs : gmap Z Definition_) (l : Z) : Prop :=
  is_Some (vs !! l) /\ forall k, is_Some (vs !! k) -> k <= l.

(** The first step of [resolveIdentifier] succeeds: the identifier is a
    name the opcode map knows, with code [c], or a code it knows, with name
    [n]. *)
Definition names (p : TeraProtocol) (identifier : Identifier) (n : string)
  (c : Z) : Prop :=
  match identifier with
  | IdString s => s = n /\ pm_name (protocolMap p) !! s = Some c
  | IdNumber z => z = c /\ pm_code (protocolMap p) !! z = Some n
  | IdOther => False
  end.

(** The scratch regions as the constructor leaves them: two distinct blocks
    of 65536 bytes, one view over the whole write block, and a read view of
    [i] bytes under every index [i] from 0 to 65536, none elsewhere. *)
Definition scratch_ok (p : TeraProtocol) (h : Buffer.Heap) : Prop :=
  readBuffer p <> writeBuffer p
  /\ Buffer.length h (readBuffer p) = 0x10000
  /\ Buffer.length h (writeBuffer p) = 0x10000
  /\ writeView p = Buffer.mkDataView (writeBuffer p) 0 0x10000
  /\ forall i,
      Js.array_get (readViews p) i
      = if (0 <=? i) && (i <=? 0x10000)
        then Some (Buffer.mkDataView (readBuffer p) 0 i) else None.

(** A reader and a writer that are inverses of each other: on the write
    view, the writer leaves the view as long as it was and returns an end
    offset from 4 up to the size of the view, and the reader, handed any
    packet of that many bytes that carries the written bytes from offset 4
    on, returns the value that was written. *)
Definition inverse_codec (d : Definition_) : Prop :=
  forall (view : list Buffer.byte) (x : Obj),
    List.length view = Z.to_nat 0x10000 ->
    exists bytes len,
      writer d view x = (bytes, inr len)
      /\ List.length bytes = List.length view
      /\ 4 <= len <= 0x10000
      /\ forall packet,
          List.length packet = Z.to_nat len ->
          drop 4 packet = drop 4 (take (Z.to_nat len) bytes) ->
          reader d (Some packet) = inr x.

(** The definition a registry holds for a name and a version. *)
Definition entry (m : gmap string (gmap Z Definition_)) (n : string) (v : Z)
  : option Definition_ :=
  m !! n ≫= (fun versions => versions !! v).

Definition registered (p : TeraProtocol) (n : string) (v : Z)
  : option Definition_ :=
  entry (messages p) n v.

(** The routines [addDefinition] goes on with: those of the object, or what
    the compiler makes of it. *)
Definition compiled_of (o : DefObject) : string + Definition_ :=
  match o with
  | Compiled d => inr d
  | Structural l => compile l
  end.

(** The flags of a table entry, as [_assignDeprecationFlags] computes them. *)
Definition flagged (table : gmap string (gmap Z DeprecationEntry)) (major : Z)
  (n : string) (v : Z) (d : Definition_) : Definition_ :=
  match deprecation_entry table n v with
  | Some data =>
      if (negb (Js.truthy_prop (d_min data)) || prop_gt (d_min data) major)
         && (negb (Js.truthy_prop (d_max data)) || prop_lt (d_max data) major)
      then set_flags (default false (d_readable data)) false d
      else set_flags true true d
  | None => set_flags true true d
  end.

(** A definition without its flags: the object itself, whatever the engine
    has last written into it. *)
Definition unflagged (d : Definition_) : Definition_ := set_flags true true d.

(** The object a slot of the registry holds. *)
Definition object_at (m : gmap string (gmap Z Definition_)) (n : string)
  (v : Z) : option Definition_ :=
  unflagged <$> entry m n v.

(** The registry after a registration that goes through: the flags of the
    object are seen in every slot that holds it, and the slot holds the
    object. *)
Definition store (n : string) (v : Z) (d : Definition_)
  (m : gmap string (gmap Z Definition_)) : gmap string (gmap Z Definition_) :=
  let seen := write_through (ident d) (readable d) (writeable d) m in
  <[n := <[v := d]> (default ∅ (seen !! n))]> seen.

(** The table of versions [add_to_map] starts with: the one the name has,
    or the empty one it creates. *)
Definition with_table (n : string) (m : gmap string (gmap Z Definition_))
  : gmap string (gmap Z Definition_) :=
  match m !! n with
  | Some _ => m
  | None => <[n := ∅]> m
  end.

(** The outcome of a loop body, as far as the registry is concerned. *)
Inductive Action :=
| Skip
| Register (n : string) (v : Z) (d : Definition_) (overwrite : bool)
| Raise (e : Error).

(** The overwrite rule on a registry. *)
Definition register (n : string) (v : Z) (d : Definition_) (overwrite : bool)
  (m : gmap string (gmap Z Definition_)) : gmap string (gmap Z Definition_) :=
  if overwrite || negb (bool_decide (is_Some (entry m n v)))
  then store n v d m else m.

Definition apply_action (table : gmap string (gmap Z DeprecationEntry))
  (major : Z) (m : gmap string (gmap Z Definition_)) (a : Action)
  : gmap string (gmap Z Definition_) :=
  match a with
  | Register n v d overwrite => register n v (flagged table major n v d) overwrite m
  | Skip | Raise _ => m
  end.

(** What both loaders do with a parsed name and the result of loading. *)
Definition registration (p : TeraProtocol) (pn : Filename.ParsedName)
  (loaded : string + option DefObject) : Action :=
  match loaded with
  | inl e => Raise (Thrown e)
  | inr None => Skip
  | inr (Some o) =>
      if applies p pn then
        match compiled_of o with
        | inr d => Register (Filename.name pn) (Filename.version pn) d (tagged pn)
        | inl _ => Skip
        end
      else Skip
  end.

(** The staleness test, read off [outdated]: a file is stale when its
    version is not 0 and lies below a number other than 0 that the table
    holds under its name. *)
Definition is_outdated (p : TeraProtocol) (pn : Filename.ParsedName)
  : Outcome bool :=
  if Filename.version pn =? 0 then Ok false
  else match lowestDefaultDefVersions p with
       | None => Throw TypeError
       | Some lowest =>
           match lowest !! Filename.name pn with
           | Some (Js.Int l) => Ok (negb (l =? 0) && (Filename.version pn <? l))
           | Some Js.NaN | None => Ok false
           end
       end.

Definition custom_action (p : TeraProtocol) (defPath file : string) : Action :=
  match Filename.match_filename (Filename.basename file) with
  | None => Skip
  | Some pn =>
      match is_outdated p pn with
      | Throw e => Raise e
      | Ok true => Skip
      | Ok false =>
          registration p pn
            (match Filename.type pn with
             | Filename.js => require (path_join defPath file)
             | Filename.def => defParser (path_join defPath file) None
             end)
      end
  end.

Definition default_action (p : TeraProtocol) (e : string * string) : Action :=
  match Filename.match_filename (Filename.basename e.1) with
  | None => Raise TypeError
  | Some pn =>
      registration p pn
        (match Filename.type pn with
         | Filename.js => requireStr (base64_decode e.2) e.1
         | Filename.def => defParser e.1 (Some (base64_decode e.2))
         end)
  end.

Definition outcome_of (a : Action) : Outcome unit :=
  match a with
  | Raise e => Throw e
  | Skip | Register _ _ _ _ => Ok tt
  end.

(** A loop body does what an action says: the heap is untouched, the engine
    changes in its registry only, as the action prescribes, and the body
    throws exactly when the action raises. *)
Definition performs (table : gmap string (gmap Z DeprecationEntry))
  (a : Action) (w : World) (r : World * Outcome unit) : Prop :=
  exists c,
    r = (mkWorld
           (set_messages
              (apply_action table (majorPatchVersion (this w))
                 (messages (this w)) a) (this w))
           (heap w) c, outcome_of a).

(** The body of the [forEach] on the table itself.  A name that
    [Object.prototype] has and the table does not own yet reads as a
    function: the minimum of a function and a version is [NaN]. *)
Definition lowest_step (lowest : gmap string Js.Cell)
  (def : Filename.ParsedName) : gmap string Js.Cell :=
  match lowest !! Filename.name def with
  | Some (Js.Int l) =>
      if negb (l =? 0)
      then Js.object_set lowest (Filename.name def)
             (Js.Int (Z.min l (Filename.version def)))
      else Js.object_set lowest (Filename.name def)
             (Js.Int (Filename.version def))
  | Some Js.NaN =>
      Js.object_set lowest (Filename.name def) (Js.Int (Filename.version def))
  | None =>
      if bool_decide (Filename.name def ∈ Js.Object_prototype)
      then Js.object_set lowest (Filename.name def) Js.NaN
      else Js.object_set lowest (Filename.name def)
             (Js.Int (Filename.version def))
  end.

Definition lowest_versions (defs : list Filename.ParsedName)
  : gmap string Js.Cell :=
  foldl lowest_step ∅ defs.

(** The reading of the specification: [m] is the minimum version among the
    bundle entries of name [n]. *)
Definition is_lowest_default (defs : list Filename.ParsedName) (n : string)
  (m : Z) : Prop :=
  (exists d, d ∈ defs /\ Filename.name d = n /\ Filename.version d = m)
  /\ forall d, d ∈ defs -> Filename.name d = n -> m <= Filename.version d.

(** The engine after the preparations of [loadDefaultBundle], before the
    loop over the entries. *)
Definition prepared (data : Bundle) (defs : list Filename.ParsedName)
  (p : TeraProtocol) : TeraProtocol :=
  set_messages ∅
    (set_defaultDefinitions
       (list_to_set
          ((fun d => (Filename.name d, Filename.version d)) <$> defs))
       (set_deprecationData (default ∅ (b_deprecated data))
          (set_lowestDefaultDefVersions (lowest_versions defs) p))).

(** A registration under a platform tag, for a name and a version. *)
Definition tagged_for (n : string) (v : Z) (a : Action) : Prop :=
  exists d, a = Register n v d true.

(** A registration of the object [i] for another slot than that of [n]
    and [v]: it writes the flags of that other slot into the object. *)
Definition hands_in (i : positive) (n : string) (v : Z) (a : Action) : Prop :=
  exists n' v' d overwrite,
    a = Register n' v' d overwrite /\ ident d = i /\ ~ (n' = n /\ v' = v).

(** Where the flags of an entry come from: [d] has the flags that some
    action of [all] writes into the object. *)
Definition flags_from (table : gmap string (gmap Z DeprecationEntry))
  (major : Z) (all : list Action) (d : Definition_) : Prop :=
  exists n v d0 o,
    Register n v d0 o ∈ all /\ ident d0 = ident d
    /\ readable d = readable (flagged table major n v d0)
    /\ writeable d = writeable (flagged table major n v d0).

(** A computation moves the world along a relation, whether it returns or
    throws. *)
Definition moves_by (R : World -> World -> Prop) {A} (m : M A) : Prop :=
  forall w, R w (m w).1.

(** The loaders leave the heap and the buffers of the engine alone. *)
Definition same_buffers (w w' : World) : Prop :=
  heap w' = heap w
  /\ readBuffer (this w') = readBuffer (this w)
  /\ readViews (this w') = readViews (this w)
  /\ writeBuffer (this w') = writeBuffer (this w)
  /\ writeView (this w') = writeView (this w).

(** Every entry of the registry is an entry it had before, or one that may
    be read whenever it may be written. *)
Definition sound_entries (w w' : World) : Prop :=
  forall n v d,
    registered (this w') n v = Some d ->
    registered (this w) n v = Some d
    \/ (writeable d = true -> readable d = true).

(** Whatever the registry holds may be read whenever it may be written. *)
Definition flags_sound (p : TeraProtocol) : Prop :=
  forall n v d,
    registered p n v = Some d -> writeable d = true -> readable d = true.

(** The identity a bundle key or a file name parses to. *)
Definition identity_of (file : string) : option Filename.ParsedName :=
  Filename.match_filename (Filename.basename file).

(** The settings an engine is constructed with. *)
Definition same_settings (w w' : World) : Prop :=
  region (this w') = region (this w)
  /\ majorPatchVersion (this w') = majorPatchVersion (this w)
  /\ minorPatchVersion (this w') = minorPatchVersion (this w)
  /\ platform (this w') = platform (this w)
  /\ protocolMap (this w') = protocolMap (this w).

(** What loading leaves alone: the heap with the scratch regions, and the
    settings. *)
Definition same_fixture (w w' : World) : Prop :=
  same_buffers w w' /\ same_settings w w'.

(** Every block of a heap but one is found unchanged in another heap. *)
Definition untouched_but (x : positive) (h h' : Buffer.Heap) : Prop :=
  forall b, b <> x -> is_Some (h !! b) -> h' !! b = h !! b.

(** ** Lemmas *)

(** *** File names *)

(** [match_filename] accepts the strings of the regular expression, with the
    groups it captures. *)
Lemma all_chars_impl (p q : ascii -> bool) s :
  (forall c, p c = true -> q c = true) ->
  Filename.all_chars p s = true -> Filename.all_chars q s = true.
Proof.
  intros Hpq. induction s as [|c s IH]; cbn; [reflexivity|].
  rewrite !andb_true_iff. intros [Hc Hs]. split; [apply Hpq, Hc|apply IH, Hs].
Qed.

Lemma is_word_not_dot c :
  Filename.is_word c = true -> negb (Ascii.eqb c Filename.dot) = true.
Proof.
  intros Hw. destruct (Ascii.eqb_spec c Filename.dot) as [->|]; [|reflexivity].
  vm_compute in Hw. discriminate.
Qed.

Lemma is_digit_word c : Filename.is_digit c = true -> Filename.is_word c = true.
Proof. intros H. unfold Filename.is_word. rewrite H. reflexivity. Qed.

Lemma word_plus_dot_free s :
  Filename.word_plus s = true -> Filename.dot_free s = true.
Proof.
  unfold Filename.word_plus. rewrite andb_true_iff. intros [_ H].
  exact (all_chars_impl _ _ s is_word_not_dot H).
Qed.

Lemma digit_plus_dot_free s :
  Filename.digit_plus s = true -> Filename.dot_free s = true.
Proof.
  unfold Filename.digit_plus. rewrite andb_true_iff. intros [_ H].
  apply (all_chars_impl Filename.is_digit); [|exact H].
  intros c Hc. apply is_word_not_dot, is_digit_word, Hc.
Qed.

Lemma DefType_of_cases e t :
  Filename.DefType_of e = Some t -> e = "def" \/ e = "js".
Proof.
  unfold Filename.DefType_of.
  destruct (String.eqb_spec e "def") as [->|_]; [left; reflexivity|].
  destruct (String.eqb_spec e "js") as [->|_]; [right; reflexivity|].
  discriminate.
Qed.

Lemma DefType_of_dot_free e t :
  Filename.DefType_of e = Some t -> Filename.dot_free e = true.
Proof.
  intros H. destruct (DefType_of_cases e t H) as [->| ->]; reflexivity.
Qed.

Lemma fields_nonempty sep s : Filename.fields sep s <> [].
Proof.
  destruct s as [|c s]; cbn; [discriminate|].
  destruct (Ascii.eqb c sep); [discriminate|].
  destruct (Filename.fields sep s); discriminate.
Qed.

Lemma fields_dot_free f :
  Filename.dot_free f = true -> Filename.fields Filename.dot f = [f].
Proof.
  induction f as [|c f IH]; cbn; [reflexivity|].
  rewrite andb_true_iff, negb_true_iff. intros [-> Hf].
  rewrite (IH Hf). reflexivity.
Qed.

Lemma fields_cons f rest :
  Filename.dot_free f = true ->
  Filename.fields Filename.dot (f +:+ String Filename.dot rest)
  = f :: Filename.fields Filename.dot rest.
Proof.
  induction f as [|c f IH]; cbn [Filename.dot_free Filename.all_chars].
  - reflexivity.
  - rewrite andb_true_iff, negb_true_iff. intros [Hc Hf].
    change (String c f +:+ String Filename.dot rest)
      with (String c (f +:+ String Filename.dot rest)).
    cbn [Filename.fields]. rewrite Hc, (IH Hf). reflexivity.
Qed.

Lemma fields_one s f : Filename.fields Filename.dot s = [f] -> s = f.
Proof.
  revert f. induction s as [|c s IH]; cbn; intros f.
  - intros [= <-]. reflexivity.
  - destruct (Ascii.eqb c Filename.dot).
    + intros [= _ H]. destruct (fields_nonempty _ _ H).
    + destruct (Filename.fields Filename.dot s) as [|g gs] eqn:Hs.
      * destruct (fields_nonempty _ _ Hs).
      * intros [= <- ->]. rewrite (IH g eq_refl). reflexivity.
Qed.

Lemma fields_uncons s f g gs :
  Filename.fields Filename.dot s = f :: g :: gs ->
  exists rest,
    s = f +:+ String Filename.dot rest
    /\ Filename.fields Filename.dot rest = g :: gs.
Proof.
  revert f. induction s as [|c s IH]; cbn; intros f.
  - discriminate.
  - destruct (Ascii.eqb_spec c Filename.dot) as [->|_].
    + intros [= <- H]. exists s. split; [reflexivity|exact H].
    + destruct (Filename.fields Filename.dot s) as [|f' fs] eqn:Hs;
        [discriminate|].
      intros [= <- ->]. destruct (IH f' eq_refl) as (rest & -> & Hrest).
      exists rest. split; [reflexivity|exact Hrest].
Qed.

Lemma match_filename_regex base pn :
  Filename.match_filename base = Some pn <-> Filename.filename_regex base pn.
Proof.
  split.
  - unfold Filename.match_filename.
    destruct (Filename.fields Filename.dot base)
      as [|n [|v [|e [|e' [|x l]]]]] eqn:Hf;
      try discriminate.
    + destruct (Filename.word_plus n) eqn:Hn; [|discriminate].
      destruct (Filename.digit_plus v) eqn:Hv; [|discriminate]. cbn [andb].
      destruct (Filename.DefType_of e) as [t|] eqn:He; [|discriminate].
      intros [= <-].
      destruct (fields_uncons _ _ _ _ Hf) as (r1 & -> & Hf1).
      destruct (fields_uncons _ _ _ _ Hf1) as (r2 & -> & Hf2).
      rewrite (fields_one _ _ Hf2).
      exact (Filename.regex_plain n v e t Hn Hv He).
    + destruct (Filename.word_plus n) eqn:Hn; [|discriminate].
      destruct (Filename.digit_plus v) eqn:Hv; [|discriminate].
      destruct (Filename.word_plus e) eqn:Hp; [|discriminate]. cbn [andb].
      destruct (Filename.DefType_of e') as [t|] eqn:He; [|discriminate].
      intros [= <-].
      destruct (fields_uncons _ _ _ _ Hf) as (r1 & -> & Hf1).
      destruct (fields_uncons _ _ _ _ Hf1) as (r2 & -> & Hf2).
      destruct (fields_uncons _ _ _ _ Hf2) as (r3 & -> & Hf3).
      rewrite (fields_one _ _ Hf3).
      exact (Filename.regex_platform n v e e' t Hn Hv Hp He).
  - intros [n v e t Hn Hv He|n v p e t Hn Hv Hp He];
      unfold Filename.match_filename.
    + change ("." +:+ v +:+ "." +:+ e)
        with (String Filename.dot (v +:+ String Filename.dot e)).
      rewrite (fields_cons n) by (apply word_plus_dot_free, Hn).
      rewrite (fields_cons v) by (apply digit_plus_dot_free, Hv).
      rewrite (fields_dot_free e) by (apply (DefType_of_dot_free e t), He).
      rewrite Hn, Hv, He. reflexivity.
    + change ("." +:+ v +:+ "." +:+ p +:+ "." +:+ e)
        with (String Filename.dot
                (v +:+ String Filename.dot (p +:+ String Filename.dot e))).
      rewrite (fields_cons n) by (apply word_plus_dot_free, Hn).
      rewrite (fields_cons v) by (apply digit_plus_dot_free, Hv).
      rewrite (fields_cons p) by (apply word_plus_dot_free, Hp).
      rewrite (fields_dot_free e) by (apply (DefType_of_dot_free e t), He).
      rewrite Hn, Hv, Hp, He. reflexivity.
Qed.

(** *** Deprecation flags *)

Lemma no_bound_admits_test major e :
  (negb (Js.truthy_prop (d_min e)) || prop_gt (d_min e) major)
  && (negb (Js.truthy_prop (d_max e)) || prop_lt (d_max e) major) = true
  <-> no_bound_admits major e.
Proof.
  unfold no_bound_admits, Js.truthy_prop, prop_gt, prop_lt.
  destruct (d_min e) as [a|], (d_max e) as [b|]; simpl;
    rewrite ?andb_true_iff, ?orb_true_iff, ?negb_true_iff, ?negb_false_iff,
      ?Z.eqb_eq, ?Z.ltb_lt;
    split; intros H; repeat split; try tauto;
    try (intros m Hm Hne; injection Hm as <-; lia);
    try discriminate.
  - destruct (decide (a = 0)); [tauto|right; apply H; auto].
  - destruct (decide (b = 0)); [tauto|right; apply H; auto].
  - destruct (decide (a = 0)); [tauto|right; apply H; auto].
  - destruct (decide (b = 0)); [tauto|right; apply H; auto].
Qed.

(** *** Resolution *)

Lemma Math_max_nil (xs : list Z) : Js.Math_max xs = Js.NegInfinity <-> xs = [].
Proof.
  destruct xs as [|x xs]; simpl; [tauto|].
  destruct (Js.Math_max xs); split; discriminate.
Qed.

Lemma Math_max_upper (xs : list Z) (m : Z) :
  Js.Math_max xs = Js.Num m -> m ∈ xs /\ forall x, x ∈ xs -> x <= m.
Proof.
  revert m. induction xs as [|x xs IH]; simpl; intros m; [discriminate|].
  destruct (Js.Math_max xs) as [|y] eqn:Hy.
  - apply Math_max_nil in Hy as ->. intros [= <-]. split; [left|].
    intros z Hz. apply list_elem_of_singleton in Hz. lia.
  - intros [= <-]. destruct (IH y eq_refl) as [Hin Hle]. split.
    + destruct (Z.max_spec x y) as [[_ ->]|[_ ->]]; [right; exact Hin|left].
    + intros z Hz. apply elem_of_cons in Hz as [->|Hz]; [lia|].
      specialize (Hle z Hz). lia.
Qed.

Lemma latest_of_max_key (vs : gmap Z Definition_) (l : Z) :
  is_max_key vs l -> Js.Math_max (elements (dom vs)) = Js.Num l.
Proof.
  intros [Hl Hmax].
  destruct (Js.Math_max (elements (dom vs))) as [|m] eqn:Hm.
  - apply Math_max_nil in Hm. apply elem_of_dom, elem_of_elements in Hl.
    rewrite Hm in Hl. inversion Hl.
  - apply Math_max_upper in Hm as [Hin Hle]. f_equal.
    apply elem_of_elements, elem_of_dom in Hin.
    apply elem_of_dom, elem_of_elements in Hl.
    specialize (Hle l Hl). specialize (Hmax m Hin). lia.
Qed.

Lemma max_key_of_latest (vs : gmap Z Definition_) (m : Z) :
  Js.Math_max (elements (dom vs)) = Js.Num m -> is_max_key vs m.
Proof.
  intros Hm. apply Math_max_upper in Hm as [Hin Hle]. split.
  - apply elem_of_dom, elem_of_elements, Hin.
  - intros k Hk. apply Hle, elem_of_elements, elem_of_dom, Hk.
Qed.

Lemma latest_of_empty (vs : gmap Z Definition_) :
  Js.Math_max (elements (dom vs)) = Js.NegInfinity <-> vs = ∅.
Proof.
  rewrite Math_max_nil. rewrite elements_empty_iff.
  split; [intros H; apply dom_empty_iff_L; apply leibniz_equiv, H|].
  intros ->. rewrite dom_empty_L. reflexivity.
Qed.

Lemma max_key_exists (vs : gmap Z Definition_) (k : Z) (d : Definition_) :
  vs !! k = Some d -> exists l, is_max_key vs l.
Proof.
  intros Hk. destruct (Js.Math_max (elements (dom vs))) as [|m] eqn:Hm.
  - apply latest_of_empty in Hm. subst vs. rewrite lookup_empty in Hk.
    discriminate.
  - exists m. apply max_key_of_latest, Hm.
Qed.

Lemma resolveIdentifier_named p identifier request n c :
  names p identifier n c ->
  resolveIdentifier p identifier request =
    let versions := messages p !! n in
    let latest_version :=
      (fun vs : gmap Z Definition_ => Js.Math_max (elements (dom vs)))
        <$> versions in
    let version :=
      (fun latest => match request with
                     | Latest => latest
                     | Exact v => Js.Num v
                     end) <$> latest_version in
    match (vs ← versions; v ← version;
           match v with Js.Num z => vs !! z | Js.NegInfinity => None end) with
    | None =>
        if var_truthy latest_version && var_truthy version
           && var_lt version latest_version
        then Throw Outdated else Throw (NotFound NoDefinition)
    | Some d => Ok (mkResolvedIdentifier n c version latest_version d)
    end.
Proof.
  unfold names, resolveIdentifier.
  destruct identifier as [s|z|]; [intros [-> ->]|intros [-> ->]|intros []];
    reflexivity.
Qed.

(** *** Bytes, blocks and views *)

Lemma Z_of_byte_of_Z (z : Z) :
  Buffer.Z_of_byte (Buffer.byte_of_Z z) = z mod 256.
Proof.
  unfold Buffer.Z_of_byte, Buffer.byte_of_Z.
  pose proof (Z.mod_pos_bound z 256 eq_refl) as Hb.
  destruct (Byte.of_N (Z.to_N (z mod 256))) as [b|] eqn:E; simpl.
  - apply Byte.to_of_N in E. rewrite E. lia.
  - apply Byte.of_N_None_iff in E. lia.
Qed.

Lemma read_uint16_le_spec (v : Z) (rest : list Buffer.byte) :
  Buffer.read_uint16_le (Buffer.uint16_le v ++ rest) = Some (v mod 0x10000).
Proof.
  unfold Buffer.uint16_le. simpl. rewrite !Z_of_byte_of_Z. f_equal.
  change 0x10000 with (256 * 256). rewrite Z.rem_mul_r by lia. reflexivity.
Qed.

Lemma contents_insert_eq (h : Buffer.Heap) (b : positive)
  (bs : list Buffer.byte) :
  Buffer.contents (<[b := bs]> h) b = bs.
Proof. unfold Buffer.contents. rewrite lookup_insert_eq. reflexivity. Qed.

Lemma contents_insert_ne (h : Buffer.Heap) (b b' : positive)
  (bs : list Buffer.byte) :
  b <> b' -> Buffer.contents (<[b := bs]> h) b' = Buffer.contents h b'.
Proof.
  intros Hne. unfold Buffer.contents. rewrite lookup_insert_ne by exact Hne.
  reflexivity.
Qed.

Lemma allocUnsafe_ok (u : positive -> Z -> Buffer.byte) (h : Buffer.Heap)
  (size : Z) :
  0 <= size ->
  Buffer.allocUnsafe u h size
  = Ok (fresh (dom h), <[fresh (dom h) := u (fresh (dom h)) <$> seqZ 0 size]> h).
Proof.
  intros Hs. unfold Buffer.allocUnsafe.
  destruct (Z.ltb_spec size 0); [lia|reflexivity].
Qed.

Lemma fresh_block (h : Buffer.Heap) : h !! fresh (dom h) = None.
Proof. apply not_elem_of_dom, is_fresh. Qed.

Lemma fresh_block_ne (h : Buffer.Heap) (b : positive) :
  is_Some (h !! b) -> fresh (dom h) <> b.
Proof.
  intros Hb Heq. rewrite <- Heq, fresh_block in Hb. destruct Hb; discriminate.
Qed.

Lemma length_some (h : Buffer.Heap) (b : positive) :
  0 < Buffer.length h b -> is_Some (h !! b).
Proof.
  unfold Buffer.length, Buffer.contents.
  destruct (h !! b); simpl; [eauto|lia].
Qed.

Lemma copy_bytes_from_start (source target : list Buffer.byte) (n : Z) :
  Buffer.copy_bytes source target 0 0 n
  = take (Z.to_nat (Z.min (Z.min n (Z.of_nat (List.length target)))
                          (Z.of_nat (List.length source)))) source
    ++ drop (Z.to_nat (Z.min (Z.min n (Z.of_nat (List.length target)))
                             (Z.of_nat (List.length source)))) target.
Proof.
  unfold Buffer.copy_bytes. rewrite !Z.sub_0_r.
  set (nb := Z.min _ _).
  destruct (Z.leb_spec nb 0).
  - replace (Z.to_nat nb) with 0%nat by lia. reflexivity.
  - simpl. reflexivity.
Qed.

Lemma copy_from_start (h : Buffer.Heap) (source target : positive) (n : Z) :
  0 <= n ->
  Buffer.copy h source target 0 0 n
  = Ok (<[target := Buffer.copy_bytes (Buffer.contents h source)
                      (Buffer.contents h target) 0 0 n]> h).
Proof.
  intros Hn. unfold Buffer.copy. simpl.
  destruct (Z.ltb_spec n 0); [lia|].
  destruct (Z.ltb_spec (Buffer.length h source) 0);
    [unfold Buffer.length in *; lia|reflexivity].
Qed.

Lemma setUint16_le_ok (h : Buffer.Heap) (v : Buffer.DataView) (pos value : Z) :
  0 <= pos -> pos + 2 <= Buffer.byteLength v ->
  Buffer.setUint16_le h v pos value
  = Ok (<[Buffer.buffer v :=
           Buffer.splice (Buffer.byteOffset v + pos) (Buffer.uint16_le value)
             (Buffer.contents h (Buffer.buffer v))]> h).
Proof.
  intros H0 H2. unfold Buffer.setUint16_le.
  destruct (Z.ltb_spec pos 0); [lia|].
  destruct (Z.ltb_spec (Buffer.byteLength v) (pos + 2)); [lia|reflexivity].
Qed.

Lemma new_DataView_ok (h : Buffer.Heap) (b : positive) (off len : Z) :
  0 <= off -> 0 <= len -> off + len <= Buffer.length h b ->
  Buffer.new_DataView h b off len = Ok (Buffer.mkDataView b off len).
Proof.
  intros H0 H1 H2. unfold Buffer.new_DataView.
  destruct (Z.ltb_spec off 0); [lia|].
  destruct (Z.ltb_spec len 0); [lia|].
  destruct (Z.ltb_spec (Buffer.length h b) (off + len)); [lia|reflexivity].
Qed.

Lemma length_splice (at_ : Z) (bs block : list Buffer.byte) :
  (Z.to_nat at_ + List.length bs <= List.length block)%nat ->
  List.length (Buffer.splice at_ bs block) = List.length block.
Proof.
  intros H. unfold Buffer.splice.
  rewrite !length_app, length_take, length_drop. lia.
Qed.

Lemma for_of_app {S A} (xs ys : list A) (body : A -> S -> Outcome S) (s : S) :
  for_of (xs ++ ys) body s = (s' ← for_of xs body s; for_of ys body s').
Proof.
  revert s. induction xs as [|x xs IH]; intros s; [reflexivity|].
  cbn [for_of app]. destruct (body x s) as [s1|e]; [apply IH|reflexivity].
Qed.

Lemma fill_readViews (h : Buffer.Heap) (rb : positive) (k : nat)
  (a : Js.Array Buffer.DataView) :
  Z.of_nat k <= Buffer.length h rb + 1 ->
  0 <= Js.arr_length a ->
  exists a',
    for_of (seqZ 0 (Z.of_nat k))
      (fun i views =>
         view ← Buffer.new_DataView h rb 0 i; Ok (Js.array_set views i view)) a
    = Ok a'
    /\ (forall i, Js.array_get a' i
                  = if (0 <=? i) && (i <? Z.of_nat k)
                    then Some (Buffer.mkDataView rb 0 i) else Js.array_get a i)
    /\ Js.arr_length a' = Z.max (Js.arr_length a) (Z.of_nat k).
Proof.
  intros Hk Ha. induction k as [|k IH].
  - exists a. split; [reflexivity|]. split; [|lia].
    intros i. destruct (Z.leb_spec 0 i), (Z.ltb_spec i (Z.of_nat 0));
      try reflexivity; lia.
  - destruct IH as (a1 & Hrun & Hget & Hlen); [lia|].
    rewrite seqZ_S, for_of_app, Hrun. cbn [mbind Outcome_bind for_of].
    rewrite new_DataView_ok by lia. cbn [mbind Outcome_bind].
    eexists. split; [reflexivity|]. split.
    + intros i. unfold Js.array_get, Js.array_set. cbn [Js.arr_items].
      destruct (decide (0 + Z.of_nat k = i)) as [<-|Hne].
      * rewrite lookup_insert_eq.
        destruct (Z.leb_spec 0 (0 + Z.of_nat k)),
                 (Z.ltb_spec (0 + Z.of_nat k) (Z.of_nat (S k)));
          try reflexivity; lia.
      * rewrite lookup_insert_ne by exact Hne.
        fold (Js.array_get a1 i). rewrite Hget.
        destruct (Z.leb_spec 0 i), (Z.ltb_spec i (Z.of_nat k)),
                 (Z.ltb_spec i (Z.of_nat (S k))); try reflexivity; lia.
    + unfold Js.array_set. cbn [Js.arr_length]. lia.
Qed.

Lemma length_alloc (u : positive -> Z -> Buffer.byte) (h : Buffer.Heap)
  (b : positive) (size : Z) :
  0 <= size -> Buffer.length (<[b := u b <$> seqZ 0 size]> h) b = size.
Proof.
  intros Hs. unfold Buffer.length. rewrite contents_insert_eq.
  rewrite length_fmap, length_seqZ. lia.
Qed.

Lemma length_insert_ne (h : Buffer.Heap) (b b' : positive)
  (bs : list Buffer.byte) :
  b <> b' -> Buffer.length (<[b := bs]> h) b' = Buffer.length h b'.
Proof.
  intros Hne. unfold Buffer.length. rewrite contents_insert_ne by exact Hne.
  reflexivity.
Qed.

(** The constructor returns on every valid platform tag (on none, which
    stands for "pc"): an engine with an empty registry, no table loaded yet,
    and the scratch regions in order. *)
Lemma constructor_ok (reg : string) (major minor : Z) (pm : ProtocolMap)
  (tag : option string) (h : Buffer.Heap) :
  default "pc" tag ∈ PLATFORMS ->
  exists rb views wb h',
    constructor reg major minor pm tag h
    = Ok (mkTeraProtocol reg major minor (default "pc" tag) pm ∅ rb views wb
            (Buffer.mkDataView wb 0 0x10000) false None None None, h')
    /\ scratch_ok
         (mkTeraProtocol reg major minor (default "pc" tag) pm ∅ rb views wb
            (Buffer.mkDataView wb 0 0x10000) false None None None) h'
    /\ Js.arr_length views = 0x10001.
Proof.
  intros Htag. unfold constructor.
  rewrite bool_decide_eq_true_2 by exact Htag. cbn [negb].
  rewrite allocUnsafe_ok by lia. cbn [mbind Outcome_bind].
  set (rb := fresh (dom h)).
  set (h1 := <[rb := uninit rb <$> seqZ 0 0x10000]> h).
  assert (Hrb : Buffer.length h1 rb = 0x10000) by (apply length_alloc; lia).
  unfold for_le.
  replace (0x10000 - 0 + 1) with (Z.of_nat (Z.to_nat 0x10001)) by lia.
  destruct (fill_readViews h1 rb (Z.to_nat 0x10001) (Js.new_Array 0x10000))
    as (views & Hrun & Hget & Hlen); [lia|cbn; lia|].
  rewrite Hrun. cbn [mbind Outcome_bind].
  rewrite allocUnsafe_ok by lia. cbn [mbind Outcome_bind].
  set (wb := fresh (dom h1)).
  assert (Hne : wb <> rb).
  { apply fresh_block_ne. unfold h1. rewrite lookup_insert_eq. eauto. }
  rewrite new_DataView_ok; [|lia|lia|rewrite length_alloc; lia].
  cbn [mbind Outcome_bind].
  eexists rb, views, wb, _. split; [reflexivity|].
  split; [|rewrite Hlen; cbn; lia].
  unfold scratch_ok. cbn [readBuffer writeBuffer writeView readViews].
  split; [congruence|]. split; [rewrite length_insert_ne; auto|].
  split; [apply length_alloc; lia|]. split; [reflexivity|].
  intros i. rewrite Hget. unfold Js.array_get, Js.new_Array. cbn [Js.arr_items].
  rewrite lookup_empty.
  destruct (Z.leb_spec 0 i), (Z.ltb_spec i (Z.of_nat (Z.to_nat 0x10001))),
           (Z.leb_spec i 0x10000); try reflexivity; lia.
Qed.

(** What [parse] does once the definition is readable. *)
Lemma parse_runs (r : ResolvedIdentifier) (buffer : positive) (w : World) :
  scratch_ok (this w) (heap w) ->
  readable (definition r) = true ->
  let input := Buffer.contents (heap w) buffer in
  let n := Z.to_nat (Z.min (Z.of_nat (List.length input)) 0x10000) in
  let h' :=
    <[readBuffer (this w) :=
        take n input ++ drop n (Buffer.contents (heap w) (readBuffer (this w)))]>
      (heap w) in
  parse r buffer w
  = (mkWorld (this w) h' (console w),
     of_call (reader (definition r)
                (Buffer.view_bytes h'
                   <$> Js.array_get (readViews (this w))
                         (Z.of_nat (List.length input))))).
Proof.
  intros (Hne & Hrb & Hwb & Hwv & Hviews) Hr input n h'.
  unfold parse. rewrite Hr. cbn [negb].
  unfold mbind, M_bind, get_this, get_heap, put_heap, lift. cbn [this heap console].
  rewrite copy_from_start by (unfold Buffer.length; lia).
  rewrite copy_bytes_from_start.
  fold input. unfold Buffer.length in Hrb.
  change (Buffer.length (heap w) buffer) with (Z.of_nat (List.length input)).
  rewrite Hrb.
  replace (Z.min (Z.min (Z.of_nat (List.length input)) 0x10000)
                 (Z.of_nat (List.length input)))
    with (Z.min (Z.of_nat (List.length input)) 0x10000) by lia.
  fold n. fold h'.
  assert (Hlen : Buffer.length h' buffer = Z.of_nat (List.length input)).
  { unfold Buffer.length, h'.
    destruct (decide (readBuffer (this w) = buffer)) as [Heq|Hneq].
    - rewrite <- Heq, contents_insert_eq. unfold input. rewrite <- Heq.
      rewrite take_drop. reflexivity.
    - rewrite contents_insert_ne by exact Hneq. reflexivity. }
  rewrite Hlen. reflexivity.
Qed.

(** The two cases of the view lookup in [parse]. *)
Lemma parse_cases (r : ResolvedIdentifier) (buffer : positive) (w : World) :
    scratch_ok (this w) (heap w) ->
    readable (definition r) = true ->
    let input := Buffer.contents (heap w) buffer in
    let size := Z.of_nat (List.length input) in
    exists h',
      (parse r buffer w).1 = mkWorld (this w) h' (console w)
      /\ Buffer.length h' (readBuffer (this w)) = 0x10000
      /\ (size <= 0x10000 ->
          Js.array_get (readViews (this w)) size
          = Some (Buffer.mkDataView (readBuffer (this w)) 0 size)
          /\ Buffer.view_bytes h'
               (Buffer.mkDataView (readBuffer (this w)) 0 size) = input
          /\ (parse r buffer w).2
             = of_call (reader (definition r) (Some input)))
      /\ (0x10000 < size ->
          Js.array_get (readViews (this w)) size = None
          /\ Buffer.contents h' (readBuffer (this w))
             = take (Z.to_nat 0x10000) input
          /\ Buffer.contents h' (readBuffer (this w)) <> input
          /\ (parse r buffer w).2
             = of_call (reader (definition r) None)).
Proof.
  intros Hs Hr input size.
  pose proof (parse_runs r buffer w Hs Hr) as Hrun.
  cbv zeta in Hrun. fold input in Hrun. fold size in Hrun.
  destruct Hs as (Hne & Hrb & Hwb & Hwv & Hviews).
  rewrite Hrun. cbn [fst snd].
  eexists. split; [reflexivity|].
  set (n := Z.to_nat (Z.min size 0x10000)).
  set (old := Buffer.contents (heap w) (readBuffer (this w))).
  assert (Hold : List.length old = Z.to_nat 0x10000)
    by (unfold Buffer.length in Hrb; fold old in Hrb; lia).
  split; [|split].
  - unfold Buffer.length. rewrite contents_insert_eq.
    rewrite length_app, length_take, length_drop. unfold size in n. lia.
  - intros Hsize. rewrite Hviews.
    destruct (Z.leb_spec 0 size), (Z.leb_spec size 0x10000);
      try (unfold size in *; lia).
    cbn [andb fmap option_fmap option_map].
    assert (Hview : Buffer.view_bytes
              (<[readBuffer (this w) := take n input ++ drop n old]> (heap w))
              (Buffer.mkDataView (readBuffer (this w)) 0 size) = input).
    { unfold Buffer.view_bytes. cbn [Buffer.byteLength Buffer.byteOffset Buffer.buffer].
      rewrite contents_insert_eq. change (Z.to_nat 0) with 0%nat.
      rewrite drop_0.
      replace n with (List.length input) by (unfold n, size; lia).
      rewrite (take_ge input) by lia.
      replace (Z.to_nat size) with (List.length input) by (unfold size; lia).
      apply take_app_length. }
    rewrite Hview. auto.
  - intros Hsize. rewrite Hviews.
    destruct (Z.leb_spec 0 size), (Z.leb_spec size 0x10000);
      try (unfold size in *; lia).
    cbn [andb fmap option_fmap option_map].
    rewrite contents_insert_eq.
    replace n with (Z.to_nat 0x10000) by (unfold n; lia).
    rewrite (drop_ge old) by lia. rewrite app_nil_r.
    repeat split; try reflexivity.
    intros Heq. apply (f_equal (@List.length _)) in Heq.
    rewrite length_take in Heq. unfold size in Hsize. lia.
Qed.

Lemma header_splice (bytes old : list Buffer.byte) (len c : Z) :
  List.length bytes = Z.to_nat 0x10000 ->
  List.length old = Z.to_nat 0x10000 ->
  Buffer.splice (0 + 2) (Buffer.uint16_le c)
    (Buffer.splice (0 + 0) (Buffer.uint16_le len) (Buffer.splice 0 bytes old))
  = Buffer.uint16_le len ++ Buffer.uint16_le c ++ drop 4 bytes.
Proof.
  intros Hb Ho. unfold Buffer.splice, Buffer.uint16_le.
  change (Z.to_nat 0) with 0%nat. change (Z.to_nat (0 + 0)) with 0%nat.
  change (Z.to_nat (0 + 2)) with 2%nat. cbn [List.length Nat.add].
  rewrite !take_0. cbn [app].
  rewrite (drop_ge old) by lia. rewrite app_nil_r.
  cbn [take drop app]. rewrite drop_drop. reflexivity.
Qed.

(** What [write] does once the definition is writeable and its writer
    returns an end offset within the view. *)
Lemma write_runs (r : ResolvedIdentifier) (data : option Obj) (w : World)
  (bytes : list Buffer.byte) (len : Z) :
  scratch_ok (this w) (heap w) ->
  writeable (definition r) = true ->
  writer (definition r) (Buffer.view_bytes (heap w) (writeView (this w)))
    (default emptyObj data) = (bytes, inr len) ->
  List.length bytes = Z.to_nat 0x10000 ->
  0 <= len <= 0x10000 ->
  let scratch :=
    Buffer.uint16_le len ++ Buffer.uint16_le (code r) ++ drop 4 bytes in
  let h1 := <[writeBuffer (this w) := scratch]> (heap w) in
  let result := fresh (dom h1) in
  write r data w
  = (mkWorld (this w) (<[result := take (Z.to_nat len) scratch]> h1) (console w),
     Ok result).
Proof.
  intros (Hne & Hrb & Hwb & Hwv & Hviews) Hw Hwriter Hbytes Hlen scratch h1 result.
  unfold write. rewrite Hw. cbn [negb].
  unfold mbind, M_bind, mret, M_ret, get_this, get_heap, put_heap, lift.
  cbn [this heap console]. rewrite Hwriter. cbn [fst snd of_call].
  rewrite Hwv.
  rewrite !setUint16_le_ok by (cbn; lia).
  cbn [Buffer.buffer Buffer.byteOffset Buffer.byteLength this heap console].
  unfold Buffer.set_view_bytes.
  cbn [Buffer.buffer Buffer.byteOffset Buffer.byteLength this heap console].
  rewrite !contents_insert_eq, !insert_insert_eq.
  rewrite header_splice; [|exact Hbytes|unfold Buffer.length in Hwb; lia].
  fold scratch. fold h1.
  rewrite allocUnsafe_ok by lia. fold result.
  cbn [this heap console].
  rewrite copy_from_start by lia. rewrite copy_bytes_from_start.
  assert (Hres : result <> writeBuffer (this w)).
  { apply fresh_block_ne. unfold h1. rewrite lookup_insert_eq. eauto. }
  rewrite contents_insert_eq.
  rewrite contents_insert_ne by exact Hres.
  assert (Hc : Buffer.contents h1 (writeBuffer (this w)) = scratch)
    by apply contents_insert_eq.
  rewrite !Hc, length_fmap, length_seqZ.
  assert (Hscratch : List.length scratch = Z.to_nat 0x10000).
  { unfold scratch, Buffer.uint16_le. cbn [List.length app].
    rewrite length_drop. lia. }
  rewrite Hscratch.
  replace (Z.to_nat (Z.min (Z.min len (Z.of_nat (Z.to_nat len)))
                           (Z.of_nat (Z.to_nat 0x10000))))
    with (Z.to_nat len) by lia.
  rewrite (drop_ge (uninit result <$> seqZ 0 len))
    by (rewrite length_fmap, length_seqZ; lia).
  rewrite app_nil_r, insert_insert_eq. reflexivity.
Qed.

(** *** The registry *)

Lemma assignDeprecationFlags_flagged p table n v d :
  deprecationData p = Some table ->
  _assignDeprecationFlags p n v d = Ok (flagged table (majorPatchVersion p) n v d).
Proof.
  intros Ht. unfold _assignDeprecationFlags, flagged, deprecation_entry.
  rewrite Ht. destruct (table !! n ≫= _) as [data|]; [|reflexivity].
  destruct (_ && _); reflexivity.
Qed.

Lemma ident_flagged table major n v d :
  ident (flagged table major n v d) = ident d.
Proof.
  unfold flagged. destruct (deprecation_entry table n v); [|reflexivity].
  destruct (_ && _); reflexivity.
Qed.

Lemma unflagged_flagged table major n v d :
  unflagged (flagged table major n v d) = unflagged d.
Proof.
  unfold flagged. destruct (deprecation_entry table n v); [|reflexivity].
  destruct (_ && _); reflexivity.
Qed.

Lemma unflagged_reflag i r w d : unflagged (reflag i r w d) = unflagged d.
Proof. unfold reflag. destruct (decide _); reflexivity. Qed.

Lemma reflag_other i r w d : ident d <> i -> reflag i r w d = d.
Proof. intros Hne. unfold reflag. rewrite decide_False by exact Hne. reflexivity. Qed.

Lemma reflag_reflag i r w r' w' d :
  reflag i r w (reflag i r' w' d) = reflag i r w d.
Proof.
  unfold reflag. destruct (decide (ident d = i)) as [Hi|Hi]; cbn.
  - rewrite decide_True by exact Hi. reflexivity.
  - rewrite decide_False by exact Hi. reflexivity.
Qed.

Lemma write_through_twice i r w r' w' m :
  write_through i r w (write_through i r' w' m) = write_through i r w m.
Proof.
  unfold write_through. rewrite <- map_fmap_compose.
  apply map_fmap_ext. intros n vs _. cbn. rewrite <- map_fmap_compose.
  apply map_fmap_ext. intros v d _. apply reflag_reflag.
Qed.

Lemma entry_write_through i r w m n v :
  entry (write_through i r w m) n v = reflag i r w <$> entry m n v.
Proof.
  unfold entry, write_through. rewrite lookup_fmap.
  destruct (m !! n) as [vs|]; cbn; [|reflexivity]. apply lookup_fmap.
Qed.

Lemma entry_store m n v d n' v' :
  entry (store n v d m) n' v'
  = if decide (n = n' /\ v = v') then Some d
    else reflag (ident d) (readable d) (writeable d) <$> entry m n' v'.
Proof.
  unfold store. cbv zeta.
  rewrite <- entry_write_through.
  set (seen := write_through _ _ _ m). unfold entry.
  destruct (decide (n = n')) as [<-|Hn].
  - rewrite lookup_insert_eq. cbn.
    destruct (decide (v = v')) as [<-|Hv].
    + rewrite lookup_insert_eq. rewrite decide_True by auto. reflexivity.
    + rewrite lookup_insert_ne by exact Hv.
      rewrite decide_False by (intros [_ ?]; contradiction).
      destruct (seen !! n); cbn; [reflexivity|apply lookup_empty].
  - rewrite lookup_insert_ne by exact Hn.
    rewrite decide_False by (intros [? _]; contradiction).
    reflexivity.
Qed.

(** The object a slot holds after a registration that goes through. *)
Lemma object_at_store m n v d n' v' :
  object_at (store n v d m) n' v'
  = if decide (n = n' /\ v = v') then Some (unflagged d)
    else object_at m n' v'.
Proof.
  unfold object_at. rewrite entry_store.
  destruct (decide _); [reflexivity|].
  destruct (entry m n' v'); cbn; [|reflexivity].
  rewrite unflagged_reflag. reflexivity.
Qed.

Lemma store_lookup m n v d :
  store n v d m !! n
  = Some (<[v := d]> (reflag (ident d) (readable d) (writeable d)
                        <$> default ∅ (m !! n))).
Proof.
  unfold store. cbv zeta. rewrite lookup_insert_eq. f_equal. f_equal.
  unfold write_through. rewrite lookup_fmap.
  destruct (m !! n); cbn; [reflexivity|]. rewrite fmap_empty. reflexivity.
Qed.

Lemma assignDeprecationFlags_ident p n v d fd :
  _assignDeprecationFlags p n v d = Ok fd -> ident fd = ident d.
Proof.
  unfold _assignDeprecationFlags.
  destruct (deprecationData p) as [table|]; [|discriminate].
  destruct (table !! n ≫= _) as [data|].
  - destruct (_ && _); intros [= <-]; reflexivity.
  - intros [= <-]. reflexivity.
Qed.

Lemma store_fresh_name m n v d :
  m !! n = None ->
  store n v d (<[n := ∅]> m) = store n v d m.
Proof.
  intros Hn. unfold store. cbv zeta.
  unfold write_through at 1 2. rewrite !fmap_insert, fmap_empty.
  fold (write_through (ident d) (readable d) (writeable d) m).
  rewrite lookup_insert_eq. cbn [default from_option id].
  rewrite insert_insert_eq.
  assert (Hnone : write_through (ident d) (readable d) (writeable d) m !! n
                  = None).
  { unfold write_through. rewrite lookup_fmap, Hn. reflexivity. }
  rewrite Hnone. reflexivity.
Qed.

Lemma entry_with_table m n n' v' : entry (with_table n m) n' v' = entry m n' v'.
Proof.
  unfold with_table. destruct (m !! n) eqn:Hn; [reflexivity|].
  unfold entry. destruct (decide (n = n')) as [<-|Hne].
  - rewrite lookup_insert_eq, Hn. cbn. apply lookup_empty.
  - rewrite lookup_insert_ne by exact Hne. reflexivity.
Qed.

(** [add_to_map] in one step.  The flags are written into the object before
    the deprecation table is read, so a call that throws there has made the
    object readable and writeable wherever it is registered. *)
Lemma add_to_map_runs n v d overwrite w :
  add_to_map n v d overwrite w
  = if overwrite || negb (bool_decide (is_Some (registered (this w) n v)))
    then match _assignDeprecationFlags (this w) n v d with
         | Ok fd =>
             (mkWorld (set_messages (store n v fd (messages (this w))) (this w))
                (heap w) (console w), Ok tt)
         | Throw e =>
             (mkWorld
                (set_messages
                   (write_through (ident d) true true
                      (with_table n (messages (this w)))) (this w))
                (heap w) (console w), Throw e)
         end
    else (w, Ok tt).
Proof.
  destruct w as [p h c]. cbn [this heap console].
  unfold add_to_map, mbind, M_bind, mret, M_ret, get_this, with_table.
  unfold registered, entry. cbn [this].
  assert (Hsame : forall m q, _assignDeprecationFlags (set_messages m q) n v d
                              = _assignDeprecationFlags q n v d)
    by reflexivity.
  assert (Hset : forall m m' q, set_messages m (set_messages m' q)
                                = set_messages m q) by reflexivity.
  assert (Hget : forall m q, messages (set_messages m q) = m) by reflexivity.
  destruct (messages p !! n) as [vs|] eqn:Hvs.
  - cbn [this]. rewrite Hvs. cbn [default from_option id mbind option_bind].
    destruct (overwrite || negb (bool_decide (is_Some (vs !! v))));
      [|reflexivity].
    unfold lift, modify_this. cbn [this heap console fst snd].
    rewrite Hsame.
    destruct (_assignDeprecationFlags p n v d) as [fd|e] eqn:Hfd;
      [|reflexivity].
    cbn [this heap console fst snd]. rewrite Hset, Hget.
    rewrite write_through_twice.
    rewrite <- (assignDeprecationFlags_ident _ _ _ _ _ Hfd).
    reflexivity.
  - unfold modify_this at 1. cbn [this heap console fst snd].
    rewrite Hget, lookup_insert_eq.
    cbn [default from_option id mbind option_bind].
    rewrite lookup_empty.
    rewrite !bool_decide_eq_false_2 by (intros [? ?]; discriminate).
    rewrite orb_true_r.
    unfold lift, modify_this. cbn [this heap console fst snd].
    rewrite !Hsame, !Hset, !Hget.
    destruct (_assignDeprecationFlags p n v d) as [fd|e] eqn:Hfd;
      [|reflexivity].
    cbn [this heap console fst snd]. rewrite !Hset.
    rewrite write_through_twice.
    rewrite <- (assignDeprecationFlags_ident _ _ _ _ _ Hfd).
    fold (store n v fd (<[n := ∅]> (messages p))).
    rewrite store_fresh_name by exact Hvs. reflexivity.
Qed.

Lemma addDefinition_compile_fails n v l e overwrite w :
  compile l = inl e ->
  addDefinition n v (Structural l) overwrite w
  = (mkWorld (this w) (heap w)
       ((console w ++ [(error, ErrorWhileCompiling n v)])
          ++ [(error, Exception e)]), Ok tt).
Proof.
  intros Hc. unfold addDefinition. rewrite Hc. reflexivity.
Qed.

Lemma addDefinition_compiled n v o d overwrite :
  compiled_of o = inr d ->
  addDefinition n v o overwrite = add_to_map n v d overwrite.
Proof.
  unfold addDefinition. destruct o as [d0|l]; cbn.
  - intros [= ->]. reflexivity.
  - intros ->. reflexivity.
Qed.

Lemma addDefinition_keeps n v o d old w :
  compiled_of o = inr d ->
  registered (this w) n v = Some old ->
  addDefinition n v o false w = (w, Ok tt).
Proof.
  intros Hc Hold. rewrite (addDefinition_compiled _ _ _ _ _ Hc).
  rewrite add_to_map_runs, Hold.
  rewrite bool_decide_eq_true_2 by eauto. reflexivity.
Qed.

Lemma addDefinition_stores n v o d overwrite table w :
  compiled_of o = inr d ->
  deprecationData (this w) = Some table ->
  overwrite = true \/ registered (this w) n v = None ->
  addDefinition n v o overwrite w
  = (mkWorld
       (set_messages
          (store n v (flagged table (majorPatchVersion (this w)) n v d)
             (messages (this w))) (this w))
       (heap w) (console w), Ok tt).
Proof.
  intros Hc Ht Hcase. rewrite (addDefinition_compiled _ _ _ _ _ Hc).
  rewrite add_to_map_runs.
  rewrite (assignDeprecationFlags_flagged _ table) by exact Ht.
  destruct Hcase as [->|Hnone]; [reflexivity|].
  rewrite Hnone, bool_decide_eq_false_2 by (intros [? ?]; discriminate).
  rewrite orb_true_r. reflexivity.
Qed.

(** *** What the loaders do with one file *)

Lemma set_messages_id p : set_messages (messages p) p = p.
Proof. destruct p. reflexivity. Qed.

Lemma performs_nothing table a p h c c' :
  apply_action table (majorPatchVersion p) (messages p) a = messages p ->
  performs table a (mkWorld p h c) (mkWorld p h c', outcome_of a).
Proof.
  intros Heq. exists c'. cbn. rewrite Heq, set_messages_id. reflexivity.
Qed.

Lemma parseDefinitionFilename_runs file w :
  exists c,
    parseDefinitionFilename file w
    = (mkWorld (this w) (heap w) c,
       Ok (Filename.match_filename (Filename.basename file))).
Proof.
  unfold parseDefinitionFilename.
  destruct (Filename.match_filename _); [exists (console w); destruct w; reflexivity|].
  destruct (_ || _); eexists; reflexivity.
Qed.

(** The part the two loop bodies share. *)
Lemma registration_performed table pn loaded w :
  deprecationData (this w) = Some table ->
  performs table (registration (this w) pn loaded) w
    ((definition ← lift (of_call loaded);
      this ← get_this;
      match definition with
      | Some definition =>
          if applies this pn then
            addDefinition (Filename.name pn) (Filename.version pn) definition
              (tagged pn)
          else mret tt
      | None => mret tt
      end) w).
Proof.
  destruct w as [p h c]. cbn [this]. intros Ht. unfold registration.
  destruct loaded as [e|[o|]]; cbn.
  - apply (performs_nothing table (Raise (Thrown e))). reflexivity.
  - unfold mbind, M_bind, lift, get_this. cbn.
    destruct (applies p pn).
    + destruct (compiled_of o) as [e|d] eqn:Hc.
      * destruct o as [d|l]; cbn in Hc; [discriminate|].
        rewrite (addDefinition_compile_fails _ _ _ _ _ _ Hc).
        apply (performs_nothing table Skip). reflexivity.
      * destruct (tagged pn) eqn:Htag.
        -- rewrite (addDefinition_stores _ _ _ _ _ table _ Hc) by auto.
           eexists. reflexivity.
        -- destruct (registered p (Filename.name pn) (Filename.version pn))
             as [old|] eqn:Hold.
           ++ rewrite (addDefinition_keeps _ _ _ _ old _ Hc) by exact Hold.
              apply (performs_nothing table (Register _ _ d false)). cbn.
              unfold register. unfold registered in Hold.
              rewrite Hold, bool_decide_eq_true_2 by eauto. reflexivity.
           ++ rewrite (addDefinition_stores _ _ _ _ _ table _ Hc) by auto.
              eexists. cbn. unfold register. unfold registered in Hold.
              rewrite Hold, bool_decide_eq_false_2 by (intros [? ?]; discriminate).
              reflexivity.
    + apply (performs_nothing table Skip). reflexivity.
  - apply (performs_nothing table Skip). reflexivity.
Qed.

Lemma outdated_runs pn w :
  outdated pn w = (w, is_outdated (this w) pn).
Proof.
  unfold outdated, is_outdated.
  destruct (Filename.version pn =? 0); [reflexivity|].
  unfold mbind, M_bind, get_this, throw. cbn.
  destruct (lowestDefaultDefVersions (this w)) as [lowest|]; [|reflexivity].
  cbv zeta. unfold Js.object_get.
  destruct (lowest !! Filename.name pn) as [[|l]|]; try reflexivity.
  destruct (bool_decide _); reflexivity.
Qed.

Lemma loadCustomFile_performs table defPath file w :
  deprecationData (this w) = Some table ->
  performs table (custom_action (this w) defPath file) w
    (loadCustomFile defPath file w).
Proof.
  intros Ht. unfold loadCustomFile, custom_action.
  destruct (parseDefinitionFilename_runs file w) as (c & Hparse).
  unfold mbind at 1. unfold M_bind at 1. rewrite Hparse.
  destruct (Filename.match_filename (Filename.basename file)) as [pn|].
  - unfold mbind at 1. unfold M_bind at 1. rewrite outdated_runs.
    cbn [this heap console].
    destruct (is_outdated (this w) pn) as [[|]|e].
    + destruct w as [p h c0]. eexists. cbn.
      rewrite set_messages_id. reflexivity.
    + destruct (registration_performed table pn
                  (match Filename.type pn with
                   | Filename.js => require (path_join defPath file)
                   | Filename.def => defParser (path_join defPath file) None
                   end) (mkWorld (this w) (heap w) c) Ht) as (c' & Hrun).
      exists c'. exact Hrun.
    + destruct w as [p h c0]. eexists. cbn.
      rewrite set_messages_id. reflexivity.
  - destruct w as [p h c0]. eexists. cbn.
    rewrite set_messages_id. reflexivity.
Qed.

Lemma loadDefaultEntry_performs table e w :
  deprecationData (this w) = Some table ->
  performs table (default_action (this w) e) w (loadDefaultEntry e w).
Proof.
  intros Ht. unfold loadDefaultEntry, default_action.
  destruct (parseDefinitionFilename_runs e.1 w) as (c & Hparse).
  unfold mbind at 1. unfold M_bind at 1. rewrite Hparse.
  destruct (Filename.match_filename (Filename.basename e.1)) as [pn|].
  - destruct (registration_performed table pn
                (match Filename.type pn with
                 | Filename.js => requireStr (base64_decode e.2) e.1
                 | Filename.def => defParser e.1 (Some (base64_decode e.2))
                 end) (mkWorld (this w) (heap w) c) Ht) as (c' & Hrun).
    exists c'. exact Hrun.
  - destruct w as [p h c0]. eexists. cbn.
    rewrite set_messages_id. reflexivity.
Qed.

(** A loop whose bodies perform actions that do not raise runs to its end,
    and leaves the registry the actions build one after the other. *)
Lemma loop_performs {A} (step : A -> M unit)
  (action : TeraProtocol -> A -> Action)
  (table : gmap string (gmap Z DeprecationEntry)) :
  (forall p m a, action (set_messages m p) a = action p a) ->
  (forall w a, deprecationData (this w) = Some table ->
               performs table (action (this w) a) w (step a w)) ->
  forall xs w,
    deprecationData (this w) = Some table ->
    Forall (fun a => outcome_of (action (this w) a) = Ok tt) xs ->
    exists c,
      forM xs step w
      = (mkWorld
           (set_messages
              (foldl (apply_action table (majorPatchVersion (this w)))
                 (messages (this w)) (action (this w) <$> xs))
              (this w))
           (heap w) c, Ok tt).
Proof.
  intros Hframe Hstep xs. induction xs as [|x xs IH]; intros w Ht Hok.
  - exists (console w). destruct w as [p h c]. cbn.
    rewrite set_messages_id. reflexivity.
  - apply Forall_cons in Hok as [Hx Hxs].
    destruct (Hstep w x Ht) as (c1 & Hrun).
    cbn [forM]. unfold mbind at 1. unfold M_bind at 1. rewrite Hrun, Hx.
    set (w1 := mkWorld _ _ c1).
    destruct (IH w1) as (c2 & Hrest).
    + exact Ht.
    + cbn [w1 this]. eapply Forall_impl; [exact Hxs|].
      intros a Ha. cbn beta. rewrite Hframe. exact Ha.
    + exists c2. rewrite Hrest. cbn [w1 this heap].
      assert (Hmap : forall m, action (set_messages m (this w)) <$> xs
                               = action (this w) <$> xs).
      { intros m. apply list_fmap_ext. intros i a _. apply Hframe. }
      rewrite Hmap. cbn. destruct (this w); reflexivity.
Qed.

(** Whatever its bodies do, such a loop touches the registry only. *)
Lemma loop_frame {A} (step : A -> M unit)
  (action : TeraProtocol -> A -> Action)
  (table : gmap string (gmap Z DeprecationEntry)) :
  (forall w a, deprecationData (this w) = Some table ->
               performs table (action (this w) a) w (step a w)) ->
  forall xs w,
    deprecationData (this w) = Some table ->
    exists m c o,
      forM xs step w = (mkWorld (set_messages m (this w)) (heap w) c, o).
Proof.
  intros Hstep xs. induction xs as [|x xs IH]; intros w Ht.
  - exists (messages (this w)), (console w), (Ok tt).
    destruct w as [p h c]. cbn. rewrite set_messages_id. reflexivity.
  - destruct (Hstep w x Ht) as (c1 & Hrun).
    cbn [forM]. unfold mbind at 1. unfold M_bind at 1. rewrite Hrun.
    destruct (outcome_of (action (this w) x)) as [[]|e].
    + set (w1 := mkWorld _ _ c1).
      destruct (IH w1 Ht) as (m & c2 & o & Hrest).
      exists m, c2, o. rewrite Hrest. cbn. destruct (this w); reflexivity.
    + eexists _, _, _. reflexivity.
Qed.

(** *** The lowest bundled versions *)

(** On a name that [Object.prototype] does not have, the table is a plain
    dictionary. *)
Lemma proto_in_prototype : "__proto__" ∈ Js.Object_prototype.
Proof. unfold Js.Object_prototype. repeat first [left | right]. Qed.

Lemma object_set_plain (L : gmap string Js.Cell) k c :
  k ∉ Js.Object_prototype -> Js.object_set L k c = <[k := c]> L.
Proof.
  intros Hk. unfold Js.object_set.
  destruct (String.eqb_spec k "__proto__") as [->|_]; [|reflexivity].
  destruct (Hk proto_in_prototype).
Qed.

Lemma object_set_other (L : gmap string Js.Cell) k c n :
  k <> n -> Js.object_set L k c !! n = L !! n.
Proof.
  intros Hk. unfold Js.object_set. destruct (String.eqb k "__proto__");
    [reflexivity|]. apply lookup_insert_ne. exact Hk.
Qed.

Lemma lowest_step_other (L : gmap string Js.Cell) (d : Filename.ParsedName)
  (n : string) :
  Filename.name d <> n -> lowest_step L d !! n = L !! n.
Proof.
  intros Hn. unfold lowest_step.
  destruct (L !! Filename.name d) as [[|l]|];
    [|destruct (negb (l =? 0))|destruct (bool_decide _)];
    apply object_set_other; exact Hn.
Qed.

Lemma lowest_step_plain (L : gmap string Js.Cell) (d : Filename.ParsedName) :
  Filename.name d ∉ Js.Object_prototype ->
  lowest_step L d
  = <[Filename.name d :=
        match L !! Filename.name d with
        | Some (Js.Int l) =>
            if negb (l =? 0) then Js.Int (Z.min l (Filename.version d))
            else Js.Int (Filename.version d)
        | Some Js.NaN | None => Js.Int (Filename.version d)
        end]> L.
Proof.
  intros Hn. unfold lowest_step.
  rewrite (bool_decide_eq_false_2 _ Hn).
  destruct (L !! Filename.name d) as [[|l]|];
    [|destruct (negb (l =? 0))|]; apply object_set_plain; exact Hn.
Qed.

Lemma lowest_step_proto (L : gmap string Js.Cell) (d : Filename.ParsedName) :
  Filename.name d = "__proto__" -> lowest_step L d = L.
Proof.
  intros Hn. unfold lowest_step, Js.object_set. rewrite Hn. cbn [String.eqb].
  destruct (L !! "__proto__") as [[|l]|];
    [|destruct (negb (l =? 0))|destruct (bool_decide _)]; reflexivity.
Qed.

Lemma lowest_step_lookup (L : gmap string Js.Cell) (d : Filename.ParsedName) :
  Filename.name d <> "__proto__" ->
  lowest_step L d !! Filename.name d
  = Some (match L !! Filename.name d with
          | Some (Js.Int l) =>
              if negb (l =? 0) then Js.Int (Z.min l (Filename.version d))
              else Js.Int (Filename.version d)
          | Some Js.NaN => Js.Int (Filename.version d)
          | None =>
              if bool_decide (Filename.name d ∈ Js.Object_prototype)
              then Js.NaN else Js.Int (Filename.version d)
          end).
Proof.
  intros Hn. unfold lowest_step, Js.object_set.
  destruct (String.eqb_spec (Filename.name d) "__proto__"); [contradiction|].
  destruct (L !! Filename.name d) as [[|l]|];
    [|destruct (negb (l =? 0))|destruct (bool_decide _)];
    apply lookup_insert_eq.
Qed.

Lemma lowest_versions_cases (defs : list Filename.ParsedName) (n : string) :
  n ∉ Js.Object_prototype ->
  (forall d, d ∈ defs -> Filename.name d = n -> 0 < Filename.version d) ->
  ((forall d, d ∈ defs -> Filename.name d <> n)
   /\ lowest_versions defs !! n = None)
  \/ (exists m, lowest_versions defs !! n = Some (Js.Int m)
                /\ is_lowest_default defs n m).
Proof.
  intros Hplain. unfold lowest_versions.
  induction defs as [|d defs IH] using rev_ind; intros Hpos.
  - left. split; [intros d Hd; inversion Hd|apply lookup_empty].
  - rewrite foldl_app. cbn [foldl].
    assert (Hpos' : forall d0, d0 ∈ defs -> Filename.name d0 = n ->
                               0 < Filename.version d0).
    { intros d0 Hd0. apply Hpos, elem_of_app. left. exact Hd0. }
    specialize (IH Hpos'). set (L := foldl lowest_step ∅ defs) in *.
    destruct (decide (Filename.name d = n)) as [Hn|Hn].
    + right. assert (Hd : 0 < Filename.version d).
      { apply Hpos; [|exact Hn]. apply elem_of_app. right. left. }
      rewrite lowest_step_plain by (rewrite Hn; exact Hplain). rewrite Hn.
      rewrite lookup_insert_eq.
      destruct IH as [[Hnone HL]|(m & HL & (d1 & Hd1 & Hn1 & Hv1) & Hmin)].
      * rewrite HL. exists (Filename.version d).
        split; [reflexivity|]. split.
        -- exists d. split; [apply elem_of_app; right; left|auto].
        -- intros d0 Hd0 Hn0. apply elem_of_app in Hd0 as [Hd0|Hd0].
           ++ destruct (Hnone d0 Hd0 Hn0).
           ++ apply list_elem_of_singleton in Hd0 as ->. lia.
      * assert (Hm : 0 < m) by (rewrite <- Hv1; apply Hpos'; auto).
        rewrite HL. destruct (Z.eqb_spec m 0); [lia|]. cbn [negb].
        exists (Z.min m (Filename.version d)).
        split; [reflexivity|]. split.
        -- destruct (Z.min_spec m (Filename.version d)) as [[_ ->]|[_ ->]].
           ++ exists d1. split; [apply elem_of_app; left; exact Hd1|auto].
           ++ exists d. split; [apply elem_of_app; right; left|auto].
        -- intros d0 Hd0 Hn0. apply elem_of_app in Hd0 as [Hd0|Hd0].
           ++ specialize (Hmin d0 Hd0 Hn0). lia.
           ++ apply list_elem_of_singleton in Hd0 as ->. lia.
    + rewrite (lowest_step_other _ _ _ Hn).
      destruct IH as [[Hnone HL]|(m & HL & (d1 & Hd1 & Hn1 & Hv1) & Hmin)].
      * left. split; [|exact HL]. intros d0 Hd0.
        apply elem_of_app in Hd0 as [Hd0|Hd0]; [auto|].
        apply list_elem_of_singleton in Hd0 as ->. exact Hn.
      * right. exists m. split; [exact HL|]. split.
        -- exists d1. split; [apply elem_of_app; left; exact Hd1|auto].
        -- intros d0 Hd0 Hn0. apply elem_of_app in Hd0 as [Hd0|Hd0]; [auto|].
           apply list_elem_of_singleton in Hd0 as ->. contradiction.
Qed.

(** When the minimum is positive, the table holds it. *)
Lemma lowest_versions_min (defs : list Filename.ParsedName) (n : string)
  (m : Z) :
  n ∉ Js.Object_prototype ->
  is_lowest_default defs n m -> 0 < m ->
  lowest_versions defs !! n = Some (Js.Int m).
Proof.
  intros Hplain [(d & Hd & Hn & Hv) Hmin] Hm.
  destruct (lowest_versions_cases defs n Hplain)
    as [[Hnone _]|(m' & HL & Hmin')].
  - intros d0 Hd0 Hn0. specialize (Hmin d0 Hd0 Hn0). lia.
  - destruct (Hnone d Hd Hn).
  - rewrite HL. do 2 f_equal.
    destruct Hmin' as [(d' & Hd' & Hn' & Hv') Hmin'].
    specialize (Hmin d' Hd' Hn'). specialize (Hmin' d Hd Hn). lia.
Qed.

Lemma mapM_parse_runs (files : list string) (w : World) :
  exists c,
    mapM parseDefinitionFilename files w
    = (mkWorld (this w) (heap w) c,
       Ok ((fun f => Filename.match_filename (Filename.basename f)) <$> files)).
Proof.
  revert w. induction files as [|f files IH]; intros w.
  - exists (console w). destruct w; reflexivity.
  - destruct (parseDefinitionFilename_runs f w) as (c1 & H1).
    destruct (IH (mkWorld (this w) (heap w) c1)) as (c2 & H2).
    exists c2. cbn [mapM]. unfold mbind, M_bind. rewrite H1, H2. reflexivity.
Qed.

Lemma note_lowest_runs def lowest w :
  lowestDefaultDefVersions (this w) = Some lowest ->
  note_lowest (Some def) w
  = (mkWorld (set_lowestDefaultDefVersions (lowest_step lowest def) (this w))
       (heap w) (console w), Ok tt).
Proof.
  intros HL. unfold note_lowest, lowest_step, mbind, M_bind, get_this. cbn.
  rewrite HL. unfold Js.object_get.
  destruct (lowest !! Filename.name def) as [[|l]|]; cbn.
  - reflexivity.
  - destruct (negb (l =? 0)); reflexivity.
  - destruct (bool_decide _); reflexivity.
Qed.

(** The [forEach] over the parsed names: it fills the table as long as the
    names are parsed ones, and raises a [TypeError] at the first that is
    [null]. *)
Lemma forM_note_lowest (defs : list Filename.ParsedName)
  (rest : list (option Filename.ParsedName)) lowest w :
  lowestDefaultDefVersions (this w) = Some lowest ->
  forM ((Some <$> defs) ++ rest) note_lowest w
  = match rest with
    | [] | Some _ :: _ =>
        forM rest note_lowest
          (mkWorld
             (set_lowestDefaultDefVersions (foldl lowest_step lowest defs)
                (this w)) (heap w) (console w))
    | None :: _ =>
        (mkWorld
           (set_lowestDefaultDefVersions (foldl lowest_step lowest defs)
              (this w)) (heap w) (console w), Throw TypeError)
    end.
Proof.
  revert lowest w. induction defs as [|d defs IH]; intros lowest w HL.
  - cbn [fmap list_fmap app foldl].
    assert (Hw : mkWorld (set_lowestDefaultDefVersions lowest (this w))
                   (heap w) (console w) = w).
    { destruct w as [p h c]. cbn in *. destruct p. cbn in *. subst.
      reflexivity. }
    rewrite Hw. destruct rest as [|[d|] rest]; reflexivity.
  - cbn [fmap list_fmap app foldl forM]. unfold mbind at 1. unfold M_bind at 1.
    rewrite (note_lowest_runs d lowest w HL).
    rewrite (IH (lowest_step lowest d)) by reflexivity.
    destruct rest as [|[d'|] rest]; reflexivity.
Qed.

Lemma mapM_ids_runs (defs : list Filename.ParsedName) (w : World) :
  mapM (fun def : option Filename.ParsedName =>
          match def with
          | None => throw TypeError
          | Some def => mret (Filename.name def, Filename.version def)
          end) (Some <$> defs) w
  = (w, Ok ((fun d => (Filename.name d, Filename.version d)) <$> defs)).
Proof.
  induction defs as [|d defs IH]; [reflexivity|].
  cbn [fmap list_fmap mapM]. unfold mbind, M_bind.
  cbn [mret M_ret]. fold (@fmap list _ _ _ Some defs). rewrite IH. reflexivity.
Qed.

(** [loadDefaultBundle] up to its loop, on a bundle whose names all parse. *)
Lemma loadDefaultBundle_prepared data (defs : list Filename.ParsedName)
  (w : World) :
  (fun f => Filename.match_filename (Filename.basename f))
    <$> (b_protocol data).*1 = Some <$> defs ->
  exists c,
    loadDefaultBundle data w
    = (_ ← forM (b_protocol data) loadDefaultEntry;
       modify_this (set_loaded true))
        (mkWorld (prepared data defs (this w)) (heap w) c).
Proof.
  intros Hparse. unfold loadDefaultBundle.
  destruct (mapM_parse_runs (b_protocol data).*1 w) as (c & Hmap).
  exists c. unfold mbind at 1. unfold M_bind at 1. rewrite Hmap, Hparse.
  unfold mbind at 1. unfold M_bind at 1. unfold modify_this at 1.
  cbn [this heap console].
  unfold mbind at 1. unfold M_bind at 1.
  rewrite <- (app_nil_r (Some <$> defs)).
  rewrite (forM_note_lowest defs [] ∅) by reflexivity.
  cbn [forM mret M_ret this heap console].
  unfold mbind at 1. unfold M_bind at 1. unfold modify_this at 1.
  cbn [this heap console].
  unfold mbind at 1. unfold M_bind at 1.
  rewrite app_nil_r, mapM_ids_runs.
  reflexivity.
Qed.

(** [loadDefaultBundle] on a bundle with a name that does not parse: the
    [forEach] raises at it, before the registry is touched. *)
Lemma loadDefaultBundle_malformed data (defs : list Filename.ParsedName)
  (rest : list (option Filename.ParsedName)) (w : World) :
  (fun f => Filename.match_filename (Filename.basename f))
    <$> (b_protocol data).*1 = (Some <$> defs) ++ None :: rest ->
  exists c,
    loadDefaultBundle data w
    = (mkWorld
         (set_lowestDefaultDefVersions (lowest_versions defs) (this w))
         (heap w) c, Throw TypeError).
Proof.
  intros Hparse. unfold loadDefaultBundle.
  destruct (mapM_parse_runs (b_protocol data).*1 w) as (c & Hmap).
  exists c. unfold mbind at 1. unfold M_bind at 1. rewrite Hmap, Hparse.
  unfold mbind at 1. unfold M_bind at 1. unfold modify_this at 1.
  cbn [this heap console].
  unfold mbind at 1. unfold M_bind at 1.
  rewrite (forM_note_lowest defs (None :: rest) ∅) by reflexivity.
  reflexivity.
Qed.

(** *** The loaders as a whole *)

Lemma loadCustomDefinitions_runs defPath (files : list string)
  (table : gmap string (gmap Z DeprecationEntry)) (w : World) :
  readdirSync defPath = inr files ->
  deprecationData (this w) = Some table ->
  Forall (fun f => outcome_of (custom_action (this w) defPath f) = Ok tt) files ->
  exists c,
    loadCustomDefinitions defPath w
    = (mkWorld
         (set_messages
            (foldl (apply_action table (majorPatchVersion (this w)))
               (messages (this w))
               ((fun f => custom_action (this w) defPath f) <$> files))
            (this w))
         (heap w) c, Ok tt).
Proof.
  intros Hdir Ht Hok. unfold loadCustomDefinitions.
  unfold mbind, M_bind, lift. rewrite Hdir. cbn [of_call].
  apply (loop_performs (loadCustomFile defPath)
           (fun p f => custom_action p defPath f) table).
  - reflexivity.
  - intros w0 f Ht0. apply loadCustomFile_performs, Ht0.
  - exact Ht.
  - exact Hok.
Qed.

Lemma loadDefaultBundle_runs data (defs : list Filename.ParsedName)
  (w : World) :
  (fun f => Filename.match_filename (Filename.basename f))
    <$> (b_protocol data).*1 = Some <$> defs ->
  Forall (fun e => outcome_of (default_action (prepared data defs (this w)) e)
                   = Ok tt) (b_protocol data) ->
  exists c,
    loadDefaultBundle data w
    = (mkWorld
         (set_loaded true
            (set_messages
               (foldl (apply_action (default ∅ (b_deprecated data))
                         (majorPatchVersion (this w)))
                  ∅ (default_action (prepared data defs (this w))
                       <$> b_protocol data))
               (prepared data defs (this w))))
         (heap w) c, Ok tt).
Proof.
  intros Hparse Hok.
  destruct (loadDefaultBundle_prepared data defs w Hparse) as (c & Hrun).
  rewrite Hrun. clear Hrun.
  destruct (loop_performs loadDefaultEntry default_action
              (default ∅ (b_deprecated data))
              ltac:(reflexivity)
              ltac:(intros; apply loadDefaultEntry_performs; assumption)
              (b_protocol data)
              (mkWorld (prepared data defs (this w)) (heap w) c)
              eq_refl Hok) as (c' & Hloop).
  exists c'. unfold mbind, M_bind. rewrite Hloop. reflexivity.
Qed.

Lemma entry_register m n v d overwrite n' v' :
  entry (register n v d overwrite m) n' v'
  = if decide (n = n' /\ v = v')
    then (if overwrite then Some d
          else match entry m n v with Some old => Some old | None => Some d end)
    else if overwrite || negb (bool_decide (is_Some (entry m n v)))
         then reflag (ident d) (readable d) (writeable d) <$> entry m n' v'
         else entry m n' v'.
Proof.
  unfold register.
  destruct overwrite; cbn [orb].
  - apply entry_store.
  - destruct (entry m n v) as [old|] eqn:Hold.
    + rewrite bool_decide_eq_true_2 by eauto. cbn [negb].
      destruct (decide (n = n' /\ v = v')) as [[<- <-]|]; auto.
    + rewrite bool_decide_eq_false_2 by (intros [? ?]; discriminate).
      apply entry_store.
Qed.

(** The object a slot holds after a registration: the overwrite rule on
    the objects, whatever their flags. *)
Lemma object_at_register m n v d overwrite n' v' :
  object_at (register n v d overwrite m) n' v'
  = if decide (n = n' /\ v = v')
    then (if overwrite then Some (unflagged d)
          else match object_at m n v with
               | Some old => Some old
               | None => Some (unflagged d)
               end)
    else object_at m n' v'.
Proof.
  unfold object_at. rewrite entry_register.
  destruct (decide (n = n' /\ v = v')).
  - destruct overwrite; [reflexivity|]. destruct (entry m n v); reflexivity.
  - destruct (_ || _); [|reflexivity].
    destruct (entry m n' v'); cbn; [|reflexivity].
    rewrite unflagged_reflag. reflexivity.
Qed.

Lemma object_at_action table major m a n' v' :
  object_at (apply_action table major m a) n' v'
  = match a with
    | Register n v d overwrite =>
        if decide (n = n' /\ v = v')
        then (if overwrite then Some (unflagged d)
              else match object_at m n v with
                   | Some old => Some old
                   | None => Some (unflagged d)
                   end)
        else object_at m n' v'
    | Skip | Raise _ => object_at m n' v'
    end.
Proof.
  destruct a as [|n v d o|e]; cbn [apply_action]; try reflexivity.
  rewrite object_at_register, unflagged_flagged. reflexivity.
Qed.

(** The object of a slot survives every action that is not a registration
    under a tag for its name and version. *)
Lemma fold_keeps table major n v old (acts : list Action) m :
  object_at m n v = Some old ->
  Forall (fun a => ~ tagged_for n v a) acts ->
  object_at (foldl (apply_action table major) m acts) n v = Some old.
Proof.
  revert m. induction acts as [|a acts IH]; intros m Hm Hno; [exact Hm|].
  apply Forall_cons in Hno as [Ha Hacts]. cbn [foldl].
  apply IH; [|exact Hacts]. rewrite object_at_action.
  destruct a as [|n' v' d ow|e]; try exact Hm.
  destruct (decide (n' = n /\ v' = v)) as [[-> ->]|]; [|exact Hm].
  destruct ow; [|rewrite Hm; reflexivity].
  destruct Ha. exists d. reflexivity.
Qed.

(** The object of the last registration under a tag for a name and a
    version is what the slot ends with. *)
Lemma fold_tagged table major n v d (before after : list Action) m :
  Forall (fun a => ~ tagged_for n v a) after ->
  object_at (foldl (apply_action table major) m
               (before ++ Register n v d true :: after)) n v
  = Some (unflagged d).
Proof.
  intros Hafter. rewrite foldl_app. cbn [foldl].
  apply fold_keeps; [|exact Hafter].
  rewrite object_at_action, decide_True by auto. reflexivity.
Qed.

(** The entry of a slot, flags included, survives every action that is
    neither a registration under a tag for the slot nor a registration of
    the object it holds for another slot. *)
Lemma fold_keeps_exact table major n v old (acts : list Action) m :
  entry m n v = Some old ->
  Forall (fun a => ~ tagged_for n v a) acts ->
  Forall (fun a => ~ hands_in (ident old) n v a) acts ->
  entry (foldl (apply_action table major) m acts) n v = Some old.
Proof.
  revert m. induction acts as [|a acts IH]; intros m Hm Hno Hother; [exact Hm|].
  apply Forall_cons in Hno as [Ha Hacts].
  apply Forall_cons in Hother as [Hb Hbs]. cbn [foldl].
  apply IH; [|exact Hacts|exact Hbs].
  destruct a as [|n' v' d ow|e]; cbn [apply_action]; try exact Hm.
  rewrite entry_register.
  destruct (decide (n' = n /\ v' = v)) as [[-> ->]|Hne].
  - destruct ow; [|rewrite Hm; reflexivity].
    destruct Ha. exists d. reflexivity.
  - destruct (_ || _); [|exact Hm]. rewrite Hm. cbn.
    rewrite reflag_other; [reflexivity|]. rewrite ident_flagged.
    intros Hi. apply Hb. exists n', v', d, ow. auto.
Qed.

Lemma fold_tagged_exact table major n v d (before after : list Action) m :
  Forall (fun a => ~ tagged_for n v a) after ->
  Forall (fun a => ~ hands_in (ident d) n v a) after ->
  entry (foldl (apply_action table major) m
           (before ++ Register n v d true :: after)) n v
  = Some (flagged table major n v d).
Proof.
  intros Hafter Hother. rewrite foldl_app. cbn [foldl].
  apply fold_keeps_exact; [|exact Hafter|].
  - cbn [apply_action]. rewrite entry_register, decide_True by auto.
    reflexivity.
  - rewrite ident_flagged. exact Hother.
Qed.

(** *** Stale custom definitions *)

Lemma parseInt_from_nonneg (s : string) (acc : Z) :
  Filename.all_chars Filename.is_digit s = true ->
  0 <= acc -> 0 <= Filename.parseInt_from acc s.
Proof.
  revert acc. induction s as [|c s IH]; intros acc Hs Hacc; [exact Hacc|].
  cbn in Hs. apply andb_true_iff in Hs as [Hc Hs].
  cbn [Filename.parseInt_from]. apply IH; [exact Hs|].
  unfold Filename.is_digit, Filename.between in Hc.
  apply andb_true_iff in Hc as [Hlo _]. apply N.leb_le in Hlo.
  unfold Filename.digit_value. lia.
Qed.

(** A parsed version is never negative. *)
Lemma match_filename_version (base : string) (pn : Filename.ParsedName) :
  Filename.match_filename base = Some pn -> 0 <= Filename.version pn.
Proof.
  unfold Filename.match_filename.
  destruct (Filename.fields Filename.dot base) as [|n [|v [|x [|y [|z l]]]]];
    try discriminate.
  - destruct (Filename.word_plus n && Filename.digit_plus v) eqn:Hc;
      [|discriminate].
    destruct (Filename.DefType_of x); [|discriminate].
    intros [= <-]. cbn. apply andb_true_iff in Hc as [_ Hv].
    unfold Filename.digit_plus in Hv. apply andb_true_iff in Hv as [_ Hv].
    apply parseInt_from_nonneg; [exact Hv|lia].
  - destruct (Filename.word_plus n && Filename.digit_plus v
              && Filename.word_plus x) eqn:Hc; [|discriminate].
    destruct (Filename.DefType_of y); [|discriminate].
    intros [= <-]. cbn. apply andb_true_iff in Hc as [Hc _].
    apply andb_true_iff in Hc as [_ Hv].
    unfold Filename.digit_plus in Hv. apply andb_true_iff in Hv as [_ Hv].
    apply parseInt_from_nonneg; [exact Hv|lia].
Qed.

(** A file whose version is not 0 and lies below a table entry that is not
    0 is skipped: one debug line, nothing else. *)
Lemma loadCustomFile_skips defPath file pn lowest l (w : World) :
  Filename.match_filename (Filename.basename file) = Some pn ->
  Filename.version pn <> 0 ->
  lowestDefaultDefVersions (this w) = Some lowest ->
  lowest !! Filename.name pn = Some (Js.Int l) ->
  l <> 0 ->
  Filename.version pn < l ->
  loadCustomFile defPath file w
  = (mkWorld (this w) (heap w)
       (console w ++ [(debug, SkippedOutdatedDef (Filename.name pn)
                                (Filename.version pn))]), Ok tt).
Proof.
  intros Hparse Hv HL Hl Hl0 Hlt.
  unfold loadCustomFile, parseDefinitionFilename. rewrite Hparse.
  unfold mbind, M_bind, mret, M_ret. rewrite outdated_runs.
  unfold is_outdated. rewrite HL, Hl.
  destruct (Z.eqb_spec (Filename.version pn) 0); [contradiction|].
  destruct (Z.eqb_spec l 0); [contradiction|].
  destruct (Z.ltb_spec (Filename.version pn) l); [|lia].
  reflexivity.
Qed.

(** *** What every method keeps *)

Section Moves.

Variable R : World -> World -> Prop.
Hypothesis R_refl : forall w, R w w.
Hypothesis R_trans : forall a b c, R a b -> R b c -> R a c.

Lemma moves_ret {A} (a : A) : moves_by R (mret a).
Proof using R_refl. intros w. apply R_refl. Qed.

Lemma moves_throw {A} (e : Error) : moves_by R (throw e : M A).
Proof using R_refl. intros w. apply R_refl. Qed.

Lemma moves_lift {A} (o : Outcome A) : moves_by R (lift o).
Proof using R_refl. intros w. apply R_refl. Qed.

Lemma moves_get_this : moves_by R get_this.
Proof using R_refl. intros w. apply R_refl. Qed.

Lemma moves_bind {A B} (m : M A) (f : A -> M B) :
  moves_by R m -> (forall a, moves_by R (f a)) -> moves_by R (m ≫= f).
Proof using R_trans.
  intros Hm Hf w. unfold mbind, M_bind. specialize (Hm w).
  destruct (m w) as [w1 [a|e]]; cbn [fst] in *; [|exact Hm].
  eapply R_trans; [exact Hm|apply Hf].
Qed.

Lemma moves_forM {A} (xs : list A) (body : A -> M unit) :
  (forall x, moves_by R (body x)) -> moves_by R (forM xs body).
Proof using R_refl R_trans.
  intros Hbody. induction xs as [|x xs IH]; [apply moves_ret|].
  cbn [forM]. apply moves_bind; [apply Hbody|intros _; exact IH].
Qed.

Lemma moves_mapM {A B} (f : A -> M B) (xs : list A) :
  (forall x, moves_by R (f x)) -> moves_by R (mapM f xs).
Proof using R_refl R_trans.
  intros Hf. induction xs as [|x xs IH]; [apply moves_ret|].
  cbn [mapM]. apply moves_bind; [apply Hf|intros y].
  apply moves_bind; [exact IH|intros ys; apply moves_ret].
Qed.

End Moves.

Lemma same_buffers_refl w : same_buffers w w.
Proof. repeat split. Qed.

Lemma same_buffers_trans a b c :
  same_buffers a b -> same_buffers b c -> same_buffers a c.
Proof.
  intros (H1 & H2 & H3 & H4 & H5) (G1 & G2 & G3 & G4 & G5).
  repeat split; congruence.
Qed.

Lemma sound_entries_refl w : sound_entries w w.
Proof. intros n v d Hd. left. exact Hd. Qed.

Lemma sound_entries_trans a b c :
  sound_entries a b -> sound_entries b c -> sound_entries a c.
Proof.
  intros Hab Hbc n v d Hd.
  destruct (Hbc n v d Hd) as [Hb|Hs]; [apply Hab, Hb|right; exact Hs].
Qed.

Lemma scratch_ok_same_buffers w w' :
  same_buffers w w' -> scratch_ok (this w) (heap w) ->
  scratch_ok (this w') (heap w').
Proof.
  intros (H1 & H2 & H3 & H4 & H5). unfold scratch_ok.
  rewrite H1, H2, H3, H4, H5. auto.
Qed.

Lemma flags_sound_entries w w' :
  sound_entries w w' -> flags_sound (this w) -> flags_sound (this w').
Proof.
  intros Hs Hw n v d Hd. destruct (Hs n v d Hd) as [Hold|Hnew];
    [exact (Hw n v d Hold)|exact Hnew].
Qed.

Ltac moves_auto refl trans leaf :=
  repeat (intros; first
    [ leaf
    | apply (moves_ret _ refl)
    | apply (moves_throw _ refl)
    | apply (moves_lift _ refl)
    | apply (moves_get_this _ refl)
    | apply (moves_forM _ refl trans)
    | apply (moves_mapM _ refl trans)
    | match goal with
      | |- moves_by _ (mbind _ _) => apply (moves_bind _ trans)
      | |- moves_by _ (match ?x with _ => _ end) => destruct x
      end
    | progress cbv beta zeta ]).

Ltac same_buffers_leaf :=
  idtac;
  match goal with
  | |- moves_by _ (modify_this _) => intros ?; repeat split
  | |- moves_by _ (log _ _) => intros ?; repeat split
  end.

Lemma parseDefinitionFilename_same_buffers file :
  moves_by same_buffers (parseDefinitionFilename file).
Proof.
  unfold parseDefinitionFilename.
  moves_auto same_buffers_refl same_buffers_trans same_buffers_leaf.
Qed.

Lemma addDefinition_same_buffers n v o overwrite :
  moves_by same_buffers (addDefinition n v o overwrite).
Proof.
  unfold addDefinition, add_to_map.
  moves_auto same_buffers_refl same_buffers_trans same_buffers_leaf.
Qed.

Lemma loadDefaultEntry_same_buffers e :
  moves_by same_buffers (loadDefaultEntry e).
Proof.
  unfold loadDefaultEntry.
  moves_auto same_buffers_refl same_buffers_trans
    ltac:(first [ apply parseDefinitionFilename_same_buffers
                | apply addDefinition_same_buffers ]).
Qed.

Lemma loadCustomFile_same_buffers defPath file :
  moves_by same_buffers (loadCustomFile defPath file).
Proof.
  unfold loadCustomFile, outdated.
  moves_auto same_buffers_refl same_buffers_trans
    ltac:(first [ apply parseDefinitionFilename_same_buffers
                | apply addDefinition_same_buffers
                | same_buffers_leaf ]).
Qed.

Lemma loadDefaultBundle_same_buffers data :
  moves_by same_buffers (loadDefaultBundle data).
Proof.
  unfold loadDefaultBundle, note_lowest.
  moves_auto same_buffers_refl same_buffers_trans
    ltac:(first [ apply parseDefinitionFilename_same_buffers
                | apply loadDefaultEntry_same_buffers
                | same_buffers_leaf ]).
Qed.

Lemma loadCustomDefinitions_same_buffers defPath :
  moves_by same_buffers (loadCustomDefinitions defPath).
Proof.
  unfold loadCustomDefinitions.
  moves_auto same_buffers_refl same_buffers_trans
    ltac:(apply loadCustomFile_same_buffers).
Qed.

Lemma load_same_buffers dataPath : moves_by same_buffers (load dataPath).
Proof.
  unfold load.
  moves_auto same_buffers_refl same_buffers_trans
    ltac:(first [ apply loadDefaultBundle_same_buffers
                | apply loadCustomDefinitions_same_buffers ]).
Qed.

Lemma assignDeprecationFlags_sound p n v d d' :
  _assignDeprecationFlags p n v d = Ok d' ->
  writeable d' = true -> readable d' = true.
Proof.
  unfold _assignDeprecationFlags.
  destruct (deprecationData p) as [table|]; [|discriminate].
  destruct (table !! n ≫= _) as [data|].
  - destruct (_ && _); intros [= <-]; cbn; [discriminate|reflexivity].
  - intros [= <-]. reflexivity.
Qed.

Lemma add_to_map_sound n v d overwrite :
  moves_by sound_entries (add_to_map n v d overwrite).
Proof.
  intros w n' v' d'. rewrite add_to_map_runs.
  destruct (_ || _); [|intros Hd; left; exact Hd].
  destruct (_assignDeprecationFlags (this w) n v d) as [fd|e] eqn:Hfd;
    unfold registered; cbn [fst this messages set_messages].
  - rewrite entry_store.
    destruct (decide (n = n' /\ v = v')).
    + intros [= <-]. right. exact (assignDeprecationFlags_sound _ _ _ _ _ Hfd).
    + destruct (entry (messages (this w)) n' v') as [old|]; [|discriminate].
      cbn. intros [= <-]. unfold reflag.
      destruct (decide (ident old = ident fd)); [right|left; reflexivity].
      cbn. exact (assignDeprecationFlags_sound _ _ _ _ _ Hfd).
  - rewrite entry_write_through, entry_with_table.
    destruct (entry (messages (this w)) n' v') as [old|]; [|discriminate].
    cbn. intros [= <-]. unfold reflag.
    destruct (decide (ident old = ident d)); [right|left]; reflexivity.
Qed.

Ltac sound_entries_leaf :=
  idtac;
  match goal with
  | |- moves_by _ (modify_this (set_messages ∅)) =>
      let Hd := fresh in
      intros ? ? ? ? Hd; unfold registered, entry in Hd; cbn in Hd;
      rewrite lookup_empty in Hd; discriminate
  | |- moves_by _ (modify_this _) => intros ? ? ? ? ?; left; assumption
  | |- moves_by _ (log _ _) => intros ? ? ? ? ?; left; assumption
  end.

Lemma parseDefinitionFilename_sound file :
  moves_by sound_entries (parseDefinitionFilename file).
Proof.
  unfold parseDefinitionFilename.
  moves_auto sound_entries_refl sound_entries_trans sound_entries_leaf.
Qed.

Lemma addDefinition_sound n v o overwrite :
  moves_by sound_entries (addDefinition n v o overwrite).
Proof.
  unfold addDefinition.
  moves_auto sound_entries_refl sound_entries_trans
    ltac:(first [ apply add_to_map_sound | sound_entries_leaf ]).
Qed.

Lemma loadDefaultEntry_sound e : moves_by sound_entries (loadDefaultEntry e).
Proof.
  unfold loadDefaultEntry.
  moves_auto sound_entries_refl sound_entries_trans
    ltac:(first [ apply parseDefinitionFilename_sound
                | apply addDefinition_sound ]).
Qed.

Lemma loadCustomFile_sound defPath file :
  moves_by sound_entries (loadCustomFile defPath file).
Proof.
  unfold loadCustomFile, outdated.
  moves_auto sound_entries_refl sound_entries_trans
    ltac:(first [ apply parseDefinitionFilename_sound
                | apply addDefinition_sound
                | sound_entries_leaf ]).
Qed.

Lemma loadDefaultBundle_sound data :
  moves_by sound_entries (loadDefaultBundle data).
Proof.
  unfold loadDefaultBundle, note_lowest.
  moves_auto sound_entries_refl sound_entries_trans
    ltac:(first [ apply parseDefinitionFilename_sound
                | apply loadDefaultEntry_sound
                | sound_entries_leaf ]).
Qed.

Lemma loadCustomDefinitions_sound defPath :
  moves_by sound_entries (loadCustomDefinitions defPath).
Proof.
  unfold loadCustomDefinitions.
  moves_auto sound_entries_refl sound_entries_trans
    ltac:(apply loadCustomFile_sound).
Qed.

Lemma load_sound dataPath : moves_by sound_entries (load dataPath).
Proof.
  unfold load.
  moves_auto sound_entries_refl sound_entries_trans
    ltac:(first [ apply loadDefaultBundle_sound
                | apply loadCustomDefinitions_sound ]).
Qed.

(** The registry of a new engine is empty. *)
Lemma constructor_flags_sound reg major minor pm tag h p h' :
  constructor reg major minor pm tag h = Ok (p, h') -> flags_sound p.
Proof.
  intros Hc n v d Hd.
  assert (Hm : messages p = ∅).
  { unfold constructor in Hc.
    destruct (negb _); [discriminate|].
    destruct (Buffer.allocUnsafe uninit h 0x10000) as [[rb h1]|]; [|discriminate].
    cbn [mbind Outcome_bind] in Hc.
    destruct (for_le _ _ _ _) as [views|]; [|discriminate].
    cbn [mbind Outcome_bind] in Hc.
    destruct (Buffer.allocUnsafe uninit h1 0x10000) as [[wb h2]|]; [|discriminate].
    cbn [mbind Outcome_bind] in Hc.
    destruct (Buffer.new_DataView h2 wb 0 0x10000); [|discriminate].
    cbn [mbind Outcome_bind] in Hc. injection Hc as <- _. reflexivity. }
  unfold registered, entry in Hd. rewrite Hm, lookup_empty in Hd. discriminate.
Qed.

(** What resolves is in the registry. *)
Lemma resolveIdentifier_registered p identifier request r :
  resolveIdentifier p identifier request = Ok r ->
  exists v, registered p (name r) v = Some (definition r).
Proof.
  assert (Hnamed : forall n c, names p identifier n c ->
            resolveIdentifier p identifier request = Ok r ->
            exists v, registered p (name r) v = Some (definition r)).
  { intros n c Hn. rewrite (resolveIdentifier_named _ _ _ _ _ Hn).
    unfold registered, entry. cbv zeta.
    destruct (messages p !! n) as [vs|] eqn:Hvs; cbn; [|discriminate].
    destruct request as [|z].
    - destruct (Js.Math_max (elements (dom vs))) as [|z]; cbn; [discriminate|].
      destruct (vs !! z) as [d|] eqn:Hz.
      + intros [= <-]. cbn. exists z. rewrite Hvs. exact Hz.
      + destruct (_ && _); discriminate.
    - destruct (vs !! z) as [d|] eqn:Hz.
      + intros [= <-]. cbn. exists z. rewrite Hvs. exact Hz.
      + destruct (_ && _); discriminate. }
  destruct identifier as [s|z|].
  - destruct (pm_name (protocolMap p) !! s) as [c|] eqn:Hs.
    + apply (Hnamed s c). split; [reflexivity|exact Hs].
    + unfold resolveIdentifier. rewrite Hs. discriminate.
  - destruct (pm_code (protocolMap p) !! z) as [n|] eqn:Hz.
    + apply (Hnamed n z). split; [reflexivity|exact Hz].
    + unfold resolveIdentifier. rewrite Hz. discriminate.
  - discriminate.
Qed.

Lemma scratch_ok_insert_other p (h : Buffer.Heap) b bs :
  scratch_ok p h -> b <> readBuffer p -> b <> writeBuffer p ->
  scratch_ok p (<[b := bs]> h).
Proof.
  intros (Hne & Hrb & Hwb & Hrest) Hb Hb'. unfold scratch_ok.
  rewrite !length_insert_ne by congruence. auto.
Qed.

Lemma scratch_ok_insert_write p (h : Buffer.Heap) bs :
  scratch_ok p h -> List.length bs = Z.to_nat 0x10000 ->
  scratch_ok p (<[writeBuffer p := bs]> h).
Proof.
  intros (Hne & Hrb & Hwb & Hrest) Hbs. unfold scratch_ok.
  rewrite length_insert_ne by congruence.
  unfold Buffer.length at 2. rewrite contents_insert_eq.
  split; [exact Hne|]. split; [exact Hrb|]. split; [lia|exact Hrest].
Qed.

Lemma scratch_ok_insert_read p (h : Buffer.Heap) bs :
  scratch_ok p h -> List.length bs = Z.to_nat 0x10000 ->
  scratch_ok p (<[readBuffer p := bs]> h).
Proof.
  intros (Hne & Hrb & Hwb & Hrest) Hbs. unfold scratch_ok.
  rewrite (length_insert_ne _ _ (writeBuffer p)) by congruence.
  unfold Buffer.length at 1. rewrite contents_insert_eq.
  split; [exact Hne|]. split; [lia|]. split; [exact Hwb|exact Hrest].
Qed.

(** [parse] keeps the engine and the scratch regions in order, whatever it
    is handed. *)
Lemma parse_keeps_scratch (r : ResolvedIdentifier) (buffer : positive)
  (w : World) :
  scratch_ok (this w) (heap w) ->
  this (parse r buffer w).1 = this w
  /\ scratch_ok (this w) (heap (parse r buffer w).1).
Proof.
  intros Hs. destruct (readable (definition r)) eqn:Hr.
  - rewrite (parse_runs r buffer w Hs Hr). cbn [fst this heap].
    split; [reflexivity|]. apply scratch_ok_insert_read; [exact Hs|].
    destruct Hs as (_ & Hrb & _). unfold Buffer.length in Hrb.
    rewrite length_app, length_take, length_drop. lia.
  - unfold parse. rewrite Hr. cbn. auto.
Qed.

(** So does [write], for a writer that leaves the view as long as it was. *)
Lemma write_keeps_scratch (r : ResolvedIdentifier) (data : option Obj)
  (w : World) :
  scratch_ok (this w) (heap w) ->
  List.length
    (writer (definition r) (Buffer.view_bytes (heap w) (writeView (this w)))
       (default emptyObj data)).1
  = List.length (Buffer.view_bytes (heap w) (writeView (this w))) ->
  this (write r data w).1 = this w
  /\ scratch_ok (this w) (heap (write r data w).1).
Proof.
  intros Hs Hkeep.
  assert (Hview : List.length (Buffer.view_bytes (heap w) (writeView (this w)))
                  = Z.to_nat 0x10000).
  { destruct Hs as (_ & _ & Hwb & Hwv & _). rewrite Hwv.
    unfold Buffer.view_bytes, Buffer.length in *.
    cbn [Buffer.byteLength Buffer.byteOffset Buffer.buffer].
    rewrite length_take, length_drop. lia. }
  rewrite Hview in Hkeep.
  unfold write. destruct (writeable (definition r)); cbn [negb]; [|cbn; auto].
  unfold mbind, M_bind, mret, M_ret, get_this, get_heap, put_heap, lift.
  cbn [this heap console].
  destruct (writer (definition r) _ _) as [bytes res]. cbn [fst snd] in *.
  pose proof Hs as (Hne & Hrb & Hwb & Hwv & Hviews).
  rewrite Hwv. unfold Buffer.set_view_bytes.
  cbn [Buffer.buffer Buffer.byteOffset Buffer.byteLength].
  assert (Hold : List.length (Buffer.contents (heap w) (writeBuffer (this w)))
                 = Z.to_nat 0x10000) by (unfold Buffer.length in Hwb; lia).
  assert (H1 : Buffer.splice 0 bytes
                 (Buffer.contents (heap w) (writeBuffer (this w))) = bytes).
  { unfold Buffer.splice. change (Z.to_nat 0) with 0%nat.
    rewrite take_0, drop_ge by (cbn; lia). apply app_nil_r. }
  rewrite H1.
  assert (Hs1 : scratch_ok (this w) (<[writeBuffer (this w) := bytes]> (heap w)))
    by (apply scratch_ok_insert_write; assumption).
  destruct res as [e|len]; cbn [of_call fst]; [auto|].
  rewrite !setUint16_le_ok by (cbn; lia).
  cbn [Buffer.buffer Buffer.byteOffset Buffer.byteLength this heap console].
  rewrite !contents_insert_eq, !insert_insert_eq.
  set (scratch := Buffer.splice (0 + 2) _ _).
  assert (Hscratch : List.length scratch = Z.to_nat 0x10000).
  { unfold scratch. rewrite !length_splice; [exact Hkeep| |];
      try rewrite length_splice; cbn [List.length Buffer.uint16_le]; lia. }
  assert (Hs3 : scratch_ok (this w) (<[writeBuffer (this w) := scratch]> (heap w)))
    by (apply scratch_ok_insert_write; assumption).
  unfold Buffer.allocUnsafe.
  destruct (Z.ltb_spec len 0); cbn [fst this heap]; [auto|].
  set (h3 := <[writeBuffer (this w) := scratch]> (heap w)) in *.
  set (result := fresh (dom h3)).
  assert (Hres : result <> writeBuffer (this w)).
  { apply fresh_block_ne. unfold h3. rewrite lookup_insert_eq. eauto. }
  assert (Hres' : result <> readBuffer (this w)).
  { apply fresh_block_ne. apply length_some.
    destruct Hs3 as (_ & Hrb3 & _). lia. }
  rewrite copy_from_start by lia. cbn [fst this heap].
  split; [reflexivity|]. rewrite insert_insert_eq.
  apply scratch_ok_insert_other; assumption.
Qed.

(** [write] followed by [parse], for a definition with both flags set. *)
Lemma write_then_parse_flags (r : ResolvedIdentifier) (x : Obj) (w : World) :
  scratch_ok (this w) (heap w) ->
  writeable (definition r) = true ->
  readable (definition r) = true ->
  inverse_codec (definition r) ->
  exists result w1 w2,
    write r (Some x) w = (w1, Ok result)
    /\ parse r result w1 = (w2, Ok x).
Proof.
  intros Hs Hw Hr Hinv.
  assert (Hview : List.length (Buffer.view_bytes (heap w) (writeView (this w)))
                  = Z.to_nat 0x10000).
  { destruct Hs as (_ & _ & Hwb & Hwv & _). rewrite Hwv.
    unfold Buffer.view_bytes, Buffer.length in *.
    cbn [Buffer.byteLength Buffer.byteOffset Buffer.buffer].
    rewrite length_take, length_drop. lia. }
  destruct (Hinv _ x Hview) as (bytes & len & Hwriter & Hbytes & Hlen & Hread).
  rewrite Hview in Hbytes.
  pose proof (write_runs r (Some x) w bytes len Hs Hw Hwriter Hbytes
                ltac:(lia)) as Hrun.
  cbv zeta in Hrun.
  set (scratch := Buffer.uint16_le len ++ Buffer.uint16_le (code r)
                  ++ drop 4 bytes) in *.
  set (h1 := <[writeBuffer (this w) := scratch]> (heap w)) in *.
  set (result := fresh (dom h1)) in *.
  set (w1 := mkWorld (this w) (<[result := take (Z.to_nat len) scratch]> h1)
               (console w)) in *.
  assert (Hscratch : List.length scratch = Z.to_nat 0x10000).
  { unfold scratch, Buffer.uint16_le. cbn [List.length app].
    rewrite length_drop. lia. }
  assert (Hs1 : scratch_ok (this w1) (heap w1)).
  { destruct Hs as (Hne & Hrb & Hwb & Hwv & Hviews).
    assert (Hres : result <> writeBuffer (this w)).
    { apply fresh_block_ne. unfold h1. rewrite lookup_insert_eq. eauto. }
    assert (Hres' : result <> readBuffer (this w)).
    { apply fresh_block_ne. unfold h1. rewrite lookup_insert_ne by congruence.
      apply length_some. lia. }
    unfold scratch_ok, w1. cbn [this heap]. split; [exact Hne|].
    rewrite !length_insert_ne by congruence. unfold h1.
    rewrite length_insert_ne by congruence. split; [exact Hrb|].
    unfold Buffer.length. rewrite contents_insert_eq.
    split; [lia|]. split; [exact Hwv|exact Hviews]. }
  destruct (parse_cases r result w1 Hs1 Hr) as (h2 & Hp1 & _ & Hsmall & _).
  assert (Hinput : Buffer.contents (heap w1) result = take (Z.to_nat len) scratch)
    by apply contents_insert_eq.
  rewrite Hinput in Hsmall.
  destruct Hsmall as (_ & _ & Hp2); [rewrite length_take; lia|].
  exists result, w1, (mkWorld (this w1) h2 (console w1)).
  split; [exact Hrun|].
  rewrite (surjective_pairing (parse r result w1)), Hp1, Hp2. f_equal.
  rewrite (Hread (take (Z.to_nat len) scratch)); [reflexivity| |].
  - rewrite length_take. lia.
  - replace (Z.to_nat len) with (4 + (Z.to_nat len - 4))%nat by lia.
    rewrite <- !take_drop_commute. reflexivity.
Qed.

(** ** The properties of the specification *)

(** C1, as the code has it.  Once a deprecation table is loaded, the flags
    a definition is registered with are: not writeable, and readable as the
    entry says (not readable when it says nothing), exactly when the table
    has an entry for the name and version none of whose bounds admits the
    engine's major patch version; readable and writeable in every other
    case.  The routines are left as they were. *)
Theorem assignDeprecationFlags_flags (p : TeraProtocol)
  (table : gmap string (gmap Z DeprecationEntry)) (n : string) (v : Z)
  (d : Definition_) :
  deprecationData p = Some table ->
  exists d',
    _assignDeprecationFlags p n v d = Ok d'
    /\ reader d' = reader d /\ writer d' = writer d /\ cloner d' = cloner d
    /\ (forall e, deprecation_entry table n v = Some e ->
         no_bound_admits (majorPatchVersion p) e ->
         writeable d' = false /\ readable d' = default false (d_readable e))
    /\ (deprecation_entry table n v = None
        \/ (exists e, deprecation_entry table n v = Some e
                      /\ ~ no_bound_admits (majorPatchVersion p) e) ->
        readable d' = true /\ writeable d' = true).
Proof.
  intros Htable. unfold _assignDeprecationFlags, deprecation_entry.
  rewrite Htable.
  destruct (table !! n ≫= _) as [e|] eqn:He.
  - destruct (_ && _) eqn:Htest;
      (eexists; split; [reflexivity|]; simpl;
       split; [reflexivity|split; [reflexivity|split; [reflexivity|split]]]).
    + intros e' [= <-] _. auto.
    + intros [|(e' & [= <-] & Hn)]; [discriminate|].
      exfalso. apply Hn, no_bound_admits_test, Htest.
    + intros e' [= <-] Hn. apply no_bound_admits_test in Hn. congruence.
    + auto.
  - eexists; split; [reflexivity|]; simpl.
    split; [reflexivity|split; [reflexivity|split; [reflexivity|split]]].
    + discriminate.
    + auto.
Qed.

(** C3, as the code has it.  When the identifier is known to the opcode map
    and no definition is found: with a version table for the name and an
    exact requested version that is not 0 and lies strictly below a latest
    version that is not 0, the failure is Outdated; in every other such case
    (the requested version is 0, or it is not below the latest one, or the
    table is empty, or there is no table at all) it is NotFound. *)
Theorem resolveIdentifier_without_definition (p : TeraProtocol)
  (identifier : Identifier) (n : string) (c : Z) :
  names p identifier n c ->
  (forall request,
      messages p !! n = None ->
      resolveIdentifier p identifier request = Throw (NotFound NoDefinition))
  /\ (forall (vs : gmap Z Definition_) (v : Z),
        messages p !! n = Some vs -> vs !! v = None ->
        (forall l, is_max_key vs l -> l <> 0 -> v <> 0 -> v < l ->
           resolveIdentifier p identifier (Exact v) = Throw Outdated)
        /\ (v = 0 \/ (forall l, is_max_key vs l -> l = 0 \/ l <= v) ->
            resolveIdentifier p identifier (Exact v)
            = Throw (NotFound NoDefinition)))
  /\ (messages p !! n = Some ∅ ->
      resolveIdentifier p identifier Latest = Throw (NotFound NoDefinition)).
Proof.
  intros Hn. split; [|split].
  - intros request Hnone.
    rewrite (resolveIdentifier_named _ _ _ _ _ Hn), Hnone. reflexivity.
  - intros vs v Hvs Hv. split.
    + intros l Hl Hl0 Hv0 Hlt.
      rewrite (resolveIdentifier_named _ _ _ _ _ Hn), Hvs. simpl.
      rewrite Hv, (latest_of_max_key _ _ Hl). simpl.
      destruct (Z.eqb_spec l 0); [contradiction|].
      destruct (Z.eqb_spec v 0); [contradiction|].
      destruct (Z.ltb_spec v l); [reflexivity|lia].
    + intros Hcase.
      rewrite (resolveIdentifier_named _ _ _ _ _ Hn), Hvs. simpl.
      rewrite Hv.
      destruct (Js.Math_max (elements (dom vs))) as [|m] eqn:Hm; simpl.
      * rewrite andb_false_r. reflexivity.
      * apply max_key_of_latest in Hm.
        destruct (Z.eqb_spec m 0); [reflexivity|].
        destruct (Z.eqb_spec v 0); [reflexivity|].
        destruct (Z.ltb_spec v m); [|reflexivity].
        destruct Hcase as [?|Hcase]; [contradiction|].
        destruct (Hcase m Hm); [contradiction|lia].
  - intros Hvs.
    rewrite (resolveIdentifier_named _ _ _ _ _ Hn), Hvs. simpl.
    rewrite dom_empty_L, elements_empty. reflexivity.
Qed.

(** C4.  A definition is an object: [addDefinition] writes the flags into
    the object it is handed and puts that object into the slot, so a slot
    that already holds the same object shows the flags just written.
    With [overwrite] set, [addDefinition] puts its object, flagged for the
    name and version, into the slot, whatever the slot held; without
    [overwrite] it leaves a filled slot, and the whole engine, as it is, and
    fills an empty slot.  In both cases every other slot keeps its object,
    and keeps its flags too unless it holds the very object registered.
    The two loaders register what they load with [overwrite] set exactly
    when the file name carries a platform tag.  So, wherever the files
    stand in the directory or in the bundle, the name and version of a
    registration under a tag end up with the object of the last such
    registration, and an entry that meets no registration under a tag keeps
    its object; the flags are those of that registration, or those the
    entry had, when no later file hands the same object in for another
    slot. *)
Theorem overwrite_rule :
  (forall w n v o d table,
      compiled_of o = inr d ->
      deprecationData (this w) = Some table ->
      exists w',
        addDefinition n v o true w = (w', Ok tt)
        /\ registered (this w') n v
           = Some (flagged table (majorPatchVersion (this w)) n v d)
        /\ forall n' v', ~ (n = n' /\ v = v') ->
             object_at (messages (this w')) n' v'
             = object_at (messages (this w)) n' v'
             /\ forall old,
                  registered (this w) n' v' = Some old ->
                  registered (this w') n' v'
                  = Some (if decide (ident old = ident d)
                          then flagged table (majorPatchVersion (this w)) n v old
                          else old))
  /\ (forall w n v o d old,
        compiled_of o = inr d ->
        registered (this w) n v = Some old ->
        addDefinition n v o false w = (w, Ok tt))
  /\ (forall w n v o d table,
        compiled_of o = inr d ->
        deprecationData (this w) = Some table ->
        registered (this w) n v = None ->
        exists w',
          addDefinition n v o false w = (w', Ok tt)
          /\ registered (this w') n v
             = Some (flagged table (majorPatchVersion (this w)) n v d)
          /\ forall n' v', ~ (n = n' /\ v = v') ->
               object_at (messages (this w')) n' v'
               = object_at (messages (this w)) n' v'
               /\ forall old,
                    registered (this w) n' v' = Some old ->
                    registered (this w') n' v'
                    = Some (if decide (ident old = ident d)
                            then flagged table (majorPatchVersion (this w)) n v old
                            else old))
  /\ (forall p pn o d,
        applies p pn = true ->
        compiled_of o = inr d ->
        registration p pn (inr (Some o))
        = Register (Filename.name pn) (Filename.version pn) d
            (bool_decide (is_Some (Filename.platform pn))))
  /\ (forall table defPath file w,
        deprecationData (this w) = Some table ->
        performs table (custom_action (this w) defPath file) w
          (loadCustomFile defPath file w))
  /\ (forall table e w,
        deprecationData (this w) = Some table ->
        performs table (default_action (this w) e) w (loadDefaultEntry e w))
  /\ (forall defPath before f after table w n v d,
        readdirSync defPath = inr (before ++ f :: after) ->
        deprecationData (this w) = Some table ->
        Forall (fun g => outcome_of (custom_action (this w) defPath g) = Ok tt)
          (before ++ f :: after) ->
        custom_action (this w) defPath f = Register n v d true ->
        Forall (fun g => ~ tagged_for n v (custom_action (this w) defPath g))
          after ->
        exists w',
          loadCustomDefinitions defPath w = (w', Ok tt)
          /\ object_at (messages (this w')) n v = Some (unflagged d)
          /\ (Forall (fun g => ~ hands_in (ident d) n v
                                  (custom_action (this w) defPath g)) after ->
              registered (this w') n v
              = Some (flagged table (majorPatchVersion (this w)) n v d)))
  /\ (forall defPath files table w n v old,
        readdirSync defPath = inr files ->
        deprecationData (this w) = Some table ->
        Forall (fun g => outcome_of (custom_action (this w) defPath g) = Ok tt)
          files ->
        registered (this w) n v = Some old ->
        Forall (fun g => ~ tagged_for n v (custom_action (this w) defPath g))
          files ->
        exists w',
          loadCustomDefinitions defPath w = (w', Ok tt)
          /\ object_at (messages (this w')) n v = Some (unflagged old)
          /\ (Forall (fun g => ~ hands_in (ident old) n v
                                  (custom_action (this w) defPath g)) files ->
              registered (this w') n v = Some old))
  /\ (forall data defs before e after w n v d,
        (fun f => Filename.match_filename (Filename.basename f))
          <$> (b_protocol data).*1 = Some <$> defs ->
        b_protocol data = before ++ e :: after ->
        Forall (fun g => outcome_of (default_action (prepared data defs (this w)) g)
                         = Ok tt) (b_protocol data) ->
        default_action (prepared data defs (this w)) e = Register n v d true ->
        Forall (fun g => ~ tagged_for n v
                           (default_action (prepared data defs (this w)) g))
          after ->
        exists w',
          loadDefaultBundle data w = (w', Ok tt)
          /\ object_at (messages (this w')) n v = Some (unflagged d)
          /\ (Forall (fun g => ~ hands_in (ident d) n v
                                  (default_action (prepared data defs (this w)) g))
                after ->
              registered (this w') n v
              = Some (flagged (default ∅ (b_deprecated data))
                        (majorPatchVersion (this w)) n v d))).
Proof.
  assert (Hothers : forall w n v d table n' v',
    ~ (n = n' /\ v = v') ->
    let fd := flagged table (majorPatchVersion (this w)) n v d in
    object_at (store n v fd (messages (this w))) n' v'
    = object_at (messages (this w)) n' v'
    /\ forall old,
         registered (this w) n' v' = Some old ->
         entry (store n v fd (messages (this w))) n' v'
         = Some (if decide (ident old = ident d)
                 then flagged table (majorPatchVersion (this w)) n v old
                 else old)).
  { intros w n v d table n' v' Hne fd. split.
    - rewrite object_at_store, decide_False by exact Hne. reflexivity.
    - intros old Hold. rewrite entry_store, decide_False by exact Hne.
      unfold registered in Hold. rewrite Hold. cbn. f_equal.
      unfold reflag, fd. rewrite ident_flagged.
      destruct (decide (ident old = ident d)); [|reflexivity].
      unfold flagged. destruct (deprecation_entry table n v); [|reflexivity].
      destruct (_ && _); reflexivity. }
  split; [|split; [|split; [|split; [|split; [|split; [|split; [|split]]]]]]].
  - intros w n v o d table Hc Ht.
    rewrite (addDefinition_stores _ _ _ _ _ table _ Hc Ht) by auto.
    eexists. split; [reflexivity|]. unfold registered at 1 3.
    cbn [this messages set_messages].
    split; [rewrite entry_store, decide_True by auto; reflexivity|].
    intros n' v' Hne. apply Hothers, Hne.
  - intros w n v o d old Hc Hold. exact (addDefinition_keeps _ _ _ _ _ _ Hc Hold).
  - intros w n v o d table Hc Ht Hnone.
    rewrite (addDefinition_stores _ _ _ _ _ table _ Hc Ht) by auto.
    eexists. split; [reflexivity|]. unfold registered at 1 3.
    cbn [this messages set_messages].
    split; [rewrite entry_store, decide_True by auto; reflexivity|].
    intros n' v' Hne. apply Hothers, Hne.
  - intros p pn o d Ha Hc. unfold registration. rewrite Ha, Hc. reflexivity.
  - intros table defPath file w Ht. apply loadCustomFile_performs, Ht.
  - intros table e w Ht. apply loadDefaultEntry_performs, Ht.
  - intros defPath before f after table w n v d Hdir Ht Hok Hf Hafter.
    destruct (loadCustomDefinitions_runs _ _ table w Hdir Ht Hok) as (c & Hrun).
    eexists. split; [exact Hrun|]. unfold registered.
    cbn [this messages set_messages].
    rewrite fmap_app, fmap_cons, Hf. split.
    + apply fold_tagged. apply Forall_fmap. exact Hafter.
    + intros Hother. apply fold_tagged_exact; apply Forall_fmap; assumption.
  - intros defPath files table w n v old Hdir Ht Hok Hold Hno.
    destruct (loadCustomDefinitions_runs _ _ table w Hdir Ht Hok) as (c & Hrun).
    eexists. split; [exact Hrun|]. unfold registered.
    cbn [this messages set_messages]. split.
    + apply fold_keeps; [|apply Forall_fmap; exact Hno].
      unfold object_at. unfold registered in Hold. rewrite Hold. reflexivity.
    + intros Hother.
      apply fold_keeps_exact; [exact Hold| |]; apply Forall_fmap; assumption.
  - intros data defs before e after w n v d Hparse Hsplit Hok He Hafter.
    destruct (loadDefaultBundle_runs data defs w Hparse Hok) as (c & Hrun).
    eexists. split; [exact Hrun|]. unfold registered.
    cbn [this messages set_messages set_loaded].
    rewrite Hsplit, fmap_app, fmap_cons, He. split.
    + apply fold_tagged. apply Forall_fmap. exact Hafter.
    + intros Hother. apply fold_tagged_exact; apply Forall_fmap; assumption.
Qed.

(** C5, as the code has it.  When the definition is writeable and its
    writer, run on the write view, returns an end offset [len] within the
    view, [write] returns a buffer that did not exist before, is neither
    scratch region, and holds exactly the first [len] bytes of the write
    scratch region; that region starts with the low 16 bits of [len] and
    of the opcode, low byte first, followed by what the writer wrote from
    offset 4 on.  Nothing else changes, and a later change of the scratch
    region does not reach the returned buffer. *)
Theorem write_result (r : ResolvedIdentifier) (data : option Obj) (w : World)
  (bytes : list Buffer.byte) (len : Z) :
  scratch_ok (this w) (heap w) ->
  writeable (definition r) = true ->
  writer (definition r) (Buffer.view_bytes (heap w) (writeView (this w)))
    (default emptyObj data) = (bytes, inr len) ->
  List.length bytes = Z.to_nat 0x10000 ->
  0 <= len <= 0x10000 ->
  exists result w',
    write r data w = (w', Ok result)
    /\ this w' = this w /\ console w' = console w
    /\ heap w !! result = None
    /\ result <> writeBuffer (this w) /\ result <> readBuffer (this w)
    /\ (forall b, b <> result -> b <> writeBuffer (this w) ->
         heap w' !! b = heap w !! b)
    /\ scratch_ok (this w') (heap w')
    /\ (forall bs,
          Buffer.contents (<[writeBuffer (this w) := bs]> (heap w')) result
          = Buffer.contents (heap w') result)
    /\ let scratch := Buffer.contents (heap w') (writeBuffer (this w)) in
       Buffer.contents (heap w') result = take (Z.to_nat len) scratch
       /\ Buffer.length (heap w') result = len
       /\ take 2 scratch = Buffer.uint16_le len
       /\ take 2 (drop 2 scratch) = Buffer.uint16_le (code r)
       /\ drop 4 scratch = drop 4 bytes
       /\ Buffer.read_uint16_le scratch = Some (len mod 0x10000)
       /\ Buffer.read_uint16_le (drop 2 scratch) = Some (code r mod 0x10000)
       /\ (4 <= len ->
           take 4 (Buffer.contents (heap w') result)
           = Buffer.uint16_le len ++ Buffer.uint16_le (code r)).
Proof.
  intros Hs Hw Hwriter Hbytes Hlen.
  pose proof (write_runs r data w bytes len Hs Hw Hwriter Hbytes Hlen) as Hrun.
  cbv zeta in Hrun.
  destruct Hs as (Hne & Hrb & Hwb & Hwv & Hviews).
  set (scratch := Buffer.uint16_le len ++ Buffer.uint16_le (code r)
                  ++ drop 4 bytes) in *.
  set (h1 := <[writeBuffer (this w) := scratch]> (heap w)) in *.
  set (result := fresh (dom h1)) in *.
  assert (Hscratch : List.length scratch = Z.to_nat 0x10000).
  { unfold scratch, Buffer.uint16_le. cbn [List.length app].
    rewrite length_drop. lia. }
  assert (Hres : result <> writeBuffer (this w)).
  { apply fresh_block_ne. unfold h1. rewrite lookup_insert_eq. eauto. }
  assert (Hres' : result <> readBuffer (this w)).
  { apply fresh_block_ne. unfold h1. rewrite lookup_insert_ne by congruence.
    apply length_some. lia. }
  assert (Hfresh : heap w !! result = None).
  { pose proof (fresh_block h1) as Hf. fold result in Hf. unfold h1 in Hf.
    rewrite lookup_insert_ne in Hf by congruence. exact Hf. }
  eexists result, _. split; [exact Hrun|]. cbn [this heap console].
  split; [reflexivity|]. split; [reflexivity|]. split; [exact Hfresh|].
  split; [exact Hres|]. split; [exact Hres'|]. split.
  { intros b Hb Hb'. unfold h1. rewrite !lookup_insert_ne by congruence.
    reflexivity. }
  split.
  { unfold scratch_ok. split; [exact Hne|].
    rewrite !length_insert_ne by congruence. unfold h1.
    rewrite length_insert_ne by congruence. split; [exact Hrb|].
    unfold Buffer.length. rewrite contents_insert_eq.
    split; [lia|]. split; [exact Hwv|exact Hviews]. }
  split.
  { intros bs. rewrite contents_insert_ne by congruence. reflexivity. }
  assert (Hcw : Buffer.contents (<[result := take (Z.to_nat len) scratch]> h1)
                  (writeBuffer (this w)) = scratch).
  { rewrite contents_insert_ne by exact Hres. apply contents_insert_eq. }
  assert (Hcr : Buffer.contents (<[result := take (Z.to_nat len) scratch]> h1)
                  result = take (Z.to_nat len) scratch)
    by apply contents_insert_eq.
  cbv zeta. unfold Buffer.length. rewrite Hcw, Hcr.
  split; [reflexivity|].
  split; [rewrite length_take; lia|].
  split; [reflexivity|]. split; [reflexivity|]. split; [reflexivity|].
  split; [apply read_uint16_le_spec|].
  split; [apply (read_uint16_le_spec (code r))|].
  intros H4. rewrite take_take.
  replace (Nat.min 4 (Z.to_nat len)) with 4%nat by lia. reflexivity.
Qed.

(** C7, as the code has it.  When the identifier is known to the opcode map
    and the name has at least one registered version, resolving the latest
    version succeeds with the definition stored under the largest version
    key, and reports that key both as version and as latest version.  The
    key is read off the registry of the call: once a higher version has
    been stored, the same call answers with it. *)
Theorem resolveIdentifier_latest (p : TeraProtocol) (identifier : Identifier)
  (n : string) (c : Z) (vs : gmap Z Definition_) (k : Z) (d0 : Definition_) :
  names p identifier n c ->
  messages p !! n = Some vs ->
  vs !! k = Some d0 ->
  (exists l d,
      is_max_key vs l /\ vs !! l = Some d
      /\ resolveIdentifier p identifier Latest
         = Ok (mkResolvedIdentifier n c (Some (Js.Num l)) (Some (Js.Num l)) d))
  /\ (forall l' d',
        (forall j, is_Some (vs !! j) -> j < l') ->
        resolveIdentifier
          (set_messages (<[n := <[l' := d']> vs]> (messages p)) p)
          identifier Latest
        = Ok (mkResolvedIdentifier n c (Some (Js.Num l')) (Some (Js.Num l')) d')).
Proof.
  intros Hn Hvs Hk. split.
  - destruct (max_key_exists _ _ _ Hk) as [l Hl].
    destruct (proj1 Hl) as [d Hd]. exists l, d. split; [exact Hl|].
    split; [exact Hd|].
    rewrite (resolveIdentifier_named _ _ _ _ _ Hn), Hvs. simpl.
    rewrite (latest_of_max_key _ _ Hl). simpl. rewrite Hd. reflexivity.
  - intros l' d' Hall.
    assert (Hn' : names (set_messages (<[n := <[l' := d']> vs]> (messages p)) p)
                    identifier n c) by exact Hn.
    rewrite (resolveIdentifier_named _ _ _ _ _ Hn'). simpl.
    rewrite lookup_insert_eq. simpl.
    assert (Hl' : is_max_key (<[l' := d']> vs) l').
    { split; [rewrite lookup_insert_eq; eauto|].
      intros j Hj. destruct (decide (l' = j)) as [->|Hne]; [lia|].
      rewrite lookup_insert_ne in Hj by exact Hne.
      specialize (Hall j Hj). lia. }
    rewrite (latest_of_max_key _ _ Hl'). simpl.
    rewrite lookup_insert_eq. reflexivity.
Qed.

(** C8.  [parse] fails with Deprecated exactly when the definition is not
    readable, [write] exactly when it is not writeable; such a failure
    leaves the engine, the buffers and the log as they were, and returns
    nothing. *)
Theorem deprecated_iff_flag (r : ResolvedIdentifier) (buffer : positive)
  (data : option Obj) (w : World) :
  ((parse r buffer w).2 = Throw (Deprecated Reading)
   <-> readable (definition r) = false)
  /\ (readable (definition r) = false ->
      parse r buffer w = (w, Throw (Deprecated Reading)))
  /\ ((write r data w).2 = Throw (Deprecated Writing)
      <-> writeable (definition r) = false)
  /\ (writeable (definition r) = false ->
      write r data w = (w, Throw (Deprecated Writing)))
  /\ (forall e, (parse r buffer w).2 = Throw (Deprecated e) -> e = Reading)
  /\ (forall e, (write r data w).2 = Throw (Deprecated e) -> e = Writing).
Proof.
  unfold parse, write.
  destruct (readable (definition r)) eqn:Hr,
           (writeable (definition r)) eqn:Hw; simpl;
    unfold mbind, M_bind, mret, M_ret, get_this, get_heap, put_heap, lift,
      throw; simpl.
  all: unfold Buffer.copy, Buffer.setUint16_le, Buffer.allocUnsafe.
  all: repeat match goal with
       | |- context [of_call ?x] => destruct x; simpl
       | |- context [if ?c then Throw RangeError else _] => destruct c; simpl
       end.
  all: repeat split; try congruence; try discriminate.
  all: try (intros e [= <-]; reflexivity).
Qed.

(** C9.  In an engine whose scratch regions are in order and whose registry
    holds definitions as [addDefinition] flags them, take what an
    identifier resolves to.  If its reader and writer are inverses of each
    other then, for every value, either [write] returns a buffer and
    [parse] of that buffer returns the value, or the definition is
    deprecated for writing and [write] returns no buffer at all. *)
Theorem write_then_parse (identifier : Identifier) (request : VersionRequest)
  (r : ResolvedIdentifier) (x : Obj) (w : World) :
  scratch_ok (this w) (heap w) ->
  flags_sound (this w) ->
  resolveIdentifier (this w) identifier request = Ok r ->
  inverse_codec (definition r) ->
  (writeable (definition r) = true ->
   exists result w1 w2,
     write r (Some x) w = (w1, Ok result)
     /\ parse r result w1 = (w2, Ok x))
  /\ (writeable (definition r) = false ->
      write r (Some x) w = (w, Throw (Deprecated Writing))).
Proof.
  intros Hs Hflags Hr Hinv. split.
  - intros Hw. destruct (resolveIdentifier_registered _ _ _ _ Hr) as (v & Hv).
    apply write_then_parse_flags; try assumption.
    exact (Hflags _ _ _ Hv Hw).
  - intros Hw. unfold write. rewrite Hw. reflexivity.
Qed.

(** C10.  The constructor, which returns on every valid platform tag,
    leaves a read view of [i] bytes over the read scratch region under every
    index [i] from 0 to 65536 inclusive and nothing under any other index.
    So for an input of at most 65536 bytes the lookup succeeds, the scratch
    region starts with the whole input, and the reader is handed exactly the
    input's bytes; for a longer input the lookup yields nothing, the reader
    is handed [undefined], and the scratch region holds the first 65536
    bytes only. *)
Theorem parse_view_lookup :
  (forall reg major minor pm tag h,
      default "pc" tag ∈ PLATFORMS ->
      exists p h',
        constructor reg major minor pm tag h = Ok (p, h')
        /\ scratch_ok p h'
        /\ Js.arr_length (readViews p) = 0x10001)
  /\ (forall (r : ResolvedIdentifier) (buffer : positive) (w : World),
        scratch_ok (this w) (heap w) ->
        readable (definition r) = true ->
        let input := Buffer.contents (heap w) buffer in
        let size := Z.of_nat (List.length input) in
        exists h',
          (parse r buffer w).1 = mkWorld (this w) h' (console w)
          /\ Buffer.length h' (readBuffer (this w)) = 0x10000
          /\ (size <= 0x10000 ->
              Js.array_get (readViews (this w)) size
              = Some (Buffer.mkDataView (readBuffer (this w)) 0 size)
              /\ Buffer.view_bytes h'
                   (Buffer.mkDataView (readBuffer (this w)) 0 size) = input
              /\ (parse r buffer w).2
                 = of_call (reader (definition r) (Some input)))
          /\ (0x10000 < size ->
              Js.array_get (readViews (this w)) size = None
              /\ Buffer.contents h' (readBuffer (this w))
                 = take (Z.to_nat 0x10000) input
              /\ Buffer.contents h' (readBuffer (this w)) <> input
              /\ (parse r buffer w).2
                 = of_call (reader (definition r) None))).
Proof.
  split.
  - intros reg major minor pm tag h Htag.
    destruct (constructor_ok reg major minor pm tag h Htag)
      as (rb & views & wb & h' & Hc & Hs & Hl).
    eexists _, h'. split; [exact Hc|]. split; [exact Hs|exact Hl].
  - exact parse_cases.
Qed.

(** ** Further properties of the engine *)

(** *** File names *)

(** X1.  [parseDefinitionFilename] returns an identity exactly on the last
    path components that the regular expression accepts, with the groups
    it captures, and then logs nothing.  On every other path it returns
    [null] after one log line: a warning when the path ends in [.def] or
    [.js], a debug line otherwise.  It never throws and never touches the
    engine or the heap. *)
Theorem parseDefinitionFilename_regex (file : string) (w : World) :
  (forall pn,
      Filename.filename_regex (Filename.basename file) pn ->
      parseDefinitionFilename file w = (w, Ok (Some pn)))
  /\ ((forall pn, ~ Filename.filename_regex (Filename.basename file) pn) ->
      exists line,
        parseDefinitionFilename file w
        = (mkWorld (this w) (heap w) (console w ++ [line]), Ok None)
        /\ (Filename.endsWith file ".def" = true
            \/ Filename.endsWith file ".js" = true ->
            line = (warn, InvalidFilenameSyntax (Filename.basename file)))
        /\ (Filename.endsWith file ".def" = false ->
            Filename.endsWith file ".js" = false ->
            line = (debug, SkippingPath (Filename.basename file)))).
Proof.
  unfold parseDefinitionFilename. split.
  - intros pn Hpn. apply match_filename_regex in Hpn. rewrite Hpn.
    destruct w. reflexivity.
  - intros Hno.
    destruct (Filename.match_filename (Filename.basename file)) as [pn|] eqn:Hm.
    { destruct (Hno pn). apply match_filename_regex, Hm. }
    destruct (Filename.endsWith file ".def") eqn:Hdef;
      [|destruct (Filename.endsWith file ".js") eqn:Hjs];
      cbn [orb]; eexists; (split; [reflexivity|]); split; try reflexivity;
      try discriminate; intros []; discriminate.
Qed.

(** X2.  An identity that [parseDefinitionFilename] returns has a name of
    one or more word characters, a version that is not negative and, when
    it has a platform tag, a tag of one or more word characters; the call
    has logged nothing. *)
Theorem parsed_name_wellformed (file : string) (w : World)
  (pn : Filename.ParsedName) :
  (parseDefinitionFilename file w).2 = Ok (Some pn) ->
  Filename.word_plus (Filename.name pn) = true
  /\ 0 <= Filename.version pn
  /\ (forall tag, Filename.platform pn = Some tag ->
                  Filename.word_plus tag = true)
  /\ (parseDefinitionFilename file w).1 = w.
Proof.
  unfold parseDefinitionFilename.
  destruct (Filename.match_filename (Filename.basename file)) as [pn'|] eqn:Hm.
  - intros [= ->]. split; [|split; [exact (match_filename_version _ _ Hm)|split]].
    + apply match_filename_regex in Hm. destruct Hm; assumption.
    + apply match_filename_regex in Hm. destruct Hm; cbn; intros tag [= <-].
      assumption.
    + reflexivity.
  - destruct (_ || _); discriminate.
Qed.

(** *** Construction and the calls that need a loaded engine *)

Lemma constructor_blocks reg major minor pm tag h p h' :
  constructor reg major minor pm tag h = Ok (p, h') ->
  h !! readBuffer p = None
  /\ h !! writeBuffer p = None
  /\ forall b, is_Some (h !! b) -> h' !! b = h !! b.
Proof.
  unfold constructor. destruct (negb _); [discriminate|].
  rewrite allocUnsafe_ok by lia. cbn [mbind Outcome_bind].
  set (rb := fresh (dom h)).
  generalize (uninit rb <$> seqZ 0 0x10000). intros bs1.
  set (h1 := <[rb := bs1]> h).
  destruct (for_le _ _ _ _) as [views|]; [|discriminate].
  cbn [mbind Outcome_bind]. rewrite allocUnsafe_ok by lia.
  cbn [mbind Outcome_bind]. set (wb := fresh (dom h1)).
  generalize (uninit wb <$> seqZ 0 0x10000). intros bs2.
  destruct (Buffer.new_DataView _ wb 0 0x10000); [|discriminate].
  cbn [mbind Outcome_bind]. intros Heq.
  injection Heq as Hp Hh. subst p h'.
  cbn [readBuffer writeBuffer].
  assert (Hrb : h !! rb = None) by apply fresh_block.
  assert (Hwb : h1 !! wb = None) by apply fresh_block.
  assert (Hne : wb <> rb).
  { apply fresh_block_ne. unfold h1. rewrite lookup_insert_eq. eauto. }
  split; [exact Hrb|]. split.
  - unfold h1 in Hwb. rewrite lookup_insert_ne in Hwb by congruence. exact Hwb.
  - intros b [bs Hb].
    assert (b <> rb) by congruence.
    assert (b <> wb).
    { intros ->. unfold h1 in Hwb. rewrite lookup_insert_ne in Hwb by congruence.
      congruence. }
    unfold h1. rewrite !lookup_insert_ne by congruence. reflexivity.
Qed.

(** X3.  The constructor throws "Invalid platform!" exactly when the
    platform tag, "pc" when none is given, is not one of the three it
    knows.  Otherwise it returns an engine with the settings it was
    handed, an empty registry, not loaded and without any table; its two
    scratch regions are blocks that did not exist before, and every block
    that did is left as it was. *)
Theorem constructor_result (reg : string) (major minor : Z)
  (pm : ProtocolMap) (tag : option string) (h : Buffer.Heap) :
  (default "pc" tag ∉ PLATFORMS ->
   constructor reg major minor pm tag h = Throw InvalidPlatform)
  /\ (default "pc" tag ∈ PLATFORMS ->
      exists p h',
        constructor reg major minor pm tag h = Ok (p, h')
        /\ region p = reg /\ majorPatchVersion p = major
        /\ minorPatchVersion p = minor /\ platform p = default "pc" tag
        /\ protocolMap p = pm
        /\ messages p = ∅ /\ loaded p = false
        /\ lowestDefaultDefVersions p = None /\ deprecationData p = None
        /\ defaultDefinitions p = None
        /\ h !! readBuffer p = None /\ h !! writeBuffer p = None
        /\ forall b, is_Some (h !! b) -> h' !! b = h !! b).
Proof.
  split.
  - intros Htag. unfold constructor.
    rewrite bool_decide_eq_false_2 by exact Htag. reflexivity.
  - intros Htag.
    destruct (constructor_ok reg major minor pm tag h Htag)
      as (rb & views & wb & h' & Hc & _).
    destruct (constructor_blocks _ _ _ _ _ _ _ _ Hc) as (Hrb & Hwb & Hold).
    eexists _, h'. split; [exact Hc|]. cbn.
    repeat (split; [reflexivity|]). split; [exact Hrb|]. split; [exact Hwb|].
    exact Hold.
Qed.

(** X4.  On an engine that [loadDefaultBundle] has not prepared there is no
    deprecation table: [addDefinition], once it is past the compiler and
    the overwrite test, throws a [TypeError].  By then it has created the
    version table of the name when there was none, and has written both
    flags into the object: the name is left with a table, empty when it
    had none; no slot gets another object, and the slots that hold the
    object handed in show it readable and writeable. *)
Theorem addDefinition_before_load (n : string) (v : Z) (o : DefObject)
  (d : Definition_) (overwrite : bool) (w : World) :
  deprecationData (this w) = None ->
  compiled_of o = inr d ->
  overwrite = true \/ registered (this w) n v = None ->
  exists w',
    addDefinition n v o overwrite w = (w', Throw TypeError)
    /\ heap w' = heap w /\ console w' = console w
    /\ messages (this w') !! n
       = Some (reflag (ident d) true true
                 <$> default ∅ (messages (this w) !! n))
    /\ (forall n', n' <> n ->
          messages (this w') !! n'
          = (fun versions : gmap Z Definition_ =>
               reflag (ident d) true true <$> versions)
              <$> messages (this w) !! n')
    /\ forall n' v',
         registered (this w') n' v'
         = reflag (ident d) true true <$> registered (this w) n' v'.
Proof.
  intros Hnone Hc Hslot. rewrite (addDefinition_compiled _ _ _ _ _ Hc).
  rewrite add_to_map_runs.
  assert (Htest : overwrite
                  || negb (bool_decide (is_Some (registered (this w) n v)))
                  = true).
  { destruct Hslot as [->|Hreg]; [reflexivity|].
    rewrite Hreg, bool_decide_eq_false_2 by (intros [? ?]; discriminate).
    apply orb_true_r. }
  rewrite Htest. unfold _assignDeprecationFlags. rewrite Hnone.
  eexists. split; [reflexivity|]. cbn [this heap console messages set_messages].
  split; [reflexivity|]. split; [reflexivity|].
  split; [|split].
  - unfold write_through, with_table. rewrite lookup_fmap.
    destruct (messages (this w) !! n) as [vs|] eqn:Hn.
    + rewrite Hn. reflexivity.
    + rewrite lookup_insert_eq. reflexivity.
  - intros n' Hne. unfold write_through, with_table. rewrite lookup_fmap.
    destruct (messages (this w) !! n) as [vs|] eqn:Hn; [reflexivity|].
    rewrite lookup_insert_ne by congruence. reflexivity.
  - intros n' v'. unfold registered. cbn [messages set_messages].
    rewrite entry_write_through, entry_with_table. reflexivity.
Qed.




(** *** The bundle *)

Lemma identities_parse (keys : list string) :
  Forall (fun key => is_Some (identity_of key)) keys ->
  exists defs, identity_of <$> keys = Some <$> defs.
Proof.
  induction 1 as [|key keys [pn Hpn] _ [defs IH]].
  - exists []. reflexivity.
  - exists (pn :: defs). cbn. rewrite Hpn, IH. reflexivity.
Qed.

Lemma identities_member (keys : list string)
  (defs : list Filename.ParsedName) (pn : Filename.ParsedName) :
  identity_of <$> keys = Some <$> defs ->
  pn ∈ defs <-> exists key, key ∈ keys /\ identity_of key = Some pn.
Proof.
  intros Heq. split.
  - intros Hpn.
    assert (Hin : Some pn ∈ identity_of <$> keys).
    { rewrite Heq. apply list_elem_of_fmap. exists pn. auto. }
    apply list_elem_of_fmap in Hin as (key & Hkey & Hin). eauto.
  - intros (key & Hkey & Hid).
    assert (Hin : Some pn ∈ Some <$> defs).
    { rewrite <- Heq. apply list_elem_of_fmap. exists key. auto. }
    apply list_elem_of_fmap in Hin as (pn' & [= ->] & Hin). exact Hin.
Qed.

Lemma first_unparsed {A} (l : list (option A)) :
  None ∈ l -> exists defs rest, l = (Some <$> defs) ++ None :: rest.
Proof.
  induction l as [|[a|] l IH]; intros Hin.
  - inversion Hin.
  - apply elem_of_cons in Hin as [Hin|Hin]; [discriminate|].
    destruct (IH Hin) as (defs & rest & ->).
    exists (a :: defs), rest. reflexivity.
  - exists [], l. reflexivity.
Qed.

(** The tables [loadDefaultBundle] leaves, whether its loop returns or
    throws. *)
Lemma loadDefaultBundle_tables data (defs : list Filename.ParsedName)
  (w : World) :
  identity_of <$> (b_protocol data).*1 = Some <$> defs ->
  let p := this (loadDefaultBundle data w).1 in
  lowestDefaultDefVersions p = Some (lowest_versions defs)
  /\ deprecationData p = Some (default ∅ (b_deprecated data))
  /\ defaultDefinitions p
     = Some (list_to_set
               ((fun d => (Filename.name d, Filename.version d)) <$> defs)).
Proof.
  intros Hparse.
  destruct (loadDefaultBundle_prepared data defs w Hparse) as (c & Hrun).
  rewrite Hrun. clear Hrun.
  destruct (loop_frame loadDefaultEntry default_action
              (default ∅ (b_deprecated data))
              ltac:(intros; apply loadDefaultEntry_performs; assumption)
              (b_protocol data)
              (mkWorld (prepared data defs (this w)) (heap w) c) eq_refl)
    as (m & c' & o & Hloop).
  unfold mbind, M_bind. rewrite Hloop.
  destruct o as [[]|e]; cbn; auto.
Qed.

(** X6.  After [loadDefaultBundle] on a bundle whose keys all follow the
    naming convention, [isDefaultDefinition(name, version)] answers true
    exactly when some key of the bundle parses to that name and version,
    whatever its platform tag and whether or not a definition was
    registered for it, and [isCustomDefinition] answers the opposite.  This
    holds even when the loop over the entries was cut short by an
    exception. *)
Theorem isDefaultDefinition_bundle (data : Bundle) (w : World) (n : string)
  (v : Z) :
  Forall (fun key => is_Some (identity_of key)) (b_protocol data).*1 ->
  exists b,
    isDefaultDefinition (this (loadDefaultBundle data w).1) n v = Ok b
    /\ isCustomDefinition (this (loadDefaultBundle data w).1) n v
       = Ok (negb b)
    /\ (b = true <->
        exists key pn,
          key ∈ (b_protocol data).*1 /\ identity_of key = Some pn
          /\ Filename.name pn = n /\ Filename.version pn = v).
Proof.
  intros Hkeys. destruct (identities_parse _ Hkeys) as [defs Hdefs].
  destruct (loadDefaultBundle_tables data defs w Hdefs) as (_ & _ & Hids).
  unfold isCustomDefinition, isDefaultDefinition. rewrite Hids.
  eexists. split; [reflexivity|]. split; [reflexivity|].
  rewrite bool_decide_eq_true, elem_of_list_to_set, list_elem_of_fmap.
  split.
  - intros (pn & [= -> ->] & Hpn).
    apply (identities_member _ _ _ Hdefs) in Hpn as (key & Hkey & Hid).
    exists key, pn. auto.
  - intros (key & pn & Hkey & Hid & <- & <-). exists pn.
    split; [reflexivity|]. apply (identities_member _ _ _ Hdefs). eauto.
Qed.

(** The object of a slot after some actions is the one the slot held or
    one that an action registered for it. *)
Lemma fold_origin table major (acts : list Action) m n v d :
  object_at (foldl (apply_action table major) m acts) n v = Some d ->
  object_at m n v = Some d
  \/ exists d0 o, Register n v d0 o ∈ acts /\ d = unflagged d0.
Proof.
  revert m. induction acts as [|a acts IH]; intros m; cbn [foldl].
  - auto.
  - intros Hd. destruct (IH _ Hd) as [Hm|(d0 & o & Hin & ->)].
    + rewrite object_at_action in Hm.
      destruct a as [|n' v' d' o|e]; auto.
      destruct (decide (n' = n /\ v' = v)) as [[-> ->]|Hne]; [|auto].
      destruct o.
      * injection Hm as <-. right. exists d', true. split; [left|reflexivity].
      * destruct (object_at m n v) as [old|] eqn:Hold; [auto|].
        injection Hm as <-. right. exists d', false.
        split; [left|reflexivity].
    + right. exists d0, o. split; [right; exact Hin|reflexivity].
Qed.

Lemma fold_flags table major (all acts : list Action) m :
  (forall a, a ∈ acts -> a ∈ all) ->
  (forall n v d, entry m n v = Some d -> flags_from table major all d) ->
  forall n v d,
    entry (foldl (apply_action table major) m acts) n v = Some d ->
    flags_from table major all d.
Proof.
  revert m. induction acts as [|a acts IH]; intros m Hsub Hm; [exact Hm|].
  cbn [foldl]. apply IH; [intros b Hb; apply Hsub; right; exact Hb|].
  assert (Ha : a ∈ all) by (apply Hsub; left).
  destruct a as [|n' v' d' o|e]; cbn [apply_action]; try exact Hm.
  assert (Hnew : flags_from table major all (flagged table major n' v' d')).
  { exists n', v', d', o. rewrite ident_flagged. auto. }
  intros n v d. rewrite entry_register.
  destruct (decide (n' = n /\ v' = v)) as [[-> ->]|Hne].
  - destruct o; [intros [= <-]; exact Hnew|].
    destruct (entry m n v) as [old|] eqn:Hold.
    + intros [= <-]. exact (Hm _ _ _ Hold).
    + intros [= <-]. exact Hnew.
  - destruct (_ || _); [|apply Hm].
    destruct (entry m n v) as [old|] eqn:Hold; [|discriminate].
    cbn. intros [= <-]. unfold reflag. rewrite ident_flagged.
    destruct (decide (ident old = ident d')) as [Hi|Hi];
      [|exact (Hm _ _ _ Hold)].
    exists n', v', d', o. cbn. auto.
Qed.


Lemma applies_platform p pn :
  applies p pn = true ->
  Filename.platform pn = None \/ Filename.platform pn = Some (platform p).
Proof.
  unfold applies. destruct (Filename.platform pn) as [tag|]; [|auto].
  intros Heq. apply String.eqb_eq in Heq as ->. auto.
Qed.

Lemma registration_register p pn loaded n v d o :
  registration p pn loaded = Register n v d o ->
  Filename.name pn = n /\ Filename.version pn = v /\ applies p pn = true
  /\ o = tagged pn.
Proof.
  unfold registration. destruct loaded as [e|[obj|]]; try discriminate.
  destruct (applies p pn); [|discriminate].
  destruct (compiled_of obj); [discriminate|]. intros [= <- <- _ <-]. auto.
Qed.

Lemma default_action_register p e n v d o :
  default_action p e = Register n v d o ->
  exists pn,
    identity_of e.1 = Some pn /\ Filename.name pn = n
    /\ Filename.version pn = v /\ applies p pn = true /\ o = tagged pn.
Proof.
  unfold default_action, identity_of.
  destruct (Filename.match_filename (Filename.basename e.1)) as [pn|];
    [|discriminate].
  intros Hreg. exists pn. split; [reflexivity|].
  exact (registration_register _ _ _ _ _ _ _ Hreg).
Qed.

Lemma default_action_platform p p' e :
  platform p' = platform p -> default_action p' e = default_action p e.
Proof.
  intros Hp. unfold default_action, registration, applies. rewrite Hp.
  reflexivity.
Qed.

(** X7.  [loadDefaultBundle] starts the registry afresh.  On a bundle whose
    keys all follow the naming convention and none of whose entries makes
    a collaborator throw, it returns with the engine marked loaded, and
    every slot the registry then fills holds the object that a bundle
    entry of that name and version, whose platform tag is absent or is the
    engine's platform, has registered; its flags are those that a bundle
    entry registering the same object has written.  Nothing registered
    before the call is left: a slot for which the bundle registers nothing
    is empty. *)
Theorem loadDefaultBundle_registry (data : Bundle) (w : World) :
  Forall (fun key => is_Some (identity_of key)) (b_protocol data).*1 ->
  Forall (fun e => outcome_of (default_action (this w) e) = Ok tt)
    (b_protocol data) ->
  exists w',
    loadDefaultBundle data w = (w', Ok tt)
    /\ loaded (this w') = true
    /\ (forall n v d,
          registered (this w') n v = Some d ->
          (exists e pn d0 o,
             e ∈ b_protocol data /\ identity_of e.1 = Some pn
             /\ Filename.name pn = n /\ Filename.version pn = v
             /\ (Filename.platform pn = None
                 \/ Filename.platform pn = Some (platform (this w)))
             /\ default_action (this w) e = Register n v d0 o
             /\ unflagged d = unflagged d0)
          /\ exists e n1 v1 d1 o,
               e ∈ b_protocol data
               /\ default_action (this w) e = Register n1 v1 d1 o
               /\ ident d1 = ident d
               /\ let fd := flagged (default ∅ (b_deprecated data))
                              (majorPatchVersion (this w)) n1 v1 d1 in
                  readable d = readable fd /\ writeable d = writeable fd)
    /\ forall n v,
         (forall e d0 o, e ∈ b_protocol data ->
                         default_action (this w) e <> Register n v d0 o) ->
         registered (this w') n v = None.
Proof.
  intros Hkeys Hok. destruct (identities_parse _ Hkeys) as [defs Hdefs].
  assert (Hsame : forall e, default_action (prepared data defs (this w)) e
                            = default_action (this w) e).
  { intros e. apply default_action_platform. reflexivity. }
  assert (Hok' : Forall (fun e => outcome_of
                           (default_action (prepared data defs (this w)) e)
                         = Ok tt) (b_protocol data)).
  { eapply Forall_impl; [exact Hok|]. intros e He. cbn beta in *.
    rewrite Hsame. exact He. }
  destruct (loadDefaultBundle_runs data defs w Hdefs Hok') as (c & Hrun).
  eexists. split; [exact Hrun|]. cbn [this]. split; [reflexivity|].
  unfold registered. cbn [messages set_loaded set_messages].
  assert (Horigin : forall n v u,
    object_at (foldl (apply_action (default ∅ (b_deprecated data))
                        (majorPatchVersion (this w))) ∅
                 (default_action (prepared data defs (this w))
                    <$> b_protocol data)) n v = Some u ->
    exists e d0 o, e ∈ b_protocol data
                   /\ default_action (this w) e = Register n v d0 o
                   /\ u = unflagged d0).
  { intros n v u Hu. apply fold_origin in Hu as [Hu|(d0 & o & Hin & ->)].
    { unfold object_at, entry in Hu. rewrite lookup_empty in Hu. discriminate. }
    apply list_elem_of_fmap in Hin as (e & Hreg & He).
    rewrite Hsame in Hreg. exists e, d0, o. auto. }
  split.
  - intros n v d Hd. split.
    + destruct (Horigin n v (unflagged d)) as (e & d0 & o & He & Hreg & Hu).
      { unfold object_at. cbn [majorPatchVersion prepared set_messages
          set_defaultDefinitions set_deprecationData
          set_lowestDefaultDefVersions] in Hd |- *.
        rewrite Hd. reflexivity. }
      pose proof Hreg as Hreg'.
      apply default_action_register in Hreg' as (pn & Hid & Hn & Hv & Ha & _).
      exists e, pn, d0, o. repeat (split; [assumption|]).
      split; [|split; assumption].
      apply applies_platform in Ha. exact Ha.
    + cbn [majorPatchVersion prepared set_messages
        set_defaultDefinitions set_deprecationData
        set_lowestDefaultDefVersions] in Hd.
      set (acts := default_action (prepared data defs (this w))
                     <$> b_protocol data) in *.
      assert (Hempty : forall n0 v0 d0,
                entry ∅ n0 v0 = Some d0 ->
                flags_from (default ∅ (b_deprecated data))
                  (majorPatchVersion (this w)) acts d0).
      { intros n0 v0 d0 H0. unfold entry in H0. rewrite lookup_empty in H0.
        discriminate. }
      destruct (fold_flags _ _ acts acts ∅ (fun a Ha => Ha) Hempty n v d Hd)
        as (n1 & v1 & d1 & o & Hin & Hi & Hr & Hw).
      apply list_elem_of_fmap in Hin as (e & Hreg & He).
      rewrite Hsame in Hreg.
      exists e, n1, v1, d1, o. cbv zeta. auto 6.
  - intros n v Hnone.
    match goal with |- ?x = None => destruct x as [d|] eqn:Hd end;
      [|reflexivity].
    destruct (Horigin n v (unflagged d)) as (e & d0 & o & He & Hreg & _).
    { unfold object_at. cbn [majorPatchVersion prepared set_messages
          set_defaultDefinitions set_deprecationData
          set_lowestDefaultDefVersions] in Hd |- *. rewrite Hd. reflexivity. }
    destruct (Hnone e d0 o He Hreg).
Qed.

(** X8.  [loadDefaultBundle] on a bundle with a key that does not follow the
    naming convention throws a [TypeError] before it has cleared the
    registry: the registry, the deprecation table, the set of default
    definitions, the loaded flag and the heap are what they were. *)
Theorem loadDefaultBundle_malformed_key (data : Bundle) (key : string)
  (w : World) :
  key ∈ (b_protocol data).*1 ->
  identity_of key = None ->
  exists w',
    loadDefaultBundle data w = (w', Throw TypeError)
    /\ messages (this w') = messages (this w)
    /\ loaded (this w') = loaded (this w)
    /\ deprecationData (this w') = deprecationData (this w)
    /\ defaultDefinitions (this w') = defaultDefinitions (this w)
    /\ heap w' = heap w.
Proof.
  intros Hkey Hid.
  assert (Hin : None ∈ identity_of <$> (b_protocol data).*1).
  { apply list_elem_of_fmap. exists key. auto. }
  destruct (first_unparsed _ Hin) as (defs & rest & Hsplit).
  destruct (loadDefaultBundle_malformed data defs rest w Hsplit) as (c & Hrun).
  eexists. split; [exact Hrun|]. cbn. auto 6.
Qed.


(** *** What loading keeps *)

Lemma same_settings_refl w : same_settings w w.
Proof. repeat split. Qed.

Lemma same_settings_trans a b c :
  same_settings a b -> same_settings b c -> same_settings a c.
Proof.
  intros (H1 & H2 & H3 & H4 & H5) (G1 & G2 & G3 & G4 & G5).
  repeat split; congruence.
Qed.

Ltac same_settings_leaf :=
  idtac;
  match goal with
  | |- moves_by _ (modify_this _) => intros ?; repeat split
  | |- moves_by _ (log _ _) => intros ?; repeat split
  end.

Lemma parseDefinitionFilename_same_settings file :
  moves_by same_settings (parseDefinitionFilename file).
Proof.
  unfold parseDefinitionFilename.
  moves_auto same_settings_refl same_settings_trans same_settings_leaf.
Qed.

Lemma addDefinition_same_settings n v o overwrite :
  moves_by same_settings (addDefinition n v o overwrite).
Proof.
  unfold addDefinition, add_to_map.
  moves_auto same_settings_refl same_settings_trans same_settings_leaf.
Qed.

Lemma loadDefaultEntry_same_settings e :
  moves_by same_settings (loadDefaultEntry e).
Proof.
  unfold loadDefaultEntry.
  moves_auto same_settings_refl same_settings_trans
    ltac:(first [ apply parseDefinitionFilename_same_settings
                | apply addDefinition_same_settings ]).
Qed.

Lemma loadCustomFile_same_settings defPath file :
  moves_by same_settings (loadCustomFile defPath file).
Proof.
  unfold loadCustomFile, outdated.
  moves_auto same_settings_refl same_settings_trans
    ltac:(first [ apply parseDefinitionFilename_same_settings
                | apply addDefinition_same_settings
                | same_settings_leaf ]).
Qed.

Lemma loadDefaultBundle_same_settings data :
  moves_by same_settings (loadDefaultBundle data).
Proof.
  unfold loadDefaultBundle, note_lowest.
  moves_auto same_settings_refl same_settings_trans
    ltac:(first [ apply parseDefinitionFilename_same_settings
                | apply loadDefaultEntry_same_settings
                | same_settings_leaf ]).
Qed.

Lemma loadCustomDefinitions_same_settings defPath :
  moves_by same_settings (loadCustomDefinitions defPath).
Proof.
  unfold loadCustomDefinitions.
  moves_auto same_settings_refl same_settings_trans
    ltac:(apply loadCustomFile_same_settings).
Qed.

Lemma load_same_settings dataPath : moves_by same_settings (load dataPath).
Proof.
  unfold load.
  moves_auto same_settings_refl same_settings_trans
    ltac:(first [ apply loadDefaultBundle_same_settings
                | apply loadCustomDefinitions_same_settings ]).
Qed.

(** X10.  A definition in the registry that may be written may be read.  The
    registry of a new engine has the property, and [addDefinition],
    [loadDefaultBundle], [loadCustomDefinitions] and [load] keep it,
    whether they return or throw. *)
Theorem writeable_is_readable :
  (forall reg major minor pm tag h p h',
      constructor reg major minor pm tag h = Ok (p, h') -> flags_sound p)
  /\ (forall w : World,
        flags_sound (this w) ->
        (forall n v o overwrite,
            flags_sound (this (addDefinition n v o overwrite w).1))
        /\ (forall data, flags_sound (this (loadDefaultBundle data w).1))
        /\ (forall defPath,
              flags_sound (this (loadCustomDefinitions defPath w).1))
        /\ (forall dataPath, flags_sound (this (load dataPath w).1))).
Proof.
  split; [exact constructor_flags_sound|].
  intros w Hw.
  split; [|split; [|split]]; intros; eapply flags_sound_entries; eauto.
  - apply addDefinition_sound.
  - apply loadDefaultBundle_sound.
  - apply loadCustomDefinitions_sound.
  - apply load_sound.
Qed.

(** X11.  Loading never touches the buffers or the settings:
    [addDefinition], [loadDefaultBundle], [loadCustomDefinitions] and
    [load], whether they return or throw, leave the heap, the two scratch
    regions with their views, the region, the patch versions, the platform
    and the opcode map as they were.  So scratch regions that were in order
    before a load are in order after it. *)
Theorem loading_keeps_fixture :
  (forall n v o overwrite,
      moves_by same_fixture (addDefinition n v o overwrite))
  /\ (forall data, moves_by same_fixture (loadDefaultBundle data))
  /\ (forall defPath, moves_by same_fixture (loadCustomDefinitions defPath))
  /\ (forall dataPath, moves_by same_fixture (load dataPath))
  /\ (forall w w',
        same_fixture w w' -> scratch_ok (this w) (heap w) ->
        scratch_ok (this w') (heap w')).
Proof.
  split; [|split; [|split; [|split]]].
  - intros n v o overwrite w. split;
      [apply addDefinition_same_buffers|apply addDefinition_same_settings].
  - intros data w. split;
      [apply loadDefaultBundle_same_buffers|apply loadDefaultBundle_same_settings].
  - intros defPath w. split;
      [apply loadCustomDefinitions_same_buffers
      |apply loadCustomDefinitions_same_settings].
  - intros dataPath w. split; [apply load_same_buffers|apply load_same_settings].
  - intros w w' [Hb _]. apply scratch_ok_same_buffers, Hb.
Qed.

(** *** The custom definitions *)

Lemma custom_action_register p defPath file n v d o :
  custom_action p defPath file = Register n v d o ->
  exists pn,
    identity_of file = Some pn /\ Filename.name pn = n
    /\ Filename.version pn = v /\ applies p pn = true /\ o = tagged pn.
Proof.
  unfold custom_action, identity_of.
  destruct (Filename.match_filename (Filename.basename file)) as [pn|];
    [|discriminate].
  destruct (is_outdated p pn) as [[]|]; try discriminate.
  intros Hreg. exists pn. split; [reflexivity|].
  exact (registration_register _ _ _ _ _ _ _ Hreg).
Qed.

(** X12.  Once [loadDefaultBundle] has prepared the engine,
    [loadCustomDefinitions] returns normally whenever the directory can be
    listed and neither the definition parser nor [require] throws on a
    file it is handed: no file name, stale version, foreign platform tag or
    compile failure makes it throw. *)
Theorem loadCustomDefinitions_returns (defPath : string)
  (files : list string) (lowest : gmap string Js.Cell)
  (table : gmap string (gmap Z DeprecationEntry)) (w : World) :
  lowestDefaultDefVersions (this w) = Some lowest ->
  deprecationData (this w) = Some table ->
  readdirSync defPath = inr files ->
  (forall file pn,
      file ∈ files -> identity_of file = Some pn ->
      exists loaded,
        match Filename.type pn with
        | Filename.js => require (path_join defPath file)
        | Filename.def => defParser (path_join defPath file) None
        end = inr loaded) ->
  exists w', loadCustomDefinitions defPath w = (w', Ok tt).
Proof.
  intros Hlowest Htable Hdir Hquiet.
  destruct (loadCustomDefinitions_runs defPath files table w Hdir Htable)
    as (c & Hrun); [|eexists; exact Hrun].
  apply Forall_forall. intros file Hfile. unfold custom_action.
  destruct (Filename.match_filename (Filename.basename file)) as [pn|] eqn:Hid;
    [|reflexivity].
  unfold is_outdated. rewrite Hlowest.
  destruct (Hquiet file pn Hfile Hid) as [loaded Hloaded]. rewrite Hloaded.
  assert (Hreg : outcome_of (registration (this w) pn (inr loaded)) = Ok tt).
  { unfold registration. destruct loaded as [obj|]; [|reflexivity].
    destruct (applies (this w) pn); [|reflexivity].
    destruct (compiled_of obj); reflexivity. }
  destruct (Filename.version pn =? 0); [exact Hreg|].
  destruct (lowest !! Filename.name pn) as [[|l]|]; try exact Hreg.
  destruct (negb (l =? 0) && (Filename.version pn <? l)); [reflexivity|exact Hreg].
Qed.

(** The numbers in the table of lowest versions are versions of the
    bundle. *)
Lemma lowest_versions_member (defs : list Filename.ParsedName) (n : string)
  (l : Z) :
  lowest_versions defs !! n = Some (Js.Int l) ->
  exists d, d ∈ defs /\ Filename.name d = n /\ Filename.version d = l.
Proof.
  unfold lowest_versions. revert l.
  induction defs as [|d defs IH] using rev_ind; intros l.
  - cbn [foldl]. rewrite lookup_empty. discriminate.
  - rewrite foldl_app. cbn [foldl]. set (L := foldl lowest_step ∅ defs) in *.
    assert (Hold : forall l', L !! n = Some (Js.Int l') ->
              exists d0, d0 ∈ defs ++ [d] /\ Filename.name d0 = n
                         /\ Filename.version d0 = l').
    { intros l' Hl'. destruct (IH l' Hl') as (d0 & Hd0 & Hn0 & Hv0).
      exists d0. split; [apply elem_of_app; left; exact Hd0|auto]. }
    assert (Hnew : exists d0, d0 ∈ defs ++ [d] /\ Filename.name d0 = Filename.name d
                              /\ Filename.version d0 = Filename.version d).
    { exists d. split; [apply elem_of_app; right; left|auto]. }
    destruct (decide (Filename.name d = n)) as [Hn|Hn];
      [|rewrite (lowest_step_other _ _ _ Hn); apply Hold].
    destruct (decide (Filename.name d = "__proto__")) as [Hp|Hp];
      [rewrite (lowest_step_proto _ _ Hp); apply Hold|].
    rewrite <- Hn at 1. rewrite (lowest_step_lookup _ _ Hp). rewrite Hn in *.
    clear IH.
    destruct (L !! n) as [[|l0]|] eqn:HL;
      [|destruct (negb (l0 =? 0))|destruct (bool_decide _)];
      intros [= <-]; try exact Hnew.
    destruct (Z.min_spec l0 (Filename.version d)) as [[_ ->]|[_ ->]];
      [apply Hold; reflexivity|exact Hnew].
Qed.

(** X13.  The staleness test of [loadCustomDefinitions] lets through every
    custom file that no bundled version of the same name exceeds: with the
    table of lowest versions that [loadDefaultBundle] builds from the
    bundle's identities, a file is skipped as outdated only if the bundle
    holds a higher version under its name. *)
Theorem skipped_below_bundled (defs : list Filename.ParsedName)
  (pn : Filename.ParsedName) (w : World) :
  lowestDefaultDefVersions (this w) = Some (lowest_versions defs) ->
  (forall d, d ∈ defs -> Filename.name d = Filename.name pn ->
             Filename.version d <= Filename.version pn) ->
  outdated pn w = (w, Ok false).
Proof.
  intros Hlowest Hmax. rewrite outdated_runs. unfold is_outdated.
  rewrite Hlowest. destruct (Filename.version pn =? 0); [reflexivity|].
  destruct (lowest_versions defs !! Filename.name pn) as [[|l]|] eqn:Hl;
    try reflexivity.
  destruct (lowest_versions_member _ _ _ Hl) as (d & Hd & Hn & Hv).
  specialize (Hmax d Hd Hn).
  destruct (Z.ltb_spec (Filename.version pn) l); [lia|].
  rewrite andb_false_r. reflexivity.
Qed.

Lemma lowest_default_unique (defs : list Filename.ParsedName) (n : string)
  (m m' : Z) :
  is_lowest_default defs n m -> is_lowest_default defs n m' -> m = m'.
Proof.
  intros [(d & Hd & Hn & Hv) Hmin] [(d' & Hd' & Hn' & Hv') Hmin'].
  specialize (Hmin d' Hd' Hn'). specialize (Hmin' d Hd Hn). lia.
Qed.

(** The table after more entries, for a name it does not hold or holds
    with 0. *)
Lemma fold_lowest_positive (L0 : gmap string Js.Cell)
  (defs : list Filename.ParsedName) (n : string) :
  n ∉ Js.Object_prototype ->
  L0 !! n = None \/ L0 !! n = Some (Js.Int 0) ->
  (forall d, d ∈ defs -> Filename.name d = n -> 0 < Filename.version d) ->
  ((forall d, d ∈ defs -> Filename.name d <> n)
   /\ foldl lowest_step L0 defs !! n = L0 !! n)
  \/ (exists m, foldl lowest_step L0 defs !! n = Some (Js.Int m)
                /\ is_lowest_default defs n m).
Proof.
  intros Hplain HL0. induction defs as [|d defs IH] using rev_ind; intros Hpos.
  - left. split; [intros d Hd; inversion Hd|reflexivity].
  - rewrite foldl_app. cbn [foldl].
    assert (Hpos' : forall d0, d0 ∈ defs -> Filename.name d0 = n ->
                               0 < Filename.version d0).
    { intros d0 Hd0. apply Hpos, elem_of_app. left. exact Hd0. }
    specialize (IH Hpos'). set (L := foldl lowest_step L0 defs) in *.
    destruct (decide (Filename.name d = n)) as [Hn|Hn].
    + right. assert (Hd : 0 < Filename.version d).
      { apply Hpos; [|exact Hn]. apply elem_of_app. right. left. }
      rewrite lowest_step_plain by (rewrite Hn; exact Hplain). rewrite Hn.
      rewrite lookup_insert_eq.
      destruct IH as [[Hnone HL]|(m & HL & (d1 & Hd1 & Hn1 & Hv1) & Hmin)].
      * exists (Filename.version d). split.
        -- rewrite HL. destruct HL0 as [-> | ->]; reflexivity.
        -- split.
           ++ exists d. split; [apply elem_of_app; right; left|auto].
           ++ intros d0 Hd0 Hn0. apply elem_of_app in Hd0 as [Hd0|Hd0].
              ** destruct (Hnone d0 Hd0 Hn0).
              ** apply list_elem_of_singleton in Hd0 as ->. lia.
      * assert (Hm : 0 < m) by (rewrite <- Hv1; apply Hpos'; auto).
        rewrite HL. destruct (Z.eqb_spec m 0); [lia|]. cbn [negb].
        exists (Z.min m (Filename.version d)).
        split; [reflexivity|]. split.
        -- destruct (Z.min_spec m (Filename.version d)) as [[_ ->]|[_ ->]].
           ++ exists d1. split; [apply elem_of_app; left; exact Hd1|auto].
           ++ exists d. split; [apply elem_of_app; right; left|auto].
        -- intros d0 Hd0 Hn0. apply elem_of_app in Hd0 as [Hd0|Hd0].
           ++ specialize (Hmin d0 Hd0 Hn0). lia.
           ++ apply list_elem_of_singleton in Hd0 as ->. lia.
    + rewrite (lowest_step_other _ _ _ Hn).
      destruct IH as [[Hnone HL]|(m & HL & (d1 & Hd1 & Hn1 & Hv1) & Hmin)].
      * left. split; [|exact HL]. intros d0 Hd0.
        apply elem_of_app in Hd0 as [Hd0|Hd0]; [auto|].
        apply list_elem_of_singleton in Hd0 as ->. exact Hn.
      * right. exists m. split; [exact HL|]. split.
        -- exists d1. split; [apply elem_of_app; left; exact Hd1|auto].
        -- intros d0 Hd0 Hn0. apply elem_of_app in Hd0 as [Hd0|Hd0]; [auto|].
           apply list_elem_of_singleton in Hd0 as ->. contradiction.
Qed.

(** X14.  A bundled version 0 makes the table of lowest versions forget
    what came before it: the test [if (lowest[name])] takes the 0 for an
    absent entry.  For a name that [Object.prototype] does not have: when
    the bundle lists a version 0 of the name and then only higher versions
    of it, the table ends with the lowest of these later versions, not
    with the minimum 0 of the bundle; when it lists no version of the name
    after the 0, the table ends with 0. *)
Theorem lowest_table_after_version_0 (before after : list Filename.ParsedName)
  (d0 : Filename.ParsedName) :
  Filename.name d0 ∉ Js.Object_prototype ->
  Filename.version d0 = 0 ->
  (forall d, d ∈ before -> Filename.name d = Filename.name d0 ->
             0 <= Filename.version d) ->
  (forall d, d ∈ after -> Filename.name d = Filename.name d0 ->
             0 < Filename.version d) ->
  is_lowest_default (before ++ d0 :: after) (Filename.name d0) 0
  /\ (forall m,
        is_lowest_default after (Filename.name d0) m ->
        0 < m
        /\ lowest_versions (before ++ d0 :: after) !! Filename.name d0
           = Some (Js.Int m))
  /\ ((forall d, d ∈ after -> Filename.name d <> Filename.name d0) ->
      lowest_versions (before ++ d0 :: after) !! Filename.name d0
      = Some (Js.Int 0)).
Proof.
  intros Hplain Hv0 Hbefore Hafter. set (n := Filename.name d0) in *.
  assert (Hzero : lowest_step (foldl lowest_step ∅ before) d0 !! n
                  = Some (Js.Int 0)).
  { assert (Hmember := lowest_versions_member before n).
    unfold lowest_versions in Hmember.
    set (T := foldl lowest_step ∅ before) in *.
    rewrite lowest_step_plain by exact Hplain. fold n.
    rewrite lookup_insert_eq, Hv0.
    destruct (T !! n) as [[|l]|] eqn:Hl; try reflexivity.
    destruct (Hmember l eq_refl) as (d & Hd & Hn & Hv).
    specialize (Hbefore d Hd Hn).
    destruct (negb (l =? 0)); [|reflexivity].
    do 2 f_equal. lia. }
  assert (Hfold : lowest_versions (before ++ d0 :: after)
                  = foldl lowest_step
                      (lowest_step (foldl lowest_step ∅ before) d0) after).
  { unfold lowest_versions. rewrite foldl_app. reflexivity. }
  split; [|split].
  - split.
    + exists d0. split; [|auto]. apply elem_of_app. right. left.
    + intros d Hd Hn. apply elem_of_app in Hd as [Hd|Hd]; [auto|].
      apply elem_of_cons in Hd as [->|Hd]; [lia|].
      specialize (Hafter d Hd Hn). lia.
  - intros m Hm. split.
    + destruct Hm as [(d & Hd & Hn & <-) _]. apply Hafter; assumption.
    + rewrite Hfold.
      destruct (fold_lowest_positive _ after n Hplain (or_intror Hzero) Hafter)
        as [[Hnone _]|(m' & Hm' & Hmin')].
      * destruct Hm as [(d & Hd & Hn & _) _]. destruct (Hnone d Hd Hn).
      * rewrite Hm'. do 2 f_equal.
        exact (lowest_default_unique _ _ _ _ Hmin' Hm).
  - intros Hnone. rewrite Hfold.
    destruct (fold_lowest_positive _ after n Hplain (or_intror Hzero) Hafter)
      as [[_ Hsame]|(m' & _ & (d & Hd & Hn & _) & _)].
    + rewrite Hsame. exact Hzero.
    + destruct (Hnone d Hd Hn).
Qed.

(** X28.  The staleness rule on the names that [Object.prototype] does
    not have.  [loadDefaultBundle], on a bundle whose names all parse,
    leaves the table of lowest versions that the parsed names determine,
    and that table holds the minimum version of such a name whenever that
    minimum is positive.  With such a table, a custom file whose version is
    not 0, whose name has bundle entries, and whose version is below the
    minimum of these, is skipped: one debug line is logged, and neither the
    engine nor the heap changes.  A custom file of version 0 is never
    stale, whatever its name and whatever the table holds (a minimum of 0
    included, and no table at all): its loop body goes on to load and
    register it. *)
Theorem stale_custom_definition :
  (forall data defs (w : World),
      (fun f => Filename.match_filename (Filename.basename f))
        <$> (b_protocol data).*1 = Some <$> defs ->
      lowestDefaultDefVersions (this (loadDefaultBundle data w).1)
      = Some (lowest_versions defs))
  /\ (forall defs n m,
        n ∉ Js.Object_prototype ->
        is_lowest_default defs n m -> 0 < m ->
        lowest_versions defs !! n = Some (Js.Int m))
  /\ (forall (w : World) defPath file pn defs m,
        Filename.match_filename (Filename.basename file) = Some pn ->
        Filename.name pn ∉ Js.Object_prototype ->
        Filename.version pn <> 0 ->
        lowestDefaultDefVersions (this w) = Some (lowest_versions defs) ->
        is_lowest_default defs (Filename.name pn) m ->
        Filename.version pn < m ->
        loadCustomFile defPath file w
        = (mkWorld (this w) (heap w)
             (console w ++ [(debug, SkippedOutdatedDef (Filename.name pn)
                                      (Filename.version pn))]), Ok tt))
  /\ (forall (w : World) defPath file pn,
        Filename.match_filename (Filename.basename file) = Some pn ->
        Filename.version pn = 0 ->
        outdated pn w = (w, Ok false)
        /\ custom_action (this w) defPath file
           = registration (this w) pn
               (match Filename.type pn with
                | Filename.js => require (path_join defPath file)
                | Filename.def => defParser (path_join defPath file) None
                end)
        /\ forall table,
            deprecationData (this w) = Some table ->
            performs table (custom_action (this w) defPath file) w
              (loadCustomFile defPath file w)).
Proof.
  split; [|split; [|split]].
  - intros data defs w Hparse.
    destruct (loadDefaultBundle_prepared data defs w Hparse) as (c & Hrun).
    rewrite Hrun. clear Hrun.
    destruct (loop_frame loadDefaultEntry default_action
                (default ∅ (b_deprecated data))
                ltac:(intros; apply loadDefaultEntry_performs; assumption)
                (b_protocol data)
                (mkWorld (prepared data defs (this w)) (heap w) c) eq_refl)
      as (m & c' & o & Hloop).
    unfold mbind, M_bind. rewrite Hloop. destruct o as [[]|e]; reflexivity.
  - exact lowest_versions_min.
  - intros w defPath file pn defs m Hparse Hplain Hv HL Hmin Hlt.
    pose proof (match_filename_version _ _ Hparse) as Hnonneg.
    apply (loadCustomFile_skips defPath file pn (lowest_versions defs) m);
      try assumption; [|lia].
    apply lowest_versions_min; [exact Hplain|exact Hmin|lia].
  - intros w defPath file pn Hparse Hv. split; [|split].
    + rewrite outdated_runs. unfold is_outdated. rewrite Hv. reflexivity.
    + unfold custom_action, is_outdated. rewrite Hparse, Hv. reflexivity.
    + intros table Ht. apply loadCustomFile_performs, Ht.
Qed.

(** The table under a name that none of the entries has. *)
Lemma fold_lowest_other (L : gmap string Js.Cell)
  (defs : list Filename.ParsedName) (n : string) :
  (forall d, d ∈ defs -> Filename.name d <> n) ->
  foldl lowest_step L defs !! n = L !! n.
Proof.
  revert L. induction defs as [|d defs IH]; intros L Hother; [reflexivity|].
  cbn [foldl]. rewrite IH by (intros d' Hd'; apply Hother; right; exact Hd').
  apply lowest_step_other. apply Hother. left.
Qed.

(** X29.  The staleness rule on a name that [Object.prototype] has, such
    as [constructor] or [toString].  When the bundle holds one version of
    such a name, the table of lowest versions does not hold that version:
    the name was found in the prototype, and the minimum of a function and
    the version is not a number.  No custom file of that name is then
    stale, however low its version. *)
Theorem prototype_name_not_stale (before after : list Filename.ParsedName)
  (d0 pn : Filename.ParsedName) (w : World) :
  Filename.name pn ∈ Js.Object_prototype ->
  Filename.name d0 = Filename.name pn ->
  (forall d, d ∈ before -> Filename.name d <> Filename.name pn) ->
  (forall d, d ∈ after -> Filename.name d <> Filename.name pn) ->
  lowestDefaultDefVersions (this w)
  = Some (lowest_versions (before ++ d0 :: after)) ->
  is_lowest_default (before ++ d0 :: after) (Filename.name pn)
    (Filename.version d0)
  /\ lowest_versions (before ++ d0 :: after) !! Filename.name pn
     <> Some (Js.Int (Filename.version d0))
  /\ outdated pn w = (w, Ok false).
Proof.
  intros Hproto Hname Hbefore Hafter Hlowest.
  set (n := Filename.name pn) in *.
  assert (Htable : lowest_versions (before ++ d0 :: after) !! n = None
                   \/ lowest_versions (before ++ d0 :: after) !! n
                      = Some Js.NaN).
  { unfold lowest_versions. rewrite foldl_app. cbn [foldl].
    rewrite (fold_lowest_other _ after n Hafter).
    assert (Hnone : foldl lowest_step ∅ before !! n = None).
    { rewrite (fold_lowest_other _ before n Hbefore). apply lookup_empty. }
    destruct (decide (n = "__proto__")) as [Hp|Hp].
    - left. rewrite lowest_step_proto by congruence. exact Hnone.
    - right. rewrite <- Hname at 1.
      rewrite lowest_step_lookup by congruence.
      rewrite Hname, Hnone, bool_decide_eq_true_2 by exact Hproto.
      reflexivity. }
  split; [|split].
  - split.
    + exists d0. split; [|auto]. apply elem_of_app. right. left.
    + intros d Hd Hn. apply elem_of_app in Hd as [Hd|Hd];
        [destruct (Hbefore d Hd Hn)|].
      apply elem_of_cons in Hd as [->|Hd]; [lia|destruct (Hafter d Hd Hn)].
  - destruct Htable as [-> | ->]; discriminate.
  - rewrite outdated_runs. unfold is_outdated. rewrite Hlowest. fold n.
    destruct (Filename.version pn =? 0); [reflexivity|].
    destruct Htable as [-> | ->]; reflexivity.
Qed.

(** X15.  What one custom file can change in the registry.  A slot gets
    another object only if it is the slot of the name and version the file
    name spells, and only when the platform tag of the file is the engine's
    platform, or when it has no tag and the slot was empty.  The entry of
    any other slot changes only if that slot holds the very object the
    file registers, and then in its flags only: they become those written
    for the slot of the file. *)
Theorem loadCustomFile_changes (defPath file : string) (w : World)
  (table : gmap string (gmap Z DeprecationEntry)) (n : string) (v : Z) :
  deprecationData (this w) = Some table ->
  registered (this (loadCustomFile defPath file w).1) n v
  <> registered (this w) n v ->
  exists pn d,
    identity_of file = Some pn
    /\ custom_action (this w) defPath file
       = Register (Filename.name pn) (Filename.version pn) d (tagged pn)
    /\ (Filename.platform pn = Some (platform (this w))
        \/ (Filename.platform pn = None
            /\ registered (this w) (Filename.name pn) (Filename.version pn)
               = None))
    /\ ((Filename.name pn = n /\ Filename.version pn = v)
        \/ (object_at (messages (this (loadCustomFile defPath file w).1)) n v
            = object_at (messages (this w)) n v
            /\ exists old,
                 registered (this w) n v = Some old
                 /\ ident old = ident d
                 /\ registered (this (loadCustomFile defPath file w).1) n v
                    = Some (flagged table (majorPatchVersion (this w))
                              (Filename.name pn) (Filename.version pn) old))).
Proof.
  intros Htable Hchange.
  destruct (loadCustomFile_performs table defPath file w Htable) as (c & Hrun).
  rewrite Hrun in Hchange |- *. unfold registered in Hchange |- *.
  cbn [fst this messages set_messages] in Hchange |- *.
  destruct (custom_action (this w) defPath file) as [|n' v' d o|e] eqn:Hact;
    cbn [apply_action] in Hchange |- *; try contradiction.
  pose proof Hact as Hact'.
  apply custom_action_register in Hact' as (pn & Hid & <- & <- & Ha & ->).
  exists pn, d. split; [exact Hid|]. split; [reflexivity|].
  apply applies_platform in Ha.
  set (n' := Filename.name pn) in *. set (v' := Filename.version pn) in *.
  set (fd := flagged table (majorPatchVersion (this w)) n' v' d) in *.
  assert (Hgo : tagged pn
                || negb (bool_decide (is_Some (entry (messages (this w)) n' v')))
                = true).
  { destruct (_ || _) eqn:Hgo; [reflexivity|].
    unfold register in Hchange. rewrite Hgo in Hchange. contradiction. }
  split.
  - unfold tagged in Hgo. destruct (Filename.platform pn) as [tag|] eqn:Htag.
    + left. destruct Ha as [Ha|Ha]; [discriminate|exact Ha].
    + right. split; [reflexivity|].
      rewrite bool_decide_eq_false_2 in Hgo by (intros [? ?]; discriminate).
      cbn [orb] in Hgo. apply negb_true_iff in Hgo.
      destruct (entry (messages (this w)) n' v') as [old|] eqn:Hold;
        [|reflexivity].
      rewrite bool_decide_eq_true_2 in Hgo by eauto. discriminate.
  - destruct (decide (n' = n /\ v' = v)) as [Heq|Hne]; [left; exact Heq|].
    right. split.
    + rewrite object_at_register, decide_False by exact Hne. reflexivity.
    + rewrite entry_register, decide_False, Hgo in Hchange |- * by exact Hne.
      destruct (entry (messages (this w)) n v) as [old|] eqn:Hold;
        [|contradiction].
      cbn in Hchange |- *. exists old. split; [reflexivity|].
      unfold reflag in Hchange |- *. unfold fd in Hchange |- *.
      rewrite ident_flagged in Hchange |- *.
      destruct (decide (ident old = ident d)) as [Hi|Hi]; [|contradiction].
      split; [exact Hi|]. f_equal.
      unfold flagged. destruct (deprecation_entry table n' v'); [|reflexivity].
      destruct (_ && _); reflexivity.
Qed.

(** X16.  A custom [.def] file whose structure the compiler rejects is
    reported and passed over: the loop body logs the two error lines of
    [addDefinition] and returns, and the engine is as it was, so that the
    definition the slot held, if any, stays. *)
Theorem compile_failure_is_logged (defPath file : string)
  (pn : Filename.ParsedName) (l : Layout) (e : string) (w : World) :
  identity_of file = Some pn ->
  outdated pn w = (w, Ok false) ->
  Filename.type pn = Filename.def ->
  defParser (path_join defPath file) None = inr (Some (Structural l)) ->
  applies (this w) pn = true ->
  compile l = inl e ->
  loadCustomFile defPath file w
  = (mkWorld (this w) (heap w)
       (console w
        ++ [(error, ErrorWhileCompiling (Filename.name pn) (Filename.version pn));
            (error, Exception e)]), Ok tt).
Proof.
  intros Hid Hfresh Htype Hparse Ha Hc.
  unfold loadCustomFile, parseDefinitionFilename.
  unfold identity_of in Hid. rewrite Hid.
  unfold mbind, M_bind, mret, M_ret. rewrite Hfresh, Htype, Hparse.
  unfold lift, of_call, get_this. rewrite Ha.
  rewrite (addDefinition_compile_fails _ _ _ _ _ _ Hc).
  rewrite <- app_assoc. reflexivity.
Qed.







(** *** Resolution *)

Lemma resolveIdentifier_names p identifier request r :
  resolveIdentifier p identifier request = Ok r ->
  exists n c, names p identifier n c.
Proof.
  destruct identifier as [s|z|]; unfold resolveIdentifier.
  - destruct (pm_name (protocolMap p) !! s) as [c|] eqn:Hs; [|discriminate].
    intros _. exists s, c. split; [reflexivity|exact Hs].
  - destruct (pm_code (protocolMap p) !! z) as [n|] eqn:Hz; [|discriminate].
    intros _. exists n, z. split; [reflexivity|exact Hz].
  - discriminate.
Qed.

(** X18.  What [resolveIdentifier] returns is in the registry: the name and
    the code are the pair the opcode map holds for the identifier, the
    version is a number under which the registry holds the returned
    definition for that name, the latest version is the largest version
    registered for the name, so that the version never exceeds it, and the
    version is the requested one, or the latest when none was requested.
    Neither is ever [undefined] or [-Infinity]. *)
Theorem resolveIdentifier_sound (p : TeraProtocol) (identifier : Identifier)
  (request : VersionRequest) (r : ResolvedIdentifier) :
  resolveIdentifier p identifier request = Ok r ->
  names p identifier (name r) (code r)
  /\ exists v l vs,
      version r = Some (Js.Num v)
      /\ latest_version r = Some (Js.Num l)
      /\ messages p !! name r = Some vs
      /\ vs !! v = Some (definition r)
      /\ is_max_key vs l
      /\ v <= l
      /\ match request with
         | Latest => v = l
         | Exact requested => v = requested
         end.
Proof.
  intros Hr. destruct (resolveIdentifier_names _ _ _ _ Hr) as (n & c & Hn).
  rewrite (resolveIdentifier_named _ _ _ _ _ Hn) in Hr. cbv zeta in Hr.
  destruct (messages p !! n) as [vs|] eqn:Hvs; cbn in Hr; [|discriminate].
  destruct (Js.Math_max (elements (dom vs))) as [|l] eqn:Hl.
  { apply latest_of_empty in Hl. subst vs.
    destruct request; cbn in Hr; [discriminate|].
    rewrite lookup_empty in Hr. destruct (_ && _); discriminate. }
  apply max_key_of_latest in Hl.
  destruct request as [|v]; cbn in Hr.
  - destruct (vs !! l) as [d|] eqn:Hd; [|destruct (_ && _); discriminate].
    injection Hr as <-. cbn. split; [exact Hn|].
    exists l, l, vs. split; [reflexivity|]. split; [reflexivity|].
    split; [exact Hvs|]. split; [exact Hd|]. split; [exact Hl|].
    split; [lia|reflexivity].
  - destruct (vs !! v) as [d|] eqn:Hd; [|destruct (_ && _); discriminate].
    injection Hr as <-. cbn. split; [exact Hn|].
    exists v, l, vs. split; [reflexivity|]. split; [reflexivity|].
    split; [exact Hvs|]. split; [exact Hd|]. split; [exact Hl|].
    split; [apply Hl; eauto|reflexivity].
Qed.

Ltac in_list :=
  repeat first [ apply list_elem_of_here | apply list_elem_of_further ].

Ltac refute_identifier :=
  let H := fresh in
  intros H;
  first [ discriminate H
        | destruct H as (? & H & ?);
          first [ discriminate H | injection H as <-; congruence ] ].

(** X19.  The failures of [resolveIdentifier].  The identifier is looked at
    first: one that is neither a string nor a number gives the
    [TypeError], a name the opcode map does not know "code not known", an
    opcode it does not know "mapping not found", whatever the registry
    holds and whatever version is requested.  There is no other failure
    than these three, NotFound and Outdated; in particular a definition
    that is deprecated resolves like any other. *)
Theorem resolveIdentifier_failures (p : TeraProtocol)
  (identifier : Identifier) (request : VersionRequest) :
  (resolveIdentifier p identifier request = Throw IdentifierTypeError
   <-> identifier = IdOther)
  /\ (resolveIdentifier p identifier request = Throw (NotFound CodeNotKnown)
      <-> exists s, identifier = IdString s
                    /\ pm_name (protocolMap p) !! s = None)
  /\ (resolveIdentifier p identifier request = Throw (NotFound MappingNotFound)
      <-> exists z, identifier = IdNumber z
                    /\ pm_code (protocolMap p) !! z = None)
  /\ (forall e,
        resolveIdentifier p identifier request = Throw e ->
        e ∈ [IdentifierTypeError; NotFound CodeNotKnown;
             NotFound MappingNotFound; NotFound NoDefinition; Outdated]).
Proof.
  assert (Hnamed : forall n c, names p identifier n c ->
            resolveIdentifier p identifier request = Throw Outdated
            \/ resolveIdentifier p identifier request
               = Throw (NotFound NoDefinition)
            \/ exists r, resolveIdentifier p identifier request = Ok r).
  { intros n c Hn. rewrite (resolveIdentifier_named _ _ _ _ _ Hn). cbv zeta.
    destruct (_ ≫= _) as [d|]; [eauto|]. destruct (_ && _); auto. }
  destruct identifier as [s|z|].
  - destruct (pm_name (protocolMap p) !! s) as [c|] eqn:Hs.
    + destruct (Hnamed s c) as [H|[H|[r H]]]; [split; [reflexivity|exact Hs]|..];
        rewrite H; repeat split; try refute_identifier;
        intros e He; try discriminate He; injection He as <-; in_list.
    + unfold resolveIdentifier. rewrite Hs. cbn.
      repeat split; try refute_identifier; eauto.
      intros e [= <-]. in_list.
  - destruct (pm_code (protocolMap p) !! z) as [n|] eqn:Hz.
    + destruct (Hnamed n z) as [H|[H|[r H]]]; [split; [reflexivity|exact Hz]|..];
        rewrite H; repeat split; try refute_identifier;
        intros e He; try discriminate He; injection He as <-; in_list.
    + unfold resolveIdentifier. rewrite Hz. cbn.
      repeat split; try refute_identifier; eauto.
      intros e [= <-]. in_list.
  - cbn. repeat split; try refute_identifier.
    intros e [= <-]. in_list.
Qed.

(** X20.  When the opcode map pairs a name with a code in both directions,
    resolving the name and resolving the code give the same result, for
    every requested version and whether the resolution succeeds or fails. *)
Theorem resolveIdentifier_name_or_code (p : TeraProtocol) (n : string)
  (c : Z) (request : VersionRequest) :
  pm_name (protocolMap p) !! n = Some c ->
  pm_code (protocolMap p) !! c = Some n ->
  resolveIdentifier p (IdString n) request
  = resolveIdentifier p (IdNumber c) request.
Proof.
  intros Hn Hc.
  rewrite (resolveIdentifier_named p (IdString n) request n c)
    by (split; [reflexivity|exact Hn]).
  rewrite (resolveIdentifier_named p (IdNumber c) request n c)
    by (split; [reflexivity|exact Hc]).
  reflexivity.
Qed.

Lemma resolveIdentifier_exact p identifier n c vs v d l :
  names p identifier n c ->
  messages p !! n = Some vs -> vs !! v = Some d -> is_max_key vs l ->
  resolveIdentifier p identifier (Exact v)
  = Ok (mkResolvedIdentifier n c (Some (Js.Num v)) (Some (Js.Num l)) d).
Proof.
  intros Hn Hvs Hv Hl. rewrite (resolveIdentifier_named _ _ _ _ _ Hn), Hvs.
  cbn. rewrite (latest_of_max_key _ _ Hl), Hv. reflexivity.
Qed.

(** X21.  A definition registered with [overwrite] is the one that
    resolves: after [addDefinition(name, version, definition, true)] on a
    loaded engine, resolving the name (or its code) at that version
    returns the definition with the flags of the registration, and a
    latest version that is at least the version.  When no higher version
    was registered it is also what resolves without a version. *)
Theorem addDefinition_then_resolve (n : string) (c v : Z) (o : DefObject)
  (d : Definition_) (table : gmap string (gmap Z DeprecationEntry))
  (identifier : Identifier) (w : World) :
  compiled_of o = inr d ->
  deprecationData (this w) = Some table ->
  names (this w) identifier n c ->
  exists w' l,
    addDefinition n v o true w = (w', Ok tt)
    /\ v <= l
    /\ resolveIdentifier (this w') identifier (Exact v)
       = Ok (mkResolvedIdentifier n c (Some (Js.Num v)) (Some (Js.Num l))
               (flagged table (majorPatchVersion (this w)) n v d))
    /\ ((forall k, is_Some (registered (this w) n k) -> k <= v) ->
        l = v
        /\ resolveIdentifier (this w') identifier Latest
           = resolveIdentifier (this w') identifier (Exact v)).
Proof.
  intros Hc Htable Hn.
  rewrite (addDefinition_stores _ _ _ _ _ table _ Hc Htable) by auto.
  set (fd := flagged table (majorPatchVersion (this w)) n v d).
  set (old := reflag (ident fd) (readable fd) (writeable fd)
                <$> default ∅ (messages (this w) !! n)).
  set (p' := set_messages (store n v fd (messages (this w))) (this w)).
  assert (Hvs : messages p' !! n = Some (<[v := fd]> old))
    by apply store_lookup.
  assert (Hv : (<[v := fd]> old) !! v = Some fd) by apply lookup_insert_eq.
  destruct (max_key_exists _ _ _ Hv) as [l Hl].
  assert (Hn' : names p' identifier n c) by exact Hn.
  exists (mkWorld p' (heap w) (console w)), l. split; [reflexivity|].
  split; [apply Hl; eauto|]. cbn [this].
  split; [exact (resolveIdentifier_exact _ _ _ _ _ _ _ _ Hn' Hvs Hv Hl)|].
  intros Hmax.
  assert (Hlv : l = v).
  { assert (v <= l) by (apply Hl; eauto).
    destruct (decide (l = v)) as [|Hne]; [assumption|].
    destruct Hl as [[dl Hdl] _]. rewrite lookup_insert_ne in Hdl by congruence.
    assert (l <= v); [|lia]. apply Hmax. unfold registered, entry.
    unfold old in Hdl. rewrite lookup_fmap in Hdl.
    destruct (messages (this w) !! n) as [vs|]; cbn in *.
    - destruct (vs !! l); [eauto|discriminate].
    - rewrite lookup_empty in Hdl. discriminate. }
  split; [exact Hlv|]. subst l.
  rewrite (resolveIdentifier_exact _ _ _ _ _ _ _ _ Hn' Hvs Hv Hl).
  rewrite (resolveIdentifier_named _ _ _ _ _ Hn'), Hvs. cbn.
  rewrite (latest_of_max_key _ _ Hl). cbn. rewrite Hv. reflexivity.
Qed.

(** X22.  A deprecated definition from registration to use.  When the
    deprecation table has an entry for the name and version none of whose
    bounds admits the engine's patch version, the definition registered
    under them still resolves, [write] refuses it and leaves the world as
    it is, and [parse] refuses it as well unless the entry says it is
    readable, in which case the reader is the one that was registered. *)
Theorem deprecated_definition_flow (n : string) (c v : Z) (o : DefObject)
  (d : Definition_) (table : gmap string (gmap Z DeprecationEntry))
  (e : DeprecationEntry) (identifier : Identifier) (w : World) :
  compiled_of o = inr d ->
  deprecationData (this w) = Some table ->
  deprecation_entry table n v = Some e ->
  no_bound_admits (majorPatchVersion (this w)) e ->
  names (this w) identifier n c ->
  exists w' r,
    addDefinition n v o true w = (w', Ok tt)
    /\ resolveIdentifier (this w') identifier (Exact v) = Ok r
    /\ (forall data, write r data w' = (w', Throw (Deprecated Writing)))
    /\ (d_readable e <> Some true ->
        forall buffer, parse r buffer w' = (w', Throw (Deprecated Reading)))
    /\ (d_readable e = Some true ->
        readable (definition r) = true /\ reader (definition r) = reader d).
Proof.
  intros Hc Htable He Hadmits Hn.
  rewrite (addDefinition_stores _ _ _ _ _ table _ Hc Htable) by auto.
  set (fd := flagged table (majorPatchVersion (this w)) n v d).
  set (old := reflag (ident fd) (readable fd) (writeable fd)
                <$> default ∅ (messages (this w) !! n)).
  set (p' := set_messages (store n v fd (messages (this w))) (this w)).
  assert (Hvs : messages p' !! n = Some (<[v := fd]> old))
    by apply store_lookup.
  assert (Hv : (<[v := fd]> old) !! v = Some fd) by apply lookup_insert_eq.
  destruct (max_key_exists _ _ _ Hv) as [l Hl].
  assert (Hn' : names p' identifier n c) by exact Hn.
  assert (Hfd : fd = set_flags (default false (d_readable e)) false d).
  { unfold fd, flagged. rewrite He.
    apply no_bound_admits_test in Hadmits. rewrite Hadmits. reflexivity. }
  eexists (mkWorld p' (heap w) (console w)), _. split; [reflexivity|].
  cbn [this].
  split; [exact (resolveIdentifier_exact _ _ _ _ _ _ _ _ Hn' Hvs Hv Hl)|].
  cbn [definition]. rewrite Hfd. split; [|split].
  - intros data. reflexivity.
  - intros Hread buffer. unfold parse. cbn [definition readable set_flags].
    destruct (d_readable e) as [[]|]; [congruence|reflexivity|reflexivity].
  - intros ->. split; reflexivity.
Qed.

(** *** Buffers *)

Lemma untouched_refl x h : untouched_but x h h.
Proof. intros b _ _. reflexivity. Qed.

Lemma untouched_trans x h1 h2 h3 :
  untouched_but x h1 h2 -> untouched_but x h2 h3 -> untouched_but x h1 h3.
Proof.
  intros H12 H23 b Hb Hsome. rewrite <- (H12 b Hb Hsome).
  apply H23; [exact Hb|]. rewrite (H12 b Hb Hsome). exact Hsome.
Qed.

Lemma untouched_insert x (h : Buffer.Heap) bs :
  untouched_but x h (<[x := bs]> h).
Proof. intros b Hb _. apply lookup_insert_ne. congruence. Qed.

Lemma untouched_fresh x (h : Buffer.Heap) bs :
  untouched_but x h (<[fresh (dom h) := bs]> h).
Proof.
  intros b _ Hsome. apply lookup_insert_ne. apply fresh_block_ne, Hsome.
Qed.

Lemma setUint16_le_untouched h v pos value h' :
  Buffer.setUint16_le h v pos value = Ok h' ->
  untouched_but (Buffer.buffer v) h h'.
Proof.
  unfold Buffer.setUint16_le. destruct (_ || _); [discriminate|].
  intros [= <-]. apply untouched_insert.
Qed.

(** [parse] writes to the read scratch region only. *)
Lemma parse_world (r : ResolvedIdentifier) (buffer : positive) (w : World) :
  exists h',
    (parse r buffer w).1 = mkWorld (this w) h' (console w)
    /\ forall b, b <> readBuffer (this w) -> h' !! b = heap w !! b.
Proof.
  unfold parse. destruct (readable (definition r)); cbn [negb].
  - unfold mbind, M_bind, get_this, get_heap, put_heap, lift.
    cbn [this heap console].
    rewrite copy_from_start by (unfold Buffer.length; lia).
    cbn [this heap console]. eexists. split; [|].
    + destruct (of_call _); reflexivity.
    + intros b Hb. apply lookup_insert_ne. congruence.
  - exists (heap w). split; [destruct w; reflexivity|auto].
Qed.

(** [write] writes to the block of the write view and to one new block. *)
Lemma write_world (r : ResolvedIdentifier) (data : option Obj) (w : World) :
  exists h',
    (write r data w).1 = mkWorld (this w) h' (console w)
    /\ untouched_but (Buffer.buffer (writeView (this w))) (heap w) h'.
Proof.
  unfold write. destruct (writeable (definition r)); cbn [negb];
    [|exists (heap w); split; [destruct w; reflexivity|apply untouched_refl]].
  unfold mbind, M_bind, mret, M_ret, get_this, get_heap, put_heap, lift.
  cbn [this heap console].
  destruct (writer _ _ _) as [bytes res]. cbn [fst snd].
  set (wv := writeView (this w)).
  set (h1 := Buffer.set_view_bytes (heap w) wv bytes).
  assert (F1 : untouched_but (Buffer.buffer wv) (heap w) h1)
    by apply untouched_insert.
  destruct res as [e|len]; cbn [of_call]; [eexists; split; [reflexivity|exact F1]|].
  destruct (Buffer.setUint16_le h1 wv 0 len) as [h2|e] eqn:H2;
    [|eexists; split; [reflexivity|exact F1]].
  assert (F2 : untouched_but (Buffer.buffer wv) (heap w) h2).
  { eapply untouched_trans; [exact F1|]. eapply setUint16_le_untouched, H2. }
  cbn [this heap console].
  destruct (Buffer.setUint16_le h2 wv 2 (code r)) as [h3|e] eqn:H3;
    [|eexists; split; [reflexivity|exact F2]].
  assert (F3 : untouched_but (Buffer.buffer wv) (heap w) h3).
  { eapply untouched_trans; [exact F2|]. eapply setUint16_le_untouched, H3. }
  cbn [this heap console]. unfold Buffer.allocUnsafe.
  destruct (len <? 0); [eexists; split; [reflexivity|exact F3]|].
  cbn [this heap console].
  set (h4 := <[fresh (dom h3) := _]> h3).
  assert (F4 : untouched_but (Buffer.buffer wv) (heap w) h4).
  { eapply untouched_trans; [exact F3|]. apply untouched_fresh. }
  unfold Buffer.copy. destruct (_ || _);
    [eexists; split; [reflexivity|exact F4]|].
  cbn [this heap console]. eexists. split; [reflexivity|].
  eapply untouched_trans; [exact F3|]. intros b Hb Hsome.
  assert (Hne : fresh (dom h3) <> b) by (apply fresh_block_ne, Hsome).
  unfold h4. rewrite !lookup_insert_ne by congruence. reflexivity.
Qed.

(** The buffer [write] returns is a block that did not exist before. *)
Lemma write_fresh (r : ResolvedIdentifier) (data : option Obj)
  (w w' : World) (result : positive) :
  write r data w = (w', Ok result) ->
  heap w !! result = None /\ is_Some (heap w' !! result).
Proof.
  unfold write. destruct (writeable (definition r)); cbn [negb];
    [|discriminate].
  unfold mbind, M_bind, mret, M_ret, get_this, get_heap, put_heap, lift.
  cbn [this heap console].
  destruct (writer _ _ _) as [bytes res]. cbn [fst snd].
  set (wv := writeView (this w)).
  set (h1 := Buffer.set_view_bytes (heap w) wv bytes).
  assert (D1 : forall b, is_Some (heap w !! b) -> is_Some (h1 !! b)).
  { intros b Hb. unfold h1, Buffer.set_view_bytes.
    destruct (decide (Buffer.buffer wv = b)) as [->|Hne];
      [rewrite lookup_insert_eq; eauto|rewrite lookup_insert_ne; auto]. }
  destruct res as [e|len]; cbn [of_call]; [discriminate|].
  unfold Buffer.setUint16_le at 1.
  destruct (_ || _); [discriminate|]. cbn [this heap console].
  set (h2 := <[Buffer.buffer wv := _]> h1).
  unfold Buffer.setUint16_le.
  destruct (_ || _); [discriminate|]. cbn [this heap console].
  set (h3 := <[Buffer.buffer wv := _]> h2).
  assert (D3 : forall b, is_Some (heap w !! b) -> is_Some (h3 !! b)).
  { intros b Hb. apply D1 in Hb. unfold h3, h2.
    destruct (decide (Buffer.buffer wv = b)) as [->|Hne];
      [rewrite lookup_insert_eq; eauto|rewrite !lookup_insert_ne; auto]. }
  unfold Buffer.allocUnsafe. destruct (len <? 0); [discriminate|].
  cbn [this heap console]. unfold Buffer.copy.
  destruct (_ || _); [discriminate|]. cbn [this heap console].
  intros [= <- <-]. cbn [heap]. split.
  - destruct (heap w !! fresh (dom h3)) eqn:Hold; [|reflexivity].
    destruct (D3 (fresh (dom h3))) as [bs Hbs]; [eauto|].
    rewrite fresh_block in Hbs. discriminate.
  - rewrite lookup_insert_eq. eauto.
Qed.

(** X23.  [parse] writes to the read scratch region and nowhere else: the
    engine and the log are as they were, and every other block of the
    heap, the input buffer (unless it is the scratch region itself), the
    write scratch region and the buffers handed out earlier among them,
    holds the bytes it held.  This is so whether [parse] returns, refuses a
    deprecated definition or passes on an exception of the reader. *)
Theorem parse_frame (r : ResolvedIdentifier) (buffer : positive) (w : World) :
  this (parse r buffer w).1 = this w
  /\ console (parse r buffer w).1 = console w
  /\ forall b,
      b <> readBuffer (this w) ->
      heap (parse r buffer w).1 !! b = heap w !! b.
Proof.
  destruct (parse_world r buffer w) as (h' & -> & Hframe).
  split; [reflexivity|]. split; [reflexivity|exact Hframe].
Qed.

(** X24.  [write] writes to the block of the write view and to the buffer
    it returns, which is new, and nowhere else: the engine and the log are
    as they were, and every other block the heap held, the read scratch
    region and the buffers handed out earlier among them, holds the bytes
    it held, however the call ends. *)
Theorem write_frame (r : ResolvedIdentifier) (data : option Obj) (w : World) :
  this (write r data w).1 = this w
  /\ console (write r data w).1 = console w
  /\ (forall b,
        b <> Buffer.buffer (writeView (this w)) ->
        is_Some (heap w !! b) ->
        heap (write r data w).1 !! b = heap w !! b)
  /\ forall result,
      (write r data w).2 = Ok result ->
      heap w !! result = None
      /\ is_Some (heap (write r data w).1 !! result).
Proof.
  destruct (write_world r data w) as (h' & Hw & Hframe).
  rewrite Hw. split; [reflexivity|]. split; [reflexivity|].
  split; [exact Hframe|]. intros result Hres. rewrite <- Hw.
  apply (write_fresh r data w). rewrite <- Hres.
  destruct (write r data w). reflexivity.
Qed.

(** X25.  A buffer that [write] has returned stays as it is: no later
    [write] and no later [parse] changes its bytes, and no later [write]
    returns the same buffer again. *)
Theorem written_buffer_survives (r : ResolvedIdentifier) (data : option Obj)
  (w w1 : World) (result : positive) :
  scratch_ok (this w) (heap w) ->
  write r data w = (w1, Ok result) ->
  (forall r' data',
      Buffer.contents (heap (write r' data' w1).1) result
      = Buffer.contents (heap w1) result)
  /\ (forall r' buffer,
        Buffer.contents (heap (parse r' buffer w1).1) result
        = Buffer.contents (heap w1) result)
  /\ (forall r' data' w2 result',
        write r' data' w1 = (w2, Ok result') -> result' <> result).
Proof.
  intros Hs Hw.
  destruct (write_fresh _ _ _ _ _ Hw) as [Hnew Hnow].
  destruct (write_world r data w) as (h1 & Hw1 & _).
  rewrite Hw in Hw1. cbn [fst] in Hw1. subst w1. cbn [heap this] in *.
  destruct Hs as (_ & Hrb & Hwb & Hwv & _).
  assert (Hr : result <> readBuffer (this w)).
  { intros ->. destruct (length_some (heap w) (readBuffer (this w)))
      as [bs Hbs]; [lia|congruence]. }
  assert (Hwne : result <> Buffer.buffer (writeView (this w))).
  { rewrite Hwv. cbn [Buffer.buffer]. intros ->.
    destruct (length_some (heap w) (writeBuffer (this w)))
      as [bs Hbs]; [lia|congruence]. }
  split; [|split].
  - intros r' data'.
    destruct (write_world r' data' (mkWorld (this w) h1 (console w)))
      as (h2 & -> & Hframe).
    cbn [heap this] in *. unfold Buffer.contents.
    rewrite (Hframe result Hwne Hnow). reflexivity.
  - intros r' buffer.
    destruct (parse_world r' buffer (mkWorld (this w) h1 (console w)))
      as (h2 & -> & Hframe).
    cbn [heap this] in *. unfold Buffer.contents.
    rewrite (Hframe result Hr). reflexivity.
  - intros r' data' w2 result' Hw2 ->.
    destruct (write_fresh _ _ _ _ _ Hw2) as [Hnew2 _]. cbn [heap] in Hnew2.
    destruct Hnow as [bs Hbs]. congruence.
Qed.

(** X26.  What [parse] hands to a reader is a window on the read scratch
    region, which the next [parse] overwrites: after a second [parse] of
    an input at least as long, the view the first reader was handed shows
    the first bytes of the second input. *)
Theorem read_view_is_overwritten (r1 r2 : ResolvedIdentifier)
  (a b : positive) (w : World) :
  scratch_ok (this w) (heap w) ->
  readable (definition r1) = true ->
  readable (definition r2) = true ->
  let first := Buffer.contents (heap w) a in
  let w1 := (parse r1 a w).1 in
  let second := Buffer.contents (heap w1) b in
  let w2 := (parse r2 b w1).1 in
  (List.length first <= List.length second)%nat ->
  Z.of_nat (List.length second) <= 0x10000 ->
  exists view,
    Js.array_get (readViews (this w)) (Z.of_nat (List.length first))
    = Some view
    /\ Buffer.view_bytes (heap w1) view = first
    /\ Buffer.view_bytes (heap w2) view = take (List.length first) second.
Proof.
  intros Hs Hr1 Hr2 first w1 second w2 Hle Hmax.
  destruct (parse_cases r1 a w Hs Hr1) as (h1 & Hw1 & _ & Hfit1 & _).
  destruct (parse_keeps_scratch r1 a w Hs) as [Hthis1 Hs1].
  fold w1 in Hw1, Hthis1, Hs1. rewrite <- Hthis1 in Hs1.
  destruct (parse_cases r2 b w1 Hs1 Hr2) as (h2 & Hw2 & _ & Hfit2 & _).
  fold w2 in Hw2. fold second in Hfit2.
  destruct Hfit1 as (Hview1 & Hbytes1 & _); [fold first; lia|].
  destruct Hfit2 as (_ & Hbytes2 & _); [lia|].
  fold first in Hview1, Hbytes1.
  exists (Buffer.mkDataView (readBuffer (this w)) 0 (Z.of_nat (List.length first))).
  split; [exact Hview1|].
  rewrite Hw1, Hw2. cbn [heap]. split; [exact Hbytes1|].
  rewrite Hthis1 in Hbytes2. unfold Buffer.view_bytes in *.
  cbn [Buffer.byteLength Buffer.byteOffset Buffer.buffer] in *.
  rewrite <- Hbytes2, take_take, Nat2Z.id.
  f_equal. rewrite Nat2Z.id. lia.
Qed.

(** X27.  The header of a written packet holds its numbers modulo 65536.
    For a writer that returns an end offset from 4 up to the size of the
    scratch region, the first two bytes of the returned buffer spell its
    length exactly when the length is below 65536: a packet that fills the
    whole region is 65536 bytes long and announces a length of 0.  The
    next two bytes spell the opcode exactly when it lies between 0 and
    65535. *)
Theorem write_header_wraps (r : ResolvedIdentifier) (data : option Obj)
  (w : World) (bytes : list Buffer.byte) (len : Z) :
  scratch_ok (this w) (heap w) ->
  writeable (definition r) = true ->
  writer (definition r) (Buffer.view_bytes (heap w) (writeView (this w)))
    (default emptyObj data) = (bytes, inr len) ->
  List.length bytes = Z.to_nat 0x10000 ->
  4 <= len <= 0x10000 ->
  exists result w',
    write r data w = (w', Ok result)
    /\ let packet := Buffer.contents (heap w') result in
       Z.of_nat (List.length packet) = len
       /\ Buffer.read_uint16_le packet = Some (len mod 0x10000)
       /\ Buffer.read_uint16_le (drop 2 packet) = Some (code r mod 0x10000)
       /\ (Buffer.read_uint16_le packet = Some len <-> len < 0x10000)
       /\ (len = 0x10000 -> Buffer.read_uint16_le packet = Some 0)
       /\ (Buffer.read_uint16_le (drop 2 packet) = Some (code r)
           <-> 0 <= code r < 0x10000).
Proof.
  intros Hs Hw Hwriter Hbytes Hlen.
  pose proof (write_runs r data w bytes len Hs Hw Hwriter Hbytes
                ltac:(lia)) as Hrun.
  cbv zeta in Hrun. eexists _, _. split; [exact Hrun|].
  cbn [heap]. rewrite contents_insert_eq.
  set (rest := drop 4 bytes).
  assert (Hrest : (Z.to_nat len - 4 <= List.length rest)%nat).
  { unfold rest. rewrite length_drop. lia. }
  assert (Hpacket : take (Z.to_nat len)
                      (Buffer.uint16_le len ++ Buffer.uint16_le (code r) ++ rest)
                    = Buffer.uint16_le len ++ Buffer.uint16_le (code r)
                      ++ take (Z.to_nat len - 4) rest).
  { unfold Buffer.uint16_le. cbn [app].
    destruct (Z.to_nat len) as [|[|[|[|k]]]] eqn:Hk; try lia.
    cbn [take]. repeat f_equal. lia. }
  rewrite Hpacket. cbv zeta.
  assert (Hl : Buffer.read_uint16_le
                 (Buffer.uint16_le len ++ Buffer.uint16_le (code r)
                  ++ take (Z.to_nat len - 4) rest) = Some (len mod 0x10000))
    by apply read_uint16_le_spec.
  assert (Hc : Buffer.read_uint16_le
                 (drop 2 (Buffer.uint16_le len ++ Buffer.uint16_le (code r)
                          ++ take (Z.to_nat len - 4) rest))
               = Some (code r mod 0x10000))
    by apply (read_uint16_le_spec (code r)).
  rewrite Hl, Hc.
  split.
  { rewrite !length_app, length_take. unfold Buffer.uint16_le.
    cbn [List.length]. lia. }
  split; [reflexivity|]. split; [reflexivity|].
  split.
  { split.
    - intros [= Hmod]. pose proof (Z.mod_pos_bound len 0x10000). lia.
    - intros Hlt. rewrite Z.mod_small by lia. reflexivity. }
  split; [intros ->; reflexivity|].
  split.
  - intros [= Hmod]. pose proof (Z.mod_pos_bound (code r) 0x10000). lia.
  - intros Hlt. rewrite Z.mod_small by lia. reflexivity.
Qed.

End Engine.

Arguments mkDefinition {Obj}.
Arguments ident {Obj}.
Arguments reader {Obj}.
Arguments writer {Obj}.
Arguments cloner {Obj}.
Arguments readable {Obj}.
Arguments writeable {Obj}.
Arguments Compiled {Obj Layout}.
Arguments Structural {Obj Layout}.
Arguments messages {Obj}.
Arguments loaded {Obj}.
Arguments writeView {Obj}.
Arguments mkWorld {Obj}.
Arguments this {Obj}.
Arguments heap {Obj}.
Arguments console {Obj}.
Arguments mkResolvedIdentifier {Obj}.
Arguments code {Obj}.
Arguments latest_version {Obj}.
Arguments definition {Obj}.
Arguments _assignDeprecationFlags {Obj}.
Arguments loadDefaultBundle {Obj Layout}.
Arguments loadCustomDefinitions {Obj Layout}.
Arguments resolveIdentifier {Obj}.
Arguments parse {Obj}.
Arguments write {Obj}.
Arguments registered {Obj}.
Arguments is_max_key {Obj}.
Arguments scratch_ok {Obj}.
Arguments flags_sound {Obj}.
Arguments inverse_codec {Obj}.

Arguments deprecationData {Obj}.
Arguments lowestDefaultDefVersions {Obj}.
Arguments set_lowestDefaultDefVersions {Obj}.
Arguments readBuffer {Obj}.
Arguments readViews {Obj}.
Arguments addDefinition {Obj Layout}.
Arguments loadCustomFile {Obj Layout}.
Arguments outdated {Obj}.
Arguments isDefaultDefinition {Obj}.
Arguments isCustomDefinition {Obj}.

(** ** A sample engine *)

(** Messages that carry one byte, written at offset 4. *)
Definition sample_definition : Definition_ Buffer.byte :=
  mkDefinition 1
    (fun view =>
       match view with
       | Some (_ :: _ :: _ :: _ :: b :: _) => inr b
       | _ => inl "reader: out of range"
       end)
    (fun view x => (Buffer.splice 4 [x] view, inr 5))
    (fun x => inr x)
    true true.

Definition sample_uninit (b : positive) (i : Z) : Buffer.byte := Byte.x00.

(** Every file has an object of its own, with the routines of
    [sample_definition]; the layout of a [.def] file is its path. *)
Definition sample_object (file : string) : Definition_ Buffer.byte :=
  mkDefinition (encode file) (reader sample_definition)
    (writer sample_definition) (cloner sample_definition) true true.

Definition sample_compile (l : string) : string + Definition_ Buffer.byte :=
  inr (sample_object l).

Definition sample_defParser (file : string) (data : option string)
  : string + option (DefObject Buffer.byte string) :=
  inr (Some (Structural file)).

Definition sample_requireStr (data file : string)
  : string + option (DefObject Buffer.byte string) :=
  inr (Some (Compiled (sample_object file))).

Definition sample_require (file : string)
  : string + option (DefObject Buffer.byte string) :=
  inr (Some (Compiled (sample_object file))).

Definition sample_path_join (a b : string) : string :=
  String.append a (String.append "/" b).

Definition sample_map : ProtocolMap :=
  mkProtocolMap {[ "S_PING" := 1000 ]} {[ 1000 := "S_PING" ]}.

(** [new TeraProtocol("EU", major, 0, sample_map)] on an empty heap. *)
Definition boot (major : Z) : Outcome (World Buffer.byte) :=
  '(p, h) ← constructor Buffer.byte sample_uninit "EU" major 0 sample_map None ∅;
  Ok (mkWorld p h []).

Definition sample_loadDefaultBundle (data : Bundle) : M Buffer.byte unit :=
  loadDefaultBundle sample_compile sample_defParser
    sample_requireStr (fun s => s) data.

Definition sample_loadCustomDefinitions (files : list string)
  : M Buffer.byte unit :=
  loadCustomDefinitions sample_compile sample_defParser
    sample_require (fun _ => inr files) sample_path_join "definitions".

(** The flags of the definition an identifier resolves to. *)
Definition flags_of (w : World Buffer.byte) (identifier : Identifier)
  (request : VersionRequest) : Outcome (bool * bool) :=
  r ← resolveIdentifier (this w) identifier request;
  Ok (readable (definition r), writeable (definition r)).

Lemma boot_explicit (major : Z) :
  exists rb views wb h,
    boot major
    = Ok (mkWorld
            (mkTeraProtocol Buffer.byte "EU" major 0 "pc" sample_map ∅ rb views
               wb (Buffer.mkDataView wb 0 0x10000) false None None None)
            h [])
    /\ scratch_ok
         (mkTeraProtocol Buffer.byte "EU" major 0 "pc" sample_map ∅ rb views
            wb (Buffer.mkDataView wb 0 0x10000) false None None None) h.
Proof.
  destruct (constructor_ok Buffer.byte sample_uninit "EU" major 0 sample_map
              None ∅) as (rb & views & wb & h & Hc & Hs & _).
  { cbn. apply list_elem_of_here. }
  exists rb, views, wb, h. unfold boot. rewrite Hc. split; [reflexivity|exact Hs].
Qed.

(** An engine spelled out, for the properties that concern the registry
    and the tables only. *)
Definition sample_engine (major : Z)
  (registry : gmap string (gmap Z (Definition_ Buffer.byte)))
  (table : gmap string (gmap Z DeprecationEntry)) : TeraProtocol Buffer.byte :=
  mkTeraProtocol Buffer.byte "EU" major 0 "pc" sample_map registry 1%positive
    (Js.new_Array 0x10000) 2%positive (Buffer.mkDataView 2 0 0x10000) true
    (Some ∅) (Some table) (Some ∅).

Definition sample_resolved : ResolvedIdentifier Buffer.byte :=
  mkResolvedIdentifier "S_PING" 1000 (Some (Js.Num 1))
    (Some (Js.Num 1)) (sample_object "S_PING.1.def").

Lemma sample_inverse : inverse_codec (sample_object "S_PING.1.def").
Proof.
  intros view x Hview.
  exists (Buffer.splice 4 [x] view), 5. split; [reflexivity|].
  split; [apply length_splice; cbn [List.length]; lia|].
  split; [lia|]. intros packet Hpacket Hdrop.
  change (Z.to_nat 5) with 5%nat in *.
  destruct packet as [|a [|b [|c [|d [|e [|f l]]]]]]; try discriminate.
  destruct view as [|v0 [|v1 [|v2 [|v3 [|v4 view]]]]];
    try (cbn [List.length] in Hview; lia).
  cbn in Hdrop. injection Hdrop as ->. reflexivity.
Qed.

(** *** File names *)

Example parse_plain_name :
  Filename.match_filename (Filename.basename "definitions/S_LOGIN.14.def")
  = Some (Filename.mkParsedName "S_LOGIN" 14 None Filename.def).
Proof. reflexivity. Qed.

Example parse_platform_name :
  Filename.match_filename (Filename.basename "C_CHAT.1.console.js")
  = Some (Filename.mkParsedName "C_CHAT" 1 (Some "console") Filename.js).
Proof. reflexivity. Qed.

Example parse_odd_names :
  Filename.match_filename
    <$> ["bar.txt"; "S_PING..def"; "S_PING.3.def.bak"; "S-PING.3.def";
         ".3.def"; "S_PING.3.pc.console.def"; "S_PING.v3.def"]
  = [None; None; None; None; None; None; None].
Proof. reflexivity. Qed.

(** *** C1 *)

Definition bundle_deprecated : Bundle :=
  mkBundle [("S_PING.1.def", ""); ("S_PONG.1.def", "")]
    (Some {[ "S_PING" := {[ 1 := mkDeprecationEntry (Some 10) (Some 20) None ]};
             "S_PONG" := {[ 1 := mkDeprecationEntry None None (Some true) ]} ]}).

(** C1 fails on the code.  At major patch version 5, an entry with bounds 10
    and 20 has the patch version strictly outside its interval, and the
    definition is registered writeable all the same; an entry without
    bounds has no patch version outside its interval, and the definition is
    registered not writeable. *)
Lemma deprecation_flags_counterexample :
  strictly_outside 5 (mkDeprecationEntry (Some 10) (Some 20) None)
  /\ ~ strictly_outside 5 (mkDeprecationEntry None None (Some true))
  /\ match boot 5 return Prop with
     | Ok w =>
         (sample_loadDefaultBundle bundle_deprecated w).2 = Ok tt
         /\ (let w1 := (sample_loadDefaultBundle bundle_deprecated w).1 in
             writeable <$> registered (this w1) "S_PING" 1 = Some true
             /\ writeable <$> registered (this w1) "S_PONG" 1 = Some false
             /\ readable <$> registered (this w1) "S_PONG" 1 = Some true)
     | Throw _ => False
     end.
Proof.
  split; [left; exists 10; split; [reflexivity|lia]|].
  split.
  { intros [(m & Hm & _)|(m & Hm & _)]; discriminate. }
  destruct (boot_explicit 5) as (rb & views & wb & h & -> & _).
  vm_compute. repeat split.
Qed.

Lemma assignDeprecationFlags_flags_witness :
  exists d',
    _assignDeprecationFlags
      (sample_engine 5 ∅
         {[ "S_PING" := {[ 1 := mkDeprecationEntry None (Some 3) None ]} ]})
      "S_PING" 1 sample_definition = Ok d'
    /\ writeable d' = false /\ readable d' = false.
Proof.
  destruct (assignDeprecationFlags_flags Buffer.byte
              (sample_engine 5 ∅
                 {[ "S_PING" := {[ 1 := mkDeprecationEntry None (Some 3) None ]} ]})
              {[ "S_PING" := {[ 1 := mkDeprecationEntry None (Some 3) None ]} ]}
              "S_PING" 1 sample_definition eq_refl)
    as (d' & Hrun & _ & _ & _ & Hdep & _).
  exists d'. split; [exact Hrun|].
  apply (Hdep (mkDeprecationEntry None (Some 3) None)); [reflexivity|].
  split; intros m Hm; [discriminate|]. injection Hm as <-. cbn. lia.
Defined.

(** *** C3 *)

Definition bundle_v3 : Bundle := mkBundle [("S_PING.3.def", "")] None.

(** C3 fails on the code.  With version 3 the only one registered, version
    0 is absent and lower than the latest version, and the resolution fails
    with NotFound. *)
Lemma resolve_version_0_counterexample :
  match boot 5 return Prop with
  | Ok w =>
      (sample_loadDefaultBundle bundle_v3 w).2 = Ok tt
      /\ (let p := this (sample_loadDefaultBundle bundle_v3 w).1 in
          writeable <$> registered p "S_PING" 3 = Some true
          /\ writeable <$> registered p "S_PING" 0 = None
          /\ (latest_version <$> resolveIdentifier p (IdString "S_PING") Latest)
             = Ok (Some (Js.Num 3))
          /\ 0 < 3
          /\ (code <$> resolveIdentifier p (IdString "S_PING") (Exact 0))
             = Throw (NotFound NoDefinition))
  | Throw _ => False
  end.
Proof.
  destruct (boot_explicit 5) as (rb & views & wb & h & -> & _).
  vm_compute. repeat split.
Qed.

Lemma resolveIdentifier_without_definition_witness :
  resolveIdentifier
    (sample_engine 5 {[ "S_PING" := {[ 3 := sample_definition ]} ]} ∅)
    (IdString "S_PING") (Exact 2) = Throw Outdated.
Proof.
  destruct (resolveIdentifier_without_definition Buffer.byte
              (sample_engine 5 {[ "S_PING" := {[ 3 := sample_definition ]} ]} ∅)
              (IdString "S_PING") "S_PING" 1000 (conj eq_refl eq_refl))
    as (_ & Hexact & _).
  destruct (Hexact {[ 3 := sample_definition ]} 2 eq_refl eq_refl) as [Hout _].
  apply (Hout 3); try lia.
  split; [exists sample_definition; reflexivity|].
  intros k [d Hk]. destruct (decide (k = 3)) as [->|Hne]; [lia|].
  rewrite lookup_singleton_ne in Hk by congruence. discriminate.
Defined.

(** *** C7 *)

Definition bundle_pong : Bundle := mkBundle [("S_PONG.3.def", "")] None.

(** C7 fails on the code.  A name with a registered version that the opcode
    map does not know does not resolve. *)
Lemma resolve_unmapped_counterexample :
  match boot 5 return Prop with
  | Ok w =>
      (sample_loadDefaultBundle bundle_pong w).2 = Ok tt
      /\ (let p := this (sample_loadDefaultBundle bundle_pong w).1 in
          writeable <$> registered p "S_PONG" 3 = Some true
          /\ (code <$> resolveIdentifier p (IdString "S_PONG") Latest)
             = Throw (NotFound CodeNotKnown))
  | Throw _ => False
  end.
Proof.
  destruct (boot_explicit 5) as (rb & views & wb & h & -> & _).
  vm_compute. repeat split.
Qed.

Lemma resolveIdentifier_latest_witness :
  exists l d,
    is_max_key {[ 3 := sample_definition; 1 := sample_definition ]} l
    /\ resolveIdentifier
         (sample_engine 5
            {[ "S_PING" := {[ 3 := sample_definition; 1 := sample_definition ]} ]}
            ∅)
         (IdString "S_PING") Latest
       = Ok (mkResolvedIdentifier "S_PING" 1000 (Some (Js.Num l))
               (Some (Js.Num l)) d).
Proof.
  assert (Hvs : messages
                  (sample_engine 5
                     {[ "S_PING" := {[ 3 := sample_definition;
                                       1 := sample_definition ]} ]} ∅)
                !! "S_PING"
                = Some {[ 3 := sample_definition; 1 := sample_definition ]})
    by apply lookup_singleton_eq.
  assert (Hv : ({[ 3 := sample_definition; 1 := sample_definition ]}
                  : gmap Z (Definition_ Buffer.byte)) !! 1
               = Some sample_definition).
  { rewrite lookup_insert_ne by lia. apply lookup_singleton_eq. }
  destruct (resolveIdentifier_latest Buffer.byte
              (sample_engine 5
                 {[ "S_PING" := {[ 3 := sample_definition;
                                   1 := sample_definition ]} ]} ∅)
              (IdString "S_PING") "S_PING" 1000
              {[ 3 := sample_definition; 1 := sample_definition ]}
              1 sample_definition (conj eq_refl eq_refl) Hvs Hv)
    as [(l & d & Hmax & _ & Hrun) _].
  exists l, d. split; [exact Hmax|exact Hrun].
Defined.

(** *** C5 and C9 *)

Lemma boot_write_view (w : World Buffer.byte) :
  scratch_ok (this w) (heap w) ->
  List.length (Buffer.view_bytes (heap w) (writeView (this w)))
  = Z.to_nat 0x10000.
Proof.
  intros (_ & _ & Hwb & Hwv & _). rewrite Hwv.
  unfold Buffer.view_bytes, Buffer.length in *.
  cbn [Buffer.byteLength Buffer.byteOffset Buffer.buffer].
  rewrite length_take, length_drop. lia.
Qed.

Lemma write_result_witness :
  match boot 5 return Prop with
  | Ok w =>
      exists result w',
        write Byte.x00 sample_uninit sample_resolved
          (Some Byte.x41) w = (w', Ok result)
        /\ heap w !! result = None
        /\ Buffer.length (heap w') result = 5
        /\ take 4 (Buffer.contents (heap w') result)
           = [Byte.x05; Byte.x00; Byte.xe8; Byte.x03]
  | Throw _ => False
  end.
Proof.
  destruct (boot_explicit 5) as (rb & views & wb & h & -> & Hs).
  set (w := mkWorld _ h []).
  assert (Hview : List.length (Buffer.view_bytes (heap w) (writeView (this w)))
                  = Z.to_nat 0x10000).
  { destruct Hs as (_ & _ & Hwb & _). unfold Buffer.view_bytes, Buffer.length in *.
    cbn [w this heap writeView writeBuffer Buffer.byteLength Buffer.byteOffset
         Buffer.buffer] in *.
    rewrite length_take, length_drop. lia. }
  destruct (write_result Buffer.byte Byte.x00 sample_uninit sample_resolved
              (Some Byte.x41) w
              (Buffer.splice 4 [Byte.x41]
                 (Buffer.view_bytes (heap w) (writeView (this w))))
              5 Hs eq_refl eq_refl)
    as (result & w' & Hrun & _ & _ & Hfresh & _ & _ & _ & _ & _ & _ & Hlen
        & _ & _ & _ & _ & _ & Hhead).
  { rewrite length_splice; [exact Hview|]. cbn [List.length]. lia. }
  { lia. }
  exists result, w'. split; [exact Hrun|]. split; [exact Hfresh|].
  split; [exact Hlen|]. apply Hhead. lia.
Defined.

(** A definition whose writer fills the whole scratch region. *)
Definition full_definition : Definition_ Buffer.byte :=
  mkDefinition 2 (reader sample_definition)
    (fun view _ => (view, inr 0x10000)) (cloner sample_definition) true true.

(** C5 fails on the code for a packet that fills the write scratch region.
    The writer of [full_definition] returns the end offset 65536, which is
    within the region; [write] returns a buffer of 65536 bytes whose first
    two bytes spell 0, not the length: [setUint16] keeps the low 16 bits of
    what it is given. *)
Lemma write_full_region_counterexample :
  match boot 5 return Prop with
  | Ok w =>
      exists result w',
        write Byte.x00 sample_uninit
          (mkResolvedIdentifier "S_PING" 1000 (Some (Js.Num 1))
             (Some (Js.Num 1)) full_definition) None w
        = (w', Ok result)
        /\ Buffer.length (heap w') result = 0x10000
        /\ Buffer.read_uint16_le (Buffer.contents (heap w') result) = Some 0
        /\ Buffer.read_uint16_le (Buffer.contents (heap w') result)
           <> Some (Buffer.length (heap w') result)
  | Throw _ => False
  end.
Proof.
  destruct (boot_explicit 5) as (rb & views & wb & h & -> & Hs).
  set (w := mkWorld _ h []).
  set (r := mkResolvedIdentifier "S_PING" 1000 (Some (Js.Num 1))
              (Some (Js.Num 1)) full_definition).
  pose proof (boot_write_view w Hs) as Hview.
  pose proof (write_runs Buffer.byte Byte.x00 sample_uninit r None w
                (Buffer.view_bytes (heap w) (writeView (this w))) 0x10000
                Hs eq_refl eq_refl Hview ltac:(lia)) as Hrun.
  cbv zeta in Hrun. eexists _, _. split; [exact Hrun|].
  cbn [heap]. unfold Buffer.length. rewrite !contents_insert_eq.
  set (rest := Buffer.uint16_le (code r)
               ++ drop 4 (Buffer.view_bytes (heap w) (writeView (this w)))).
  assert (Hrest : List.length rest = (Z.to_nat 0x10000 - 2)%nat).
  { unfold rest. rewrite length_app, length_drop, Hview. cbn. lia. }
  assert (Hpacket : take (Z.to_nat 0x10000) (Buffer.uint16_le 0x10000 ++ rest)
                    = Buffer.uint16_le 0x10000 ++ rest).
  { apply take_ge. rewrite length_app, Hrest. cbn. lia. }
  rewrite Hpacket.
  assert (Hhead : Buffer.read_uint16_le (Buffer.uint16_le 0x10000 ++ rest)
                  = Some 0) by apply (read_uint16_le_spec 0x10000).
  split; [rewrite length_app, Hrest; cbn; lia|].
  split; [exact Hhead|].
  rewrite Hhead, length_app, Hrest. cbn. discriminate.
Qed.

Definition bundle_ping : Bundle := mkBundle [("S_PING.1.def", "")] None.

Lemma write_then_parse_witness :
  match boot 5 return Prop with
  | Ok w =>
      let w1 := (sample_loadDefaultBundle bundle_ping w).1 in
      exists result w2 w3,
        write Byte.x00 sample_uninit sample_resolved
          (Some Byte.x41) w1 = (w2, Ok result)
        /\ parse sample_resolved result w2 = (w3, Ok Byte.x41)
  | Throw _ => False
  end.
Proof.
  destruct (boot_explicit 5) as (rb & views & wb & h & -> & Hs).
  set (w := mkWorld _ h []). cbv zeta.
  set (w1 := (sample_loadDefaultBundle bundle_ping w).1).
  assert (Hs1 : scratch_ok (this w1) (heap w1)).
  { apply (scratch_ok_same_buffers _ w); [|exact Hs].
    apply loadDefaultBundle_same_buffers. }
  assert (Hf1 : flags_sound (this w1)).
  { apply (flags_sound_entries _ w); [apply loadDefaultBundle_sound|].
    intros n v d Hd. discriminate. }
  assert (Hr : resolveIdentifier (this w1) (IdString "S_PING") Latest
               = Ok sample_resolved) by (vm_compute; reflexivity).
  exact (proj1 (write_then_parse Buffer.byte Byte.x00 sample_uninit
                  (IdString "S_PING") Latest sample_resolved Byte.x41 w1
                  Hs1 Hf1 Hr sample_inverse) eq_refl).
Defined.

Definition bundle_empty : Bundle := mkBundle [] None.

(** *** C4 and C6 *)

(** A definition that tells the file it was loaded from: every file has an
    object of its own, whose cloner answers with the path. *)
Definition definition_from (file : string) : Definition_ Buffer.byte :=
  mkDefinition (encode file) (reader sample_definition)
    (writer sample_definition) (fun _ => inl file) true true.

Definition traced_loadCustomDefinitions (files : list string)
  : M Buffer.byte unit :=
  loadCustomDefinitions
    (fun file : string => inr (definition_from file))
    (fun file _ => inr (Some (Structural file)))
    (fun file => inr (Some (Compiled (definition_from file))))
    (fun _ => inr files) sample_path_join "definitions".

(** The file the registered definition of a message came from. *)
Definition origin (w : World Buffer.byte) (n : string) (v : Z)
  : option string :=
  d ← registered (this w) n v;
  match cloner d Byte.x00 with
  | inl file => Some file
  | inr _ => None
  end.

(** The build for the engine's platform is the one registered, whichever
    file the directory lists first; the build for another platform is not
    registered; of two builds without a platform the first one stays. *)
Example platform_precedence :
  match boot 5 return Prop with
  | Ok w =>
      let w0 := (sample_loadDefaultBundle bundle_empty w).1 in
      let after files := (traced_loadCustomDefinitions files w0).1 in
      origin (after ["S_PING.3.def"; "S_PING.3.pc.js"]) "S_PING" 3
      = Some "definitions/S_PING.3.pc.js"
      /\ origin (after ["S_PING.3.pc.js"; "S_PING.3.def"]) "S_PING" 3
         = Some "definitions/S_PING.3.pc.js"
      /\ origin (after ["S_PING.3.def"; "S_PING.3.console.js"]) "S_PING" 3
         = Some "definitions/S_PING.3.def"
      /\ origin (after ["S_PING.3.def"; "S_PING.3.js"]) "S_PING" 3
         = Some "definitions/S_PING.3.def"
  | Throw _ => False
  end.
Proof.
  destruct (boot_explicit 5) as (rb & views & wb & h & -> & _).
  vm_compute. repeat split.
Qed.

Definition bundle_v7 : Bundle := mkBundle [("S_PING.7.def", "")] None.

(** With version 7 the lowest bundled one, the custom version 5 is skipped
    and logged, the versions 0 and 9 are registered. *)
Example stale_versions :
  match boot 5 return Prop with
  | Ok w =>
      let w0 := (sample_loadDefaultBundle bundle_v7 w).1 in
      let r :=
        traced_loadCustomDefinitions
          ["S_PING.5.def"; "S_PING.0.def"; "S_PING.9.def"] w0 in
      r.2 = Ok tt
      /\ origin r.1 "S_PING" 5 = None
      /\ origin r.1 "S_PING" 0 = Some "definitions/S_PING.0.def"
      /\ origin r.1 "S_PING" 9 = Some "definitions/S_PING.9.def"
      /\ console r.1 = [(debug, SkippedOutdatedDef "S_PING" 5)]
  | Throw _ => False
  end.
Proof.
  destruct (boot_explicit 5) as (rb & views & wb & h & -> & _).
  vm_compute. repeat split.
Qed.

(** One object under two names.  Both files of the directory export the
    same object; the table retires version 1 of [S_PING] at every patch
    version and knows nothing of [S_PONG]. *)
Definition shared_object : Definition_ Buffer.byte :=
  mkDefinition 7 (reader sample_definition) (writer sample_definition)
    (cloner sample_definition) true true.

Definition shared_loadCustomDefinitions (files : list string)
  : M Buffer.byte unit :=
  loadCustomDefinitions sample_compile sample_defParser
    (fun _ => inr (Some (Compiled shared_object)))
    (fun _ => inr files) sample_path_join "definitions".

Definition table_unbounded : gmap string (gmap Z DeprecationEntry) :=
  {[ "S_PING" := {[ 1 := mkDeprecationEntry None None None ]} ]}.

(** The registration of the object under [S_PONG] makes it writeable under
    [S_PING] as well.  A second run registers it under [S_PING] again, the
    file with the tag, and passes the file without a tag over: the object
    ends up retired under both names. *)
Example shared_object_flags :
  let w0 := mkWorld (sample_engine 5 ∅ table_unbounded) ∅ [] in
  let files := ["S_PING.1.pc.js"; "S_PONG.1.js"] in
  let w1 := (shared_loadCustomDefinitions files w0).1 in
  let w2 := (shared_loadCustomDefinitions files w1).1 in
  writeable <$> registered (this w1) "S_PING" 1 = Some true
  /\ writeable <$> registered (this w1) "S_PONG" 1 = Some true
  /\ writeable <$> registered (this w2) "S_PING" 1 = Some false
  /\ writeable <$> registered (this w2) "S_PONG" 1 = Some false.
Proof. vm_compute. repeat split. Qed.

Definition bundle_constructor : Bundle :=
  mkBundle [("constructor.3.def", "")] None.

(** C6 fails on the code, by a slip.  The table of lowest versions is an
    object literal, and [lowestDefaultDefVersions[name]] finds the
    properties of [Object.prototype] under their names.  With
    [constructor.3.def] the only bundled version of the message
    [constructor], the bundled default exists and is registered, and 3 is
    the lowest bundled version; yet the table holds [NaN] under the name,
    and the custom file [constructor.1.def], whose version is neither 0 nor
    as high as 3, is not skipped: nothing is logged and its definition is
    registered.  The same versions of [S_PING] are handled as the claim
    says: the table holds 3, the file is skipped and the skip is logged.
    The registry and the set of default definitions, a [Map] and a [Set],
    take the name [constructor] as any other. *)
Theorem stale_prototype_name :
  match boot 5 return Prop with
  | Ok w =>
      (let w0 := (sample_loadDefaultBundle bundle_constructor w).1 in
       let r := traced_loadCustomDefinitions ["constructor.1.def"] w0 in
       is_lowest_default
         [Filename.mkParsedName "constructor" 3 None Filename.def]
         "constructor" 3
       /\ is_Some (registered (this w0) "constructor" 3)
       /\ isDefaultDefinition (this w0) "constructor" 3 = Ok true
       /\ lowestDefaultDefVersions (this w0)
          = Some {[ "constructor" := Js.NaN ]}
       /\ r.2 = Ok tt
       /\ origin r.1 "constructor" 1 = Some "definitions/constructor.1.def"
       /\ console r.1 = [])
      /\ (let w0 := (sample_loadDefaultBundle bundle_v3 w).1 in
          let r := traced_loadCustomDefinitions ["S_PING.1.def"] w0 in
          lowestDefaultDefVersions (this w0) = Some {[ "S_PING" := Js.Int 3 ]}
          /\ r.2 = Ok tt
          /\ origin r.1 "S_PING" 1 = None
          /\ console r.1 = [(debug, SkippedOutdatedDef "S_PING" 1)])
  | Throw _ => False
  end.
Proof.
  destruct (boot_explicit 5) as (rb & views & wb & h & -> & _).
  split; [split|].
  - split.
    + eexists. split; [apply list_elem_of_here|]. split; reflexivity.
    + intros d Hd _. apply list_elem_of_singleton in Hd. subst d. cbn. lia.
  - vm_compute. split; [eexists; reflexivity|]. repeat split.
  - vm_compute. repeat split.
Qed.

(** *** C2 *)

Definition bundle_malformed : Bundle :=
  mkBundle [("S_PING.3.def", ""); ("bar.txt", "")] None.

(** C2 fails on the code, by a slip.  A bundle with the well-formed entry
    [S_PING.3.def] and the entry [bar.txt] makes [loadDefaultBundle] raise a
    [TypeError]: nothing is registered and the engine is not marked loaded.
    The same two names in the custom directory are handled as the claim
    says: the loader returns, logs the odd name and registers the
    definition. *)
Theorem loadDefaultBundle_malformed_name :
  match boot 5 return Prop with
  | Ok w =>
      (let r := sample_loadDefaultBundle bundle_malformed w in
       r.2 = Throw TypeError
       /\ messages (this r.1) = ∅
       /\ loaded (this r.1) = false)
      /\ (let w0 := (sample_loadDefaultBundle bundle_empty w).1 in
          let r := sample_loadCustomDefinitions ["S_PING.3.def"; "bar.txt"] w0 in
          r.2 = Ok tt
          /\ writeable <$> registered (this r.1) "S_PING" 3 = Some true
          /\ console r.1 = [(debug, SkippingPath "bar.txt")])
  | Throw _ => False
  end.
Proof.
  destruct (boot_explicit 5) as (rb & views & wb & h & -> & _).
  vm_compute. repeat split.
Qed.

(** *** Further properties *)

(** A loaded engine with nothing registered, on an empty heap. *)
Definition sample_world : World Buffer.byte :=
  mkWorld (sample_engine 5 ∅ ∅) ∅ [].

(** An engine as the constructor leaves it, spelled out: no table yet. *)
Definition unloaded_world : World Buffer.byte :=
  mkWorld
    (mkTeraProtocol Buffer.byte "EU" 5 0 "pc" sample_map ∅ 1%positive
       (Js.new_Array 0x10000) 2%positive (Buffer.mkDataView 2 0 0x10000) false
       None None None)
    ∅ [].

Lemma parsed_name_wellformed_witness :
  Filename.word_plus "S_PING" = true
  /\ 0 <= 3
  /\ (forall tag, Some "pc" = Some tag -> Filename.word_plus tag = true)
  /\ (parseDefinitionFilename Buffer.byte "S_PING.3.pc.js" sample_world).1
     = sample_world.
Proof.
  exact (parsed_name_wellformed Buffer.byte "S_PING.3.pc.js" sample_world
           (Filename.mkParsedName "S_PING" 3 (Some "pc") Filename.js) eq_refl).
Defined.

Lemma addDefinition_before_load_witness :
  exists w',
    addDefinition sample_compile "S_PING" 1 (Structural "S_PING.1.def") false
      unloaded_world
    = (w', Throw TypeError)
    /\ messages (this w') !! "S_PING" = Some ∅
    /\ registered (this w') "S_PING" 1 = None.
Proof.
  destruct (addDefinition_before_load Buffer.byte string sample_compile
              "S_PING" 1 (Structural "S_PING.1.def")
              (sample_object "S_PING.1.def") false
              unloaded_world eq_refl eq_refl (or_intror eq_refl))
    as (w' & Hrun & _ & _ & Htable & _ & Hsame).
  exists w'. split; [exact Hrun|]. split.
  - rewrite Htable. cbn [unloaded_world this messages].
    rewrite lookup_empty. cbn [default from_option id]. rewrite fmap_empty.
    reflexivity.
  - rewrite Hsame. reflexivity.
Defined.


Definition bundle_console : Bundle :=
  mkBundle [("S_PING.3.def", ""); ("S_PONG.2.console.js", "")] None.

(** The definition of another platform counts as a default one although
    it is not registered. *)
Lemma isDefaultDefinition_bundle_witness :
  exists b,
    isDefaultDefinition
      (this (sample_loadDefaultBundle bundle_console sample_world).1)
      "S_PONG" 2 = Ok b
    /\ b = true
    /\ registered (this (sample_loadDefaultBundle bundle_console sample_world).1)
         "S_PONG" 2 = None.
Proof.
  destruct (isDefaultDefinition_bundle Buffer.byte string sample_compile
              sample_defParser sample_requireStr (fun s => s) bundle_console
              sample_world "S_PONG" 2)
    as (b & Hb & _ & Hiff).
  { repeat constructor; eexists; reflexivity. }
  exists b. split; [exact Hb|]. split; [|reflexivity].
  apply Hiff.
  exists "S_PONG.2.console.js",
    (Filename.mkParsedName "S_PONG" 2 (Some "console") Filename.js).
  split; [|repeat split]. cbn. apply list_elem_of_further, list_elem_of_here.
Defined.

Lemma loadDefaultBundle_registry_witness :
  exists w',
    sample_loadDefaultBundle bundle_console sample_world = (w', Ok tt)
    /\ loaded (this w') = true.
Proof.
  destruct (loadDefaultBundle_registry Buffer.byte string sample_compile
              sample_defParser sample_requireStr (fun s => s) bundle_console
              sample_world)
    as (w' & Hrun & Hloaded & _).
  { repeat constructor; eexists; reflexivity. }
  { repeat constructor. }
  exists w'. split; [exact Hrun|exact Hloaded].
Defined.

Lemma loadDefaultBundle_malformed_key_witness :
  exists w',
    sample_loadDefaultBundle bundle_malformed sample_world
    = (w', Throw TypeError)
    /\ messages (this w') = messages (this sample_world)
    /\ loaded (this w') = loaded (this sample_world).
Proof.
  destruct (loadDefaultBundle_malformed_key Buffer.byte string sample_compile
              sample_defParser sample_requireStr (fun s => s) bundle_malformed
              "bar.txt" sample_world)
    as (w' & Hrun & Hm & Hl & _).
  { cbn. apply list_elem_of_further, list_elem_of_here. }
  { reflexivity. }
  exists w'. split; [exact Hrun|]. split; [exact Hm|exact Hl].
Defined.

(** A compiler that rejects everything. *)
Definition failing_compile (l : string) : string + Definition_ Buffer.byte :=
  inl "unknown type".

Lemma loadCustomDefinitions_returns_witness :
  exists w',
    loadCustomDefinitions failing_compile sample_defParser sample_require
      (fun _ => inr ["bar.txt"; "S_PING.3.def"; "S_PING.1.console.js"])
      sample_path_join "definitions" sample_world
    = (w', Ok tt).
Proof.
  apply (loadCustomDefinitions_returns Buffer.byte string failing_compile
           sample_defParser sample_require
           (fun _ => inr ["bar.txt"; "S_PING.3.def"; "S_PING.1.console.js"])
           sample_path_join "definitions"
           ["bar.txt"; "S_PING.3.def"; "S_PING.1.console.js"] ∅ ∅).
  - reflexivity.
  - reflexivity.
  - reflexivity.
  - intros file pn _ _. destruct (Filename.type pn); eexists; reflexivity.
Defined.

Lemma skipped_below_bundled_witness :
  outdated (Filename.mkParsedName "S_PING" 9 None Filename.def)
    (mkWorld
       (set_lowestDefaultDefVersions
          (lowest_versions [Filename.mkParsedName "S_PING" 7 None Filename.def])
          (sample_engine 5 ∅ ∅)) ∅ [])
  = (mkWorld
       (set_lowestDefaultDefVersions
          (lowest_versions [Filename.mkParsedName "S_PING" 7 None Filename.def])
          (sample_engine 5 ∅ ∅)) ∅ [], Ok false).
Proof.
  apply (skipped_below_bundled Buffer.byte
           [Filename.mkParsedName "S_PING" 7 None Filename.def]).
  - reflexivity.
  - intros d Hd _. apply list_elem_of_singleton in Hd. subst d. cbn. lia.
Defined.

Lemma loadCustomFile_changes_witness :
  exists pn,
    identity_of "S_PING.3.def" = Some pn
    /\ (Filename.platform pn = Some "pc"
        \/ (Filename.platform pn = None
            /\ registered (this sample_world) (Filename.name pn)
                 (Filename.version pn) = None)).
Proof.
  destruct (loadCustomFile_changes Buffer.byte string sample_compile
              sample_defParser sample_require sample_path_join "definitions"
              "S_PING.3.def" sample_world ∅ "S_PING" 3)
    as (pn & d & Hid & _ & Hslot & _).
  { reflexivity. }
  { vm_compute. discriminate. }
  exists pn. split; [exact Hid|exact Hslot].
Defined.

Lemma compile_failure_is_logged_witness :
  loadCustomFile failing_compile sample_defParser sample_require
    sample_path_join "definitions" "S_PING.3.def" sample_world
  = (mkWorld (this sample_world) (heap sample_world)
       (console sample_world
        ++ [(error, ErrorWhileCompiling "S_PING" 3);
            (error, Exception "unknown type")]), Ok tt).
Proof.
  exact (compile_failure_is_logged Buffer.byte string failing_compile
           sample_defParser sample_require sample_path_join "definitions"
           "S_PING.3.def" (Filename.mkParsedName "S_PING" 3 None Filename.def)
           "definitions/S_PING.3.def" "unknown type" sample_world eq_refl eq_refl eq_refl eq_refl
           eq_refl eq_refl).
Defined.

Lemma resolveIdentifier_sound_witness :
  names Buffer.byte
    (sample_engine 5 {[ "S_PING" := {[ 3 := sample_definition ]} ]} ∅)
    (IdNumber 1000) "S_PING" 1000
  /\ exists v l vs,
      Some (Js.Num 3) = Some (Js.Num v)
      /\ Some (Js.Num 3) = Some (Js.Num l)
      /\ messages
           (sample_engine 5 {[ "S_PING" := {[ 3 := sample_definition ]} ]} ∅)
         !! "S_PING" = Some vs
      /\ vs !! v = Some sample_definition
      /\ is_max_key vs l
      /\ v <= l
      /\ v = l.
Proof.
  apply (resolveIdentifier_sound Buffer.byte
           (sample_engine 5 {[ "S_PING" := {[ 3 := sample_definition ]} ]} ∅)
           (IdNumber 1000) Latest
           (mkResolvedIdentifier "S_PING" 1000 (Some (Js.Num 3))
              (Some (Js.Num 3)) sample_definition)).
  vm_compute. reflexivity.
Defined.

Lemma resolveIdentifier_name_or_code_witness :
  resolveIdentifier
    (sample_engine 5 {[ "S_PING" := {[ 3 := sample_definition ]} ]} ∅)
    (IdString "S_PING") (Exact 2)
  = resolveIdentifier
      (sample_engine 5 {[ "S_PING" := {[ 3 := sample_definition ]} ]} ∅)
      (IdNumber 1000) (Exact 2).
Proof.
  exact (resolveIdentifier_name_or_code Buffer.byte
           (sample_engine 5 {[ "S_PING" := {[ 3 := sample_definition ]} ]} ∅)
           "S_PING" 1000 (Exact 2) eq_refl eq_refl).
Defined.

Lemma addDefinition_then_resolve_witness :
  exists w' l,
    addDefinition sample_compile "S_PING" 4 (Structural "S_PING.4.def") true
      sample_world
    = (w', Ok tt)
    /\ 4 <= l
    /\ resolveIdentifier (this w') (IdString "S_PING") (Exact 4)
       = Ok (mkResolvedIdentifier "S_PING" 1000 (Some (Js.Num 4))
               (Some (Js.Num l)) (flagged Buffer.byte ∅ 5 "S_PING" 4
                                    (sample_object "S_PING.4.def"))).
Proof.
  destruct (addDefinition_then_resolve Buffer.byte string sample_compile
              "S_PING" 1000 4 (Structural "S_PING.4.def")
              (sample_object "S_PING.4.def") ∅
              (IdString "S_PING") sample_world eq_refl eq_refl
              (conj eq_refl eq_refl))
    as (w' & l & Hrun & Hl & Hr & _).
  exists w', l. split; [exact Hrun|]. split; [exact Hl|exact Hr].
Defined.

Definition table_retired : gmap string (gmap Z DeprecationEntry) :=
  {[ "S_PING" := {[ 1 := mkDeprecationEntry None (Some 3) (Some true) ]} ]}.

Lemma deprecated_definition_flow_witness :
  exists w' r,
    addDefinition sample_compile "S_PING" 1 (Structural "S_PING.1.def") true
      (mkWorld (sample_engine 5 ∅ table_retired) ∅ [])
    = (w', Ok tt)
    /\ resolveIdentifier (this w') (IdString "S_PING") (Exact 1) = Ok r
    /\ write Byte.x00 sample_uninit r (Some Byte.x41) w'
       = (w', Throw (Deprecated Writing))
    /\ readable (definition r) = true.
Proof.
  destruct (deprecated_definition_flow Buffer.byte Byte.x00 string sample_compile
              sample_uninit "S_PING" 1000 1 (Structural "S_PING.1.def")
              (sample_object "S_PING.1.def") table_retired (mkDeprecationEntry None (Some 3) (Some true))
              (IdString "S_PING")
              (mkWorld (sample_engine 5 ∅ table_retired) ∅ [])
              eq_refl eq_refl)
    as (w' & r & Hrun & Hr & Hwrite & _ & Hread).
  { unfold deprecation_entry, table_retired.
    rewrite lookup_singleton_eq. cbn. apply lookup_singleton_eq. }
  { split; intros m Hm; [discriminate|]. injection Hm as <-. cbn. lia. }
  { split; reflexivity. }
  exists w', r. split; [exact Hrun|]. split; [exact Hr|].
  split; [apply Hwrite|]. apply Hread. reflexivity.
Defined.

Lemma written_buffer_survives_witness :
  match boot 5 return Prop with
  | Ok w =>
      exists w1 result,
        write Byte.x00 sample_uninit sample_resolved (Some Byte.x41) w
        = (w1, Ok result)
        /\ (forall r' data',
              Buffer.contents
                (heap (write Byte.x00 sample_uninit r' data' w1).1) result
              = Buffer.contents (heap w1) result)
        /\ forall r' buffer,
            Buffer.contents (heap (parse r' buffer w1).1) result
            = Buffer.contents (heap w1) result
  | Throw _ => False
  end.
Proof.
  destruct (boot_explicit 5) as (rb & views & wb & h & -> & Hs).
  set (w := mkWorld _ h []).
  pose proof (boot_write_view w Hs) as Hview.
  pose proof (write_runs Buffer.byte Byte.x00 sample_uninit sample_resolved
                (Some Byte.x41) w
                (Buffer.splice 4 [Byte.x41]
                   (Buffer.view_bytes (heap w) (writeView (this w))))
                5 Hs eq_refl eq_refl) as Hrun.
  cbv zeta in Hrun.
  specialize (Hrun ltac:(rewrite length_splice;
                         [exact Hview|cbn [List.length]; lia])
                   ltac:(lia)).
  destruct (written_buffer_survives Buffer.byte Byte.x00 sample_uninit
              sample_resolved (Some Byte.x41) w _ _ Hs Hrun) as (H1 & H2 & _).
  eexists _, _. split; [exact Hrun|]. split; [exact H1|exact H2].
Defined.

(** Two inputs in the heap the engine is constructed in. *)
Definition two_inputs : Buffer.Heap :=
  <[1%positive := [Byte.x41]]> {[ 2%positive := [Byte.x42; Byte.x43] ]}.

Lemma read_view_is_overwritten_witness :
  match constructor Buffer.byte sample_uninit "EU" 5 0 sample_map None
          two_inputs return Prop with
  | Ok (p, h) =>
      let w1 := (parse sample_resolved 1 (mkWorld p h [])).1 in
      let w2 := (parse sample_resolved 2 w1).1 in
      exists view,
        Js.array_get (readViews p) 1 = Some view
        /\ Buffer.view_bytes (heap w1) view = [Byte.x41]
        /\ Buffer.view_bytes (heap w2) view = [Byte.x42]
  | Throw _ => False
  end.
Proof.
  destruct (constructor_ok Buffer.byte sample_uninit "EU" 5 0 sample_map None
              two_inputs) as (rb & views & wb & h & Hc & Hs & _).
  { cbn. apply list_elem_of_here. }
  destruct (constructor_blocks _ _ _ _ _ _ _ _ _ _ Hc) as (Hrb & _ & Hold).
  rewrite Hc. cbn [readBuffer] in Hrb. cbv zeta.
  set (p := mkTeraProtocol Buffer.byte _ _ _ _ _ _ _ _ _ _ _ _ _ _) in *.
  set (w := mkWorld p h []).
  assert (H1 : two_inputs !! 1%positive = Some [Byte.x41])
    by apply lookup_insert_eq.
  assert (H2 : two_inputs !! 2%positive = Some [Byte.x42; Byte.x43]).
  { unfold two_inputs. rewrite lookup_insert_ne by discriminate.
    apply lookup_singleton_eq. }
  assert (Ha : Buffer.contents (heap w) 1 = [Byte.x41]).
  { unfold Buffer.contents. cbn [heap w]. rewrite Hold by eauto.
    rewrite H1. reflexivity. }
  assert (Hne : 2%positive <> readBuffer (this w)).
  { cbn [this w readBuffer p]. intros <-. congruence. }
  assert (Hb : Buffer.contents (heap (parse sample_resolved 1 w).1) 2
               = [Byte.x42; Byte.x43]).
  { destruct (parse_world Buffer.byte sample_resolved 1 w)
      as (h1 & -> & Hframe).
    unfold Buffer.contents. cbn [heap]. rewrite (Hframe _ Hne).
    cbn [heap w]. rewrite Hold by eauto. rewrite H2. reflexivity. }
  pose proof (read_view_is_overwritten Buffer.byte sample_resolved
                sample_resolved 1 2 w Hs eq_refl eq_refl) as Hviews.
  cbv zeta in Hviews. rewrite Ha, Hb in Hviews.
  apply Hviews; cbn; lia.
Defined.

Lemma write_header_wraps_witness :
  match boot 5 return Prop with
  | Ok w =>
      exists result w',
        write Byte.x00 sample_uninit
          (mkResolvedIdentifier "S_PING" 1000 (Some (Js.Num 1))
             (Some (Js.Num 1)) full_definition) None w
        = (w', Ok result)
        /\ Z.of_nat (List.length (Buffer.contents (heap w') result)) = 0x10000
        /\ Buffer.read_uint16_le (Buffer.contents (heap w') result) = Some 0
  | Throw _ => False
  end.
Proof.
  destruct (boot_explicit 5) as (rb & views & wb & h & -> & Hs).
  set (w := mkWorld _ h []).
  destruct (write_header_wraps Buffer.byte Byte.x00 sample_uninit
              (mkResolvedIdentifier "S_PING" 1000 (Some (Js.Num 1))
                 (Some (Js.Num 1)) full_definition) None w
              (Buffer.view_bytes (heap w) (writeView (this w))) 0x10000
              Hs eq_refl eq_refl (boot_write_view w Hs) ltac:(lia))
    as (result & w' & Hrun & Hlen & _ & _ & _ & Hzero & _).
  exists result, w'. split; [exact Hrun|]. split; [exact Hlen|].
  apply Hzero. reflexivity.
Defined.

Lemma S_PING_plain : "S_PING" ∉ Js.Object_prototype.
Proof.
  intros H. unfold Js.Object_prototype in H.
  repeat (apply elem_of_cons in H as [H|H]; [discriminate H|]).
  inversion H.
Qed.

Lemma lowest_table_after_version_0_witness :
  is_lowest_default
    [Filename.mkParsedName "S_PING" 0 None Filename.def;
     Filename.mkParsedName "S_PING" 7 None Filename.def] "S_PING" 0
  /\ lowest_versions
       [Filename.mkParsedName "S_PING" 0 None Filename.def;
        Filename.mkParsedName "S_PING" 7 None Filename.def] !! "S_PING"
     = Some (Js.Int 7).
Proof.
  destruct (lowest_table_after_version_0 []
              [Filename.mkParsedName "S_PING" 7 None Filename.def]
              (Filename.mkParsedName "S_PING" 0 None Filename.def)
              S_PING_plain eq_refl)
    as (Hmin & Hlater & _).
  { intros d Hd. inversion Hd. }
  { intros d Hd _. apply list_elem_of_singleton in Hd. subst d. cbn. lia. }
  split; [exact Hmin|]. apply (Hlater 7). split.
  - eexists. split; [apply list_elem_of_here|]. split; reflexivity.
  - intros d Hd _. apply list_elem_of_singleton in Hd. subst d. cbn. lia.
Defined.

Lemma prototype_name_not_stale_witness :
  outdated (Filename.mkParsedName "constructor" 1 None Filename.def)
    (mkWorld
       (set_lowestDefaultDefVersions
          (lowest_versions
             [Filename.mkParsedName "constructor" 3 None Filename.def])
          (sample_engine 5 ∅ ∅)) ∅ [])
  = (mkWorld
       (set_lowestDefaultDefVersions
          (lowest_versions
             [Filename.mkParsedName "constructor" 3 None Filename.def])
          (sample_engine 5 ∅ ∅)) ∅ [], Ok false).
Proof.
  apply (prototype_name_not_stale Buffer.byte [] []
           (Filename.mkParsedName "constructor" 3 None Filename.def)
           (Filename.mkParsedName "constructor" 1 None Filename.def)).
  - apply list_elem_of_here.
  - reflexivity.
  - intros d Hd. inversion Hd.
  - intros d Hd. inversion Hd.
  - reflexivity.
Defined.


